(** * VelocyPack Builder: a shallow embedding of [src/Builder.cpp]

    The Builder appends encoded values to a byte buffer, keeps a stack of
    open compounds and rewrites the header of a compound in place when it
    is closed.  The development below follows the C++ text function by
    function: [ValueLength] (a [uint64_t]) is a [Z] whose wrap-around is
    written out, the buffer behind [_start] is a total byte-addressed
    memory, [_stack] and [_index] are lists in [push_back] order, and a
    member function is a computation in a state monad whose state survives
    a [throw]. *)

From Stdlib Require Import ZArith List String Ascii Bool Lia FunctionalExtensionality.
From stdpp Require Import base list.
Import ListNotations.
Local Open Scope Z_scope.

(** ** Machine integers *)

(** [ValueLength] arithmetic is arithmetic modulo 2^64. *)
Definition wrap64 (z : Z) : Z := z mod 18446744073709551616.

(** [static_cast<uint8_t>] and arithmetic on a [uint8_t] lvalue. *)
Definition wrap8 (z : Z) : Z := z mod 256.

Notation "a +% b" := (wrap64 (a + b)) (at level 50, left associativity).
Notation "a -% b" := (wrap64 (a - b)) (at level 50, left associativity).
Notation "a *% b" := (wrap64 (a * b)) (at level 40, left associativity).

(** ** The buffer *)

(** The memory reachable through [_start]: one byte per address.  Growing
    the buffer ([reserveSpace]) keeps the bytes already present, so the
    capacity is not part of the model. *)
Definition Mem := Z -> Z.

(** [_start[a] = v] *)
Definition store (m : Mem) (a v : Z) : Mem :=
  fun i => if i =? a then v else m i.

(** [memmove(_start + dst, _start + src, len)] *)
Definition memmove (m : Mem) (dst src len : Z) : Mem :=
  fun i => if (dst <=? i) && (i <? dst + len) then m (src + (i - dst)) else m i.

(** [memcpy(_start + dst, bytes, |bytes|)] from memory outside the buffer *)
Fixpoint memcpy (m : Mem) (dst : Z) (bytes : list Z) : Mem :=
  match bytes with
  | [] => m
  | x :: rest => memcpy (store m dst x) (dst + 1) rest
  end.

(** The recurring loop
    [for (j = 0; j < w; j++) { _start[a + j] = x & 0xff; x >>= 8; }] *)
Fixpoint storeLE (w : nat) (m : Mem) (a x : Z) : Mem :=
  match w with
  | O => m
  | S w' => storeLE w' (store m a (Z.land x 0xff)) (a + 1) (Z.shiftr x 8)
  end.

(** The [n] bytes found at address [a]. *)
Fixpoint readBytes (m : Mem) (a : Z) (n : nat) : list Z :=
  match n with
  | O => []
  | S n' => m a :: readBytes m (a + 1) n'
  end.

(** The [w] little-endian bytes of [x], least significant first. *)
Fixpoint leBytes (w : nat) (x : Z) : list Z :=
  match w with
  | O => []
  | S w' => Z.land x 0xff :: leBytes w' (Z.shiftr x 8)
  end.

(** A memory holding the bytes of [l] from address 0 on and zero elsewhere. *)
Definition memOfList (l : list Z) : Mem :=
  fun i => if i <? 0 then 0 else nth (Z.to_nat i) l 0.

(** The bytes of a [std::string]. *)
Definition bytesOfString (s : string) : list Z :=
  map (fun c => Z.of_N (N_of_ascii c)) (list_ascii_of_string s).

(** The characters of a C string: everything before the first NUL. *)
Fixpoint cString (s : string) : string :=
  match s with
  | EmptyString => EmptyString
  | String c rest => if Ascii.eqb c zero then EmptyString else String c (cString rest)
  end.

(** ** Exceptions, options and the Builder state *)

Inductive Exception :=
| BuilderNeedOpenCompound
| BuilderNeedOpenObject
| BuilderNeedOpenArray
| BuilderNeedSubvalue
| BuilderKeyAlreadyWritten
| BuilderKeyMustBeString
| BuilderUnexpectedType
| BuilderUnexpectedValue
| BuilderExternalsDisallowed
| NumberOutOfRange
| DuplicateAttributeName
| NotImplemented
| NeedAttributeTranslator
| InvalidValueType.

Record Options := {
  buildUnindexedArrays : bool;
  buildUnindexedObjects : bool;
  checkAttributeUniqueness : bool;
  disallowExternals : bool
}.

Record Builder := {
  _start : Mem;
  _pos : Z;
  _stack : list Z;
  _index : list (list Z);
  _keyWritten : bool;
  options : Options
}.

Definition withStart (m : Mem) (b : Builder) : Builder :=
  {| _start := m; _pos := _pos b; _stack := _stack b; _index := _index b;
     _keyWritten := _keyWritten b; options := options b |}.

Definition withPos (p : Z) (b : Builder) : Builder :=
  {| _start := _start b; _pos := p; _stack := _stack b; _index := _index b;
     _keyWritten := _keyWritten b; options := options b |}.

Definition withStack (s : list Z) (b : Builder) : Builder :=
  {| _start := _start b; _pos := _pos b; _stack := s; _index := _index b;
     _keyWritten := _keyWritten b; options := options b |}.

Definition withIndex (ix : list (list Z)) (b : Builder) : Builder :=
  {| _start := _start b; _pos := _pos b; _stack := _stack b; _index := ix;
     _keyWritten := _keyWritten b; options := options b |}.

Definition withKeyWritten (k : bool) (b : Builder) : Builder :=
  {| _start := _start b; _pos := _pos b; _stack := _stack b; _index := _index b;
     _keyWritten := k; options := options b |}.

(** [_stack.size() - 1], the slot of [_index] that belongs to the innermost
    open compound. *)
Definition depth (b : Builder) : nat := (length (_stack b) - 1)%nat.

(** [_index[_stack.size() - 1]] *)
Definition topIndex (b : Builder) : list Z := _index b !!! depth b.

(** Assignment through the reference [index = _index[_stack.size() - 1]]. *)
Definition setTopIndex (ix : list Z) (b : Builder) : Builder :=
  withIndex (<[depth b := ix]> (_index b)) b.

(** [_stack.pop_back()] *)
Definition popStack (b : Builder) : Builder := withStack (removelast (_stack b)) b.

(** ** The monad of member functions

    A call either returns, throws, or (only [close], through the
    [while (true)] of [computeCuckooHash]) is still running when the rounds
    granted to it are used up.  The Builder reached so far is kept in every
    case: a C++ exception does not undo the writes made before it. *)

Inductive Result (A : Type) :=
| Ret (a : A)
| Throw (e : Exception)
| Spin.
Arguments Ret {A} a.
Arguments Throw {A} e.
Arguments Spin {A}.

Definition M (A : Type) : Type := Builder -> Builder * Result A.

Definition throw {A : Type} (e : Exception) : M A := fun b => (b, Throw e).
Definition get : M Builder := fun b => (b, Ret b).
Definition modify (f : Builder -> Builder) : M unit := fun b => (f b, Ret tt).

#[global] Instance M_ret : MRet M := fun A a b => (b, Ret a).
#[global] Instance M_bind : MBind M := fun A B k m b =>
  match m b with
  | (b', Ret a) => k a b'
  | (b', Throw e) => (b', Throw e)
  | (b', Spin) => (b', Spin)
  end.

(** ** Values handed to [set] *)

Module ValueType.
Inductive t :=
| None | Illegal | Null | Bool | Array | Object | Double | UTCDate | External
| MinKey | MaxKey | Int | UInt | SmallInt | String | Binary | BCD | Custom.
End ValueType.

(** [Value::CType] together with the member of the union [_value] it
    selects.  A [double] is carried as its IEEE-754 binary64 bit pattern, a
    pointer as its address. *)
Inductive Payload :=
| CNone
| CBool (v : bool)
| CDouble (bits : Z)
| CInt64 (i : Z)
| CUInt64 (u : Z)
| CString (s : string)
| CCharPtr (s : string)
| CVoidPtr (p : Z).

Record Value := {
  valueType : ValueType.t;
  payload : Payload;
  _unindexed : bool
}.

(** ** External collaborators

    Code and data the Builder calls but that live outside [Builder.cpp]:
    the XXH64 hash, [Slice::seedTable], [fastModulo32Bit], the random
    engine and distribution of the standard library, the attribute
    translator behind [Slice::makeKey], and the conversions between
    [double] and the 64-bit integers.  [makeKey] yields the bytes of the
    string value that spells the translated key. *)
Class Platform := {
  XXH64 : list Z -> Z -> Z;
  seedTable : Z -> Z;
  fastModulo32Bit : Z -> Z -> Z;
  fastModulo32Bit_range : forall h n, 0 < n -> 0 <= fastModulo32Bit h n < n;
  Engine : Type;
  mt19937_64 : Z -> Engine;
  uniform_0_2 : Engine -> Z * Engine;
  uniform_0_2_range : forall e, 0 <= fst (uniform_0_2 e) <= 2;
  makeKey : Mem -> Z -> Exception + list Z;
  doubleToInt64 : Z -> Z;
  doubleToUInt64 : Z -> Z;
  int64ToDouble : Z -> Z;
  uint64ToDouble : Z -> Z;
  doubleIsNegative : Z -> bool
}.

(** ** Helpers declared in [Builder.h] *)

(** Modelled from the spec: [reserveSpace] of Builder.h is not part of the
    source at hand; "reserve(n): ensure capacity >= pos + n".  The bytes
    already in the buffer are kept. *)
Definition reserveSpace (n : Z) : M unit := mret tt.

(** [_start[_pos++] = v] *)
Definition appendByte (v : Z) : M unit :=
  modify (fun b => withPos (_pos b +% 1) (withStart (store (_start b) (_pos b) v) b)).

(** Modelled from the spec: [appendLength] of Builder.h is not part of the
    source at hand; "append_length(v, w): write w little-endian bytes of
    v". *)
Definition appendLength (v : Z) (w : nat) : M unit :=
  modify (fun b => withPos (_pos b +% Z.of_nat w)
                     (withStart (storeLE w (_start b) (_pos b) v) b)).

(** The least [w] in 1..8 with [v < 2^(8w)]. *)
Definition uintWidth (v : Z) : nat :=
  if v <? 2^8 then 1 else if v <? 2^16 then 2 else if v <? 2^24 then 3
  else if v <? 2^32 then 4 else if v <? 2^40 then 5 else if v <? 2^48 then 6
  else if v <? 2^56 then 7 else 8.

(** The least [w] in 1..8 with [-2^(8w-1) <= v < 2^(8w-1)]. *)
Definition intWidth (v : Z) : nat :=
  if (- 2^7 <=? v) && (v <? 2^7) then 1
  else if (- 2^15 <=? v) && (v <? 2^15) then 2
  else if (- 2^23 <=? v) && (v <? 2^23) then 3
  else if (- 2^31 <=? v) && (v <? 2^31) then 4
  else if (- 2^39 <=? v) && (v <? 2^39) then 5
  else if (- 2^47 <=? v) && (v <? 2^47) then 6
  else if (- 2^55 <=? v) && (v <? 2^55) then 7 else 8.

(** Modelled from the spec: [appendUInt] of Builder.h is not part of the
    source at hand; "append_uint(v, baseTag): encode v with the smallest
    width w in 1..8 such that v fits; emit head byte baseTag + w followed by
    w LE bytes". *)
Definition appendUInt (v : Z) (base : Z) : M unit :=
  let w := uintWidth v in
  appendByte (base + Z.of_nat w) ;; appendLength v w.

(** Modelled from the spec: [addInt] of Builder.h is not part of the source
    at hand; "Int(v): signed little-endian, width w = minimum needed to
    represent v with sign-extension, head byte 0x1f + w". *)
Definition addInt (v : Z) : M unit :=
  let w := intWidth v in
  appendByte (0x1f + Z.of_nat w) ;; appendLength (wrap64 v) w.

(** Modelled from the spec: [addUInt] of Builder.h is not part of the source
    at hand; "UInt(v): unsigned little-endian with minimum width, head byte
    0x27 + w". *)
Definition addUInt (v : Z) : M unit := appendUInt v 0x27.

(** Modelled from the spec: [addUTCDate] of Builder.h is not part of the
    source at hand; "UTCDate(v): fixed 8-byte signed little-endian, head
    byte 0x1c". *)
Definition addUTCDate (v : Z) : M unit :=
  appendByte 0x1c ;; appendLength (wrap64 v) 8.

(** Modelled from the spec: [toInt64] of velocypack-common.h is not part of
    the source at hand; "Int<->UInt reinterprets bits (toInt64)". *)
Definition toInt64 (u : Z) : Z :=
  if wrap64 u <? 9223372036854775808 then wrap64 u else wrap64 u - 18446744073709551616.

(** Modelled from the spec: [addArray], [addObject] and the function that
    opens a compound for them are not part of the source at hand; "begins a
    new frame", "an implementation must reserve 9 bytes at each open", the
    per-depth member offsets are "only cleared, never shrunk".  The head
    byte is written at [_pos], which becomes the new top of [_stack], and
    eight more bytes are left for the byte length and the member count. *)
Definition addCompoundValue (type : Z) : M unit :=
  modify (fun b =>
    let stack' := _stack b ++ [_pos b] in
    let d := (length stack' - 1)%nat in
    let index' := if (length (_index b) <=? d)%nat then _index b ++ [[]]
                  else <[d := []]> (_index b) in
    {| _start := store (_start b) (_pos b) type; _pos := _pos b +% 9;
       _stack := stack'; _index := index';
       _keyWritten := _keyWritten b; options := options b |}).

Definition addArray (unindexed : bool) : M unit :=
  addCompoundValue (if unindexed then 0x13 else 0x06).

Definition addObject (unindexed : bool) : M unit :=
  addCompoundValue (if unindexed then 0x14 else 0x0b).

(** Modelled from the spec: [checkKeyIsString] of Builder.h is not part of
    the source at hand; "if the innermost open compound is an object and no
    key has been written yet for the current pair, the next set must
    produce a String; else BuilderKeyMustBeString", and "a keyWritten flag
    alternates to enforce key-then-value pairing". *)
Definition checkKeyIsString (isString : bool) : M unit := fun b =>
  match last (_stack b) with
  | Some tos =>
      if (_start b tos =? 0x0b) || (_start b tos =? 0x14) then
        if negb (_keyWritten b) && negb isString
        then (b, Throw BuilderKeyMustBeString)
        else (withKeyWritten (negb (_keyWritten b)) b, Ret tt)
      else (b, Ret tt)
  | None => (b, Ret tt)
  end.

(** [isClosed()] of Builder.h: no compound is open. *)
Definition isClosed (b : Builder) : bool :=
  match _stack b with [] => true | _ => false end.

(** [static_cast<int64_t>] of a [uint64_t]: the same 64 bits read in two's
    complement. *)
Definition castInt64 (u : Z) : Z :=
  if wrap64 u <? 9223372036854775808 then wrap64 u else wrap64 u - 18446744073709551616.

(** [memcpy(_start + _pos, bytes, size); _pos += size;] *)
Definition appendBytes (bytes : list Z) : M unit :=
  modify (fun b => withPos (_pos b +% Z.of_nat (length bytes))
                     (withStart (memcpy (_start b) (_pos b) bytes) b)).

(** ** [Builder::removeLast] *)

Definition removeLast : M unit := fun b =>
  match last (_stack b) with
  | None => (b, Throw BuilderNeedOpenCompound)
  | Some tos =>
      let index := topIndex b in
      match last index with
      | None => (b, Throw BuilderNeedSubvalue)
      | Some back => (setTopIndex (removelast index) (withPos (tos +% back) b), Ret tt)
      end
  end.

Section WithPlatform.
Context {P : Platform}.

(** ** [Builder::set(Value const&)] *)

(** The [switch (ctype)] that reads a number into an [int64_t]. *)
Definition numberAsInt64 (toI : Z -> Z) (p : Payload) : option Z :=
  match p with
  | CDouble d => Some (doubleToInt64 d)
  | CInt64 i => Some i
  | CUInt64 u => Some (toI u)
  | _ => None
  end.

(** For [ValueType::String] and [ValueType::Binary]: the characters behind
    a [std::string const*] or a [char const*]. *)
Definition stringPayload (p : Payload) : option string :=
  match p with
  | CString s => Some s
  | CCharPtr s => Some (cString s)
  | _ => None
  end.

Definition set (item : Value) : M Z :=
  b0 ← get;
  let oldPos := _pos b0 in
  checkKeyIsString (match valueType item with ValueType.String => true | _ => false end) ;;
  match valueType item with
  | ValueType.None => throw BuilderUnexpectedType
  | ValueType.Null => reserveSpace 1 ;; appendByte 0x18
  | ValueType.Bool =>
      match payload item with
      | CBool v => reserveSpace 1 ;; if v then appendByte 0x1a else appendByte 0x19
      | _ => throw BuilderUnexpectedValue
      end
  | ValueType.Double =>
      match payload item with
      | CDouble d => reserveSpace 9 ;; appendByte 0x1b ;; appendLength d 8
      | CInt64 i => reserveSpace 9 ;; appendByte 0x1b ;; appendLength (int64ToDouble i) 8
      | CUInt64 u => reserveSpace 9 ;; appendByte 0x1b ;; appendLength (uint64ToDouble u) 8
      | _ => throw BuilderUnexpectedValue
      end
  | ValueType.External =>
      b ← get;
      if disallowExternals (options b) then throw BuilderExternalsDisallowed
      else match payload item with
           | CVoidPtr p => reserveSpace 9 ;; appendByte 0x1d ;; appendBytes (leBytes 8 p)
           | _ => throw BuilderUnexpectedValue
           end
  | ValueType.SmallInt =>
      match numberAsInt64 castInt64 (payload item) with
      | Some vv =>
          if (vv <? -6) || (9 <? vv) then throw NumberOutOfRange
          else reserveSpace 1 ;;
               if 0 <=? vv then appendByte (wrap8 (vv + 0x30))
               else appendByte (wrap8 (vv + 0x40))
      | None => throw BuilderUnexpectedValue
      end
  | ValueType.Int =>
      match numberAsInt64 toInt64 (payload item) with
      | Some v => addInt v
      | None => throw BuilderUnexpectedValue
      end
  | ValueType.UInt =>
      match payload item with
      | CDouble d =>
          if doubleIsNegative d then throw BuilderUnexpectedValue
          else addUInt (doubleToUInt64 d)
      | CInt64 i =>
          if i <? 0 then throw BuilderUnexpectedValue else addUInt (wrap64 i)
      | CUInt64 u => addUInt u
      | _ => throw BuilderUnexpectedValue
      end
  | ValueType.UTCDate =>
      match numberAsInt64 toInt64 (payload item) with
      | Some v => addUTCDate v
      | None => throw BuilderUnexpectedValue
      end
  | ValueType.String =>
      match stringPayload (payload item) with
      | Some s =>
          let size := Z.of_nat (String.length s) in
          if size <=? 126 then
            reserveSpace (1 + size) ;;
            appendByte (wrap8 (0x40 + size)) ;;
            appendBytes (bytesOfString s)
          else
            reserveSpace (1 + 8 + size) ;;
            appendByte 0xbf ;;
            appendLength size 8 ;;
            appendBytes (bytesOfString s)
      | None => throw BuilderUnexpectedValue
      end
  | ValueType.Array => addArray (_unindexed item)
  | ValueType.Object => addObject (_unindexed item)
  | ValueType.Binary =>
      match stringPayload (payload item) with
      | Some s =>
          let v := Z.of_nat (String.length s) in
          reserveSpace (9 + v) ;;
          appendUInt v 0xbf ;;
          appendBytes (bytesOfString s)
      | None => throw BuilderUnexpectedValue
      end
  | ValueType.Illegal => reserveSpace 1 ;; appendByte 0x17
  | ValueType.MinKey => reserveSpace 1 ;; appendByte 0x1e
  | ValueType.MaxKey => reserveSpace 1 ;; appendByte 0x1f
  | ValueType.BCD => throw NotImplemented
  | ValueType.Custom => throw BuilderUnexpectedType
  end ;;
  mret oldPos.

End WithPlatform.

(** ** Variable-length integers *)

(** Modelled from the spec: [getVariableValueLength] of velocypack-common.h
    is not part of the source at hand; "varint_width", the number of 7-bit
    groups of the value.  The loop
    [while (value >= 0x80) { value >>= 7; ++len; }] runs at most nine times
    on a 64-bit value. *)
Fixpoint varLenLoop (k : nat) (value len : Z) : Z :=
  match k with
  | O => len
  | S k' => if 0x80 <=? value then varLenLoop k' (Z.shiftr value 7) (len + 1) else len
  end.

Definition getVariableValueLength (value : Z) : Z := varLenLoop 10 value 1.

(** Modelled from the spec: [storeVariableValueLength<reverse>] of
    velocypack-common.h is not part of the source at hand; a varint, least
    significant group first, every byte but the last carrying the
    continuation bit 0x80; with [reverse] the bytes run towards lower
    addresses ("the varint count at the trailing byte"). *)
Fixpoint storeVarLoop (k : nat) (reverse : bool) (m : Mem) (dst value : Z) : Mem :=
  match k with
  | O => m
  | S k' =>
      if 0x80 <=? value
      then storeVarLoop k' reverse (store m dst (wrap8 (Z.lor value 0x80)))
             (if reverse then dst - 1 else dst + 1) (Z.shiftr value 7)
      else store m dst (Z.land value 0x7f)
  end.

Definition storeVariableValueLength (reverse : bool) (m : Mem) (dst value : Z) : Mem :=
  storeVarLoop 10 reverse m dst value.

(** The bytes of the varint of [value], in the order of increasing
    significance. *)
Fixpoint varintLoop (k : nat) (value : Z) : list Z :=
  match k with
  | O => []
  | S k' =>
      if 0x80 <=? value
      then wrap8 (Z.lor value 0x80) :: varintLoop k' (Z.shiftr value 7)
      else [Z.land value 0x7f]
  end.

Definition varintBytes (value : Z) : list Z := varintLoop 10 value.

(** ** [Builder::closeEmptyArrayOrObject] *)

Definition closeEmptyArrayOrObject (tos : Z) (isArray : bool) (b : Builder) : Builder :=
  popStack (withPos (_pos b -% 8)
              (withStart (store (_start b) tos (if isArray then 0x01 else 0x0a)) b)).

(** ** [Builder::closeCompactArrayOrObject] *)

(** Lines 103-113: the byte size of the compact form and the width [bLen]
    of its length field, after the one reconciliation step. *)
Definition compactSizes (tos pos n : Z) : Z * Z :=
  let nLen := getVariableValueLength n in
  let byteSize := pos -% (tos +% 8) +% nLen in
  let bLen := getVariableValueLength byteSize in
  let byteSize := byteSize +% bLen in
  if getVariableValueLength byteSize =? bLen
  then (byteSize, bLen)
  else (byteSize +% 1, bLen +% 1).

Definition closeCompactArrayOrObject (tos : Z) (isArray : bool) (index : list Z)
    (b : Builder) : Builder * bool :=
  let n := Z.of_nat (length index) in
  let nLen := getVariableValueLength n in
  let '(byteSize, bLen) := compactSizes tos (_pos b) n in
  if bLen <? 9 then
    let m1 := store (_start b) tos (if isArray then 0x13 else 0x14) in
    let targetPos := 1 +% bLen in
    let m2 := if tos +% 9 <? _pos b
              then memmove m1 (tos +% targetPos) (tos +% 9) (_pos b -% (tos +% 9))
              else m1 in
    let m3 := storeVariableValueLength false m2 (tos +% 1) byteSize in
    let m4 := storeVariableValueLength true m3 (tos +% byteSize -% 1) n in
    (popStack (withPos (_pos b -% 8 +% (nLen +% bLen)) (withStart m4 b)), true)
  else (b, false).

(** ** [Builder::closeArray] *)

(** The loop of lines 163-168 over the pairs [index[i], index[i + 1]]; it is
    run on the members from [index[1]] on. *)
Fixpoint sameStride (subLen : Z) (l : list Z) : bool :=
  match l with
  | a :: (c :: _) as rest => if c -% a =? subLen then sameStride subLen rest else false
  | _ => true
  end.

(** Lines 150-174: the value of [needIndexTable] (and of [needNrSubs], which
    is always assigned with it). *)
Definition needTable (tos pos : Z) (index : list Z) : bool :=
  let n := Z.of_nat (length index) in
  if n =? 1 then false
  else if (pos -% tos) -% index !!! 0%nat =? n *% (index !!! 1%nat -% index !!! 0%nat) then
    let subLen := index !!! 1%nat -% index !!! 0%nat in
    let noTable :=
      if negb ((pos -% tos) -% index !!! (length index - 1)%nat =? subLen) then false
      else sameStride subLen (tail index) in
    negb noTable
  else true.

(** Lines 177-194. *)
Definition arrayOffsetSize (tos pos n : Z) (needIndexTable needNrSubs : bool) : Z :=
  if pos -% tos +% (if needIndexTable then n else 0) -% (if needNrSubs then 6 else 7) <=? 0xff
  then 1
  else if pos -% tos +% (if needIndexTable then 2 *% n else 0) <=? 0xffff then 2
  else if pos -% tos +% (if needIndexTable then 4 *% n else 0) <=? 0xffffffff then 4
  else 8.

(** The loop that writes a table of [k] entries of [w] bytes each:
    [for (i = 0; i < k; i++) { x = tab[i]; for (j = 0; j < w; j++) {
       _start[tableBase + w * i + j] = x & 0xff; x >>= 8; } }] *)
Fixpoint writeTable (k : nat) (w : Z) (m : Mem) (tableBase : Z) (tab : list Z) (i : Z) : Mem :=
  match k with
  | O => m
  | S k' =>
      writeTable k' w
        (storeLE (Z.to_nat w) m (tableBase +% w *% i) (tab !!! Z.to_nat i))
        tableBase tab (i + 1)
  end.

(** [appendLength] outside the monad. *)
Definition appended (v : Z) (w : nat) (b : Builder) : Builder := fst (appendLength v w b).

Definition closeArray (tos : Z) (b : Builder) : Builder :=
  let n := Z.of_nat (length (topIndex b)) in
  let b1 := withStart (store (_start b) tos 0x06) b in
  let needIndexTable := needTable tos (_pos b1) (topIndex b1) in
  let needNrSubs := needIndexTable in
  let offsetSize := arrayOffsetSize tos (_pos b1) n needIndexTable needNrSubs in
  let b2 :=
    if offsetSize =? 1 then
      let targetPos := if needIndexTable then 3 else 2 in
      let m := if tos +% 9 <? _pos b1
               then memmove (_start b1) (tos +% targetPos) (tos +% 9) (_pos b1 -% (tos +% 9))
               else _start b1 in
      let diff := 9 -% targetPos in
      let b' := withPos (_pos b1 -% diff) (withStart m b1) in
      if needIndexTable then setTopIndex (map (fun x => x -% diff) (topIndex b')) b' else b'
    else b1 in
  let b3 :=
    if needIndexTable then
      let tableBase := _pos b2 in
      withPos (_pos b2 +% offsetSize *% n)
        (withStart (writeTable (length (topIndex b2)) offsetSize (_start b2) tableBase
                      (topIndex b2) 0) b2)
    else withStart (store (_start b2) tos 0x02) b2 in
  let bump k b' := withStart (store (_start b') tos (wrap8 (_start b' tos + k))) b' in
  let b4 :=
    if 1 <? offsetSize then
      if offsetSize =? 2 then bump 1 b3
      else if offsetSize =? 4 then bump 2 b3
      else if needNrSubs then appended n 8 (bump 3 b3) else bump 3 b3
    else b3 in
  let x := _pos b4 -% tos in
  let b5 := withStart (storeLE (Z.to_nat offsetSize) (_start b4) (tos +% 1) x) b4 in
  let b6 :=
    if (offsetSize <? 8) && needNrSubs
    then withStart (storeLE (Z.to_nat offsetSize) (_start b5) (tos +% (offsetSize + 1)) n) b5
    else b5 in
  popStack b6.

(** ** [Builder::close], the object part after [computeCuckooHash]

    Lines 313-412, for the table [ht], the [seed] and the slot count
    [nrSlots] that [computeCuckooHash] returned. *)

(** Lines 314-329. *)
Definition objectOffsetSize (tos pos nrSlots : Z) : Z :=
  if pos -% tos +% nrSlots -% 4 <=? 0xff then 1
  else if pos -% tos +% 2 *% nrSlots <=? 0xffff then 2
  else if pos -% tos +% 4 *% nrSlots <=? 0xffffffff then 4
  else 8.

Definition closeIndexedObject (tos : Z) (ht : list Z) (seed nrSlots : Z) (b : Builder)
    : Builder :=
  let n := Z.of_nat (length (topIndex b)) in
  let offsetSize := objectOffsetSize tos (_pos b) nrSlots in
  let '(b1, ht1) :=
    if offsetSize =? 1 then
      let m := if tos +% 9 <? _pos b
               then memmove (_start b) (tos +% 5) (tos +% 9) (_pos b -% (tos +% 9))
               else _start b in
      let diff := 4 in
      let b' := withPos (_pos b -% diff) (withStart m b) in
      (setTopIndex (map (fun x => x -% diff) (topIndex b')) b',
       imap (fun i x => if (Z.of_nat i <? nrSlots) && negb (x =? 0) then x -% diff else x) ht)
    else (b, ht) in
  let tableBase := _pos b1 in
  let b2 := withPos (_pos b1 +% offsetSize *% nrSlots)
              (withStart (writeTable (Z.to_nat nrSlots) offsetSize (_start b1) tableBase ht1 0)
                 b1) in
  let head v b' := withStart (store (_start b') tos v) b' in
  let b3 :=
    if 1 <? offsetSize then
      if offsetSize =? 2 then head 0x0c b2
      else if offsetSize =? 4 then appended seed 1 (appended nrSlots 4 (head 0x0d b2))
      else appended seed 1 (appended nrSlots 8 (appended n 8 (head 0x0e b2)))
    else b2 in
  let x := _pos b3 -% tos in
  let b4 := withStart (storeLE (Z.to_nat offsetSize) (_start b3) (tos +% 1) x) b3 in
  let b5 :=
    if offsetSize <? 8 then
      let b' := withStart (storeLE (Z.to_nat offsetSize) (_start b4)
                             (tos +% (offsetSize + 1)) n) b4 in
      if offsetSize <? 4 then
        let base := if offsetSize =? 1 then 3 else 5 in
        let b'' := withStart (storeLE (Z.to_nat offsetSize) (_start b') (tos +% base) nrSlots)
                     b' in
        withStart (store (_start b'') (base + offsetSize) seed) b''
      else b'
    else b4 in
  popStack b5.

Section WithPlatform.
Context {P : Platform}.

(** ** [Builder::findAttrName] *)

(** [for (i = 8; i >= 1; i--) len = (len << 8) + base[i];] *)
Definition readLength (m : Mem) (base : Z) : Z :=
  fold_left (fun len i => wrap64 (Z.shiftl len 8) +% m (base + i)) [8; 7; 6; 5; 4; 3; 2; 1] 0.

(** The two string cases: the bytes of the name, if [base] holds a string. *)
Definition stringName (m : Mem) (base : Z) : option (list Z) :=
  let b := m base in
  if (0x40 <=? b) && (b <=? 0xbe) then Some (readBytes m (base + 1) (Z.to_nat (b - 0x40)))
  else if b =? 0xbf then Some (readBytes m (base + 1 + 8) (Z.to_nat (readLength m base)))
  else None.

(** A key that is not a string is translated by [makeKey], and the result,
    a string, goes through the two string cases.  Should the translator
    hand back something else, the next [makeKey] has nothing to translate:
    this is modelled as its exception. *)
Definition findAttrName (m : Mem) (base : Z) : Exception + list Z :=
  match stringName m base with
  | Some name => inr name
  | None =>
      match makeKey m base with
      | inl ex => inl ex
      | inr key =>
          match stringName (memOfList key) 0 with
          | Some name => inr name
          | None => inl InvalidValueType
          end
      end
  end.

(** ** [Builder::computeCuckooHash] *)

(** [pos[j]] after the reduction modulo [nrSlots]. *)
Definition hashPos (small : bool) (nrSlots seed : Z) (attrName : list Z) (j : Z) : Z :=
  let h := XXH64 attrName (seedTable (3 * seed + j)) in
  if small then fastModulo32Bit h nrSlots else h mod nrSlots.

(** The lambda [doTheCheck]: the exception it throws, if any. *)
Definition doTheCheck (m : Mem) (objStart : Z) (attrName : list Z) (otherOffset : Z)
    : option Exception :=
  match findAttrName m (objStart +% otherOffset) with
  | inl ex => Some ex
  | inr otherName =>
      if decide (attrName = otherName) then Some DuplicateAttributeName else None
  end.

(** One of the three lines
    [if (ht[pos[j]] == 0) { ht[pos[j]] = offset; return true; }
     else if (checkUniqueness) { doTheCheck(ht[pos[j]]); }] *)
Inductive Probe :=
| Stored (ht' : list Z)
| Occupied
| Raised (ex : Exception).

Definition probe (m : Mem) (objStart : Z) (checkUniqueness : bool) (attrName : list Z)
    (ht : list Z) (p offset : Z) : Probe :=
  if ht !!! Z.to_nat p =? 0 then Stored (<[Z.to_nat p := offset]> ht)
  else if checkUniqueness then
    match doTheCheck m objStart attrName (ht !!! Z.to_nat p) with
    | Some ex => Raised ex
    | None => Occupied
    end
  else Occupied.

(** The lambda [insert].  [k] counts the passes through the body that
    [do { ... } while (++count <= searchLimit)] still allows; the call
    starts with [searchLimit + 1] of them.  [ht] and the engine [e] are
    captured by reference, so they are handed back. *)
Fixpoint insert (k : nat) (m : Mem) (small : bool) (nrSlots seed objStart : Z)
    (ht : list Z) (e : Engine) (offset : Z) (checkUniqueness : bool)
    : list Z * Engine * Result bool :=
  match k with
  | O => (ht, e, Ret false)
  | S k' =>
      match findAttrName m (objStart +% offset) with
      | inl ex => (ht, e, Throw ex)
      | inr attrName =>
          let pos j := hashPos small nrSlots seed attrName j in
          match probe m objStart checkUniqueness attrName ht (pos 0) offset with
          | Stored ht' => (ht', e, Ret true)
          | Raised ex => (ht, e, Throw ex)
          | Occupied =>
          match probe m objStart checkUniqueness attrName ht (pos 1) offset with
          | Stored ht' => (ht', e, Ret true)
          | Raised ex => (ht, e, Throw ex)
          | Occupied =>
          match probe m objStart checkUniqueness attrName ht (pos 2) offset with
          | Stored ht' => (ht', e, Ret true)
          | Raised ex => (ht, e, Throw ex)
          | Occupied =>
              let '(i, e') := uniform_0_2 e in
              let tmp := ht !!! Z.to_nat (pos i) in
              insert k' m small nrSlots seed objStart
                (<[Z.to_nat (pos i) := offset]> ht) e' tmp false
          end end end
      end
  end.

(** The loop over the members,
    [for (i = 0; i < index.size(); i++) if (!insert(_start + tos, index[i]))
       { error = true; break; }]:
    [Ret true] when every member found a slot, [Ret false] on [error]. *)
Fixpoint insertAll (k : nat) (m : Mem) (small : bool) (nrSlots seed objStart : Z)
    (checkUniqueness : bool) (members : list Z) (ht : list Z) (e : Engine)
    : list Z * Engine * Result bool :=
  match members with
  | [] => (ht, e, Ret true)
  | offset :: rest =>
      match insert k m small nrSlots seed objStart ht e offset checkUniqueness with
      | (ht', e', Ret true) =>
          insertAll k m small nrSlots seed objStart checkUniqueness rest ht' e'
      | r => r
      end
  end.

(** The loop [do { ... seed++; } while (seed != 0)] over the 256 values of
    the [uint8_t] seed; [s] counts the seeds not yet tried.  [Ret (Some _)]
    carries the table and the seed of the successful attempt, [Ret None]
    says that the loop ran to its end. *)
Fixpoint trySeeds (s : nat) (k : nat) (m : Mem) (small : bool) (nrSlots objStart : Z)
    (checkUniqueness : bool) (index : list Z) (seed : Z) (e : Engine)
    : Engine * Result (option (list Z * Z)) :=
  match s with
  | O => (e, Ret None)
  | S s' =>
      let ht := replicate (Z.to_nat nrSlots) 0 in
      match insertAll k m small nrSlots seed objStart checkUniqueness index ht e with
      | (ht', e', Ret true) => (e', Ret (Some (ht', seed)))
      | (_, e', Ret false) =>
          let seed' := wrap8 (seed + 1) in
          if seed' =? 0 then (e', Ret None)
          else trySeeds s' k m small nrSlots objStart checkUniqueness index seed' e'
      | (_, e', Throw ex) => (e', Throw ex)
      | (_, e', Spin) => (e', Spin)
      end
  end.

(** The outer [while (true)] over table sizes, cut after [rounds] sizes.
    A slot count of zero, which only the wrap-around of [nrSlots * 110] can
    produce, makes [% nrSlots] a division by zero: the call does not
    return. *)
Fixpoint tryTables (rounds : nat) (k : nat) (m : Mem) (nrSlots objStart : Z)
    (checkUniqueness : bool) (index : list Z) (e : Engine)
    : Result (list Z * Z * Z) :=
  match rounds with
  | O => Spin
  | S rounds' =>
      if nrSlots =? 0 then Spin
      else
        let small := nrSlots <=? 0x1000000 in
        match trySeeds 256 k m small nrSlots objStart checkUniqueness index 0 e with
        | (_, Ret (Some (ht, seed))) => Ret (ht, seed, nrSlots)
        | (e', Ret None) =>
            tryTables rounds' k m (nrSlots *% 110 / 100) objStart checkUniqueness index e'
        | (_, Throw ex) => Throw ex
        | (_, Spin) => Spin
        end
  end.

(** Line 849. *)
Definition initialSlots (n : Z) : Z := n +% (n *% 3) / 20 +% 1.

(** Lines 852-853; the square root of the [double] is cut to an integer. *)
Definition searchLimit (nrSlots : Z) : Z :=
  if nrSlots <? 400 then nrSlots *% 3 else 1200 +% Z.sqrt nrSlots.

(** [computeCuckooHash] reads the Builder and fills its two out-parameters:
    the result is the table [ht], the [seed] and the returned slot count. *)
Definition computeCuckooHash (rounds : nat) (b : Builder) : Result (list Z * Z * Z) :=
  let e := mt19937_64 123456789 in
  let tos := List.last (_stack b) 0 in
  let index := topIndex b in
  let nrSlots := initialSlots (Z.of_nat (length index)) in
  tryTables rounds (S (Z.to_nat (searchLimit nrSlots))) (_start b) nrSlots tos
    (checkAttributeUniqueness (options b)) index e.

(** ** [Builder::close] *)

(** The condition of lines 292-294 under which the compact form is tried. *)
Definition wantsCompact (head : Z) (o : Options) (index : list Z) : bool :=
  (head =? 0x13) || (head =? 0x14)
  || ((head =? 0x06) && buildUnindexedArrays o)
  || ((head =? 0x0b) && (buildUnindexedObjects o || (length index =? 1)%nat)).

(** Lines 301-412: the closer that [close] runs when the compact form was
    not tried or was given up.  It starts by writing the head byte of the
    indexed form over whatever head the compound was opened with. *)
Definition closeIndexed (rounds : nat) (tos : Z) (isArray : bool) : M unit := fun b =>
  if isArray then (closeArray tos b, Ret tt)
  else
    let b2 := withStart (store (_start b) tos 0x0b) b in
    match computeCuckooHash rounds b2 with
    | Ret (ht, seed, nrSlots) => (closeIndexedObject tos ht seed nrSlots b2, Ret tt)
    | Throw ex => (b2, Throw ex)
    | Spin => (b2, Spin)
    end.

Definition close (rounds : nat) : M unit := fun b =>
  match last (_stack b) with
  | None => (b, Throw BuilderNeedOpenCompound)
  | Some tos =>
      let head := _start b tos in
      let isArray := (head =? 0x06) || (head =? 0x13) in
      let index := topIndex b in
      match index with
      | [] => (closeEmptyArrayOrObject tos isArray b, Ret tt)
      | _ :: _ =>
          let '(b1, done) :=
            if wantsCompact head (options b) index
            then closeCompactArrayOrObject tos isArray index b
            else (b, false) in
          if done then (b1, Ret tt) else closeIndexed rounds tos isArray b1
      end
  end.

End WithPlatform.

(** ** [add]

    Modelled from the spec: [add(Value)] (the template behind it is in
    Builder.h) is not part of the source at hand; "add(value) appends a
    value at the current position and records its offset into the
    top-frame's memberOffsets before the write", and in an object "the
    recorded offset is that of the key".  It is used below to build the
    Builder states on which the closers are run. *)
Definition add {P : Platform} (item : Value) : M Z := fun b =>
  match last (_stack b) with
  | Some tos =>
      if _keyWritten b then set item b
      else set item (setTopIndex (topIndex b ++ [_pos b -% tos]) b)
  | None => set item b
  end.

(** ** A reference platform

    An instance of the external collaborators on which the Builder can be
    run: a byte-wise multiplicative hash with a final mixing step in the
    place of XXH64, a linear congruential engine in the place of the
    Mersenne twister, no attribute translator, and IEEE-754 binary64
    conversions on bit patterns.  Every theorem below holds for all
    platforms; this one serves the examples. *)
Module Reference.

(** The last step of the hash: three xor-shifts and two multiplications
    that spread every input bit over the 64 bits of the result. *)
Definition mix (h : Z) : Z :=
  let h := Z.lxor h (Z.shiftr h 33) in
  let h := wrap64 (h * 18397679294719823053) in
  let h := Z.lxor h (Z.shiftr h 33) in
  let h := wrap64 (h * 14181476777654086739) in
  Z.lxor h (Z.shiftr h 33).

Definition hash (name : list Z) (seed : Z) : Z :=
  mix (fold_left (fun h c => wrap64 (Z.lxor h c * 1099511628211)) name
         (wrap64 (seed + 14695981039346656037))).

Definition seeds (i : Z) : Z := wrap64 ((i + 1) * 11400714819323198485).

Definition fastModulo (h n : Z) : Z := (h mod 4294967296) * n / 4294967296.

Definition engineOfSeed (s : Z) : Z := wrap64 s.

Definition draw (e : Z) : Z * Z :=
  let e' := wrap64 (e * 6364136223846793005 + 1442695040888963407) in
  ((e' / 8589934592) mod 3, e').

Definition doubleSign (bits : Z) : bool := Z.testbit bits 63.
Definition doubleExponent (bits : Z) : Z := Z.land (Z.shiftr bits 52) 0x7ff.
Definition doubleFraction (bits : Z) : Z := Z.land bits (2^52 - 1).

(** The value of a finite double cut towards zero. *)
Definition truncate (bits : Z) : option Z :=
  if doubleExponent bits =? 0x7ff then None
  else
    let mag := if doubleExponent bits =? 0 then 0
               else Z.shiftl (doubleFraction bits + 2^52) (doubleExponent bits - 1075) in
    Some (if doubleSign bits then - mag else mag).

(** Where C++ leaves the conversion undefined the bit pattern 0x8000000000000000
    is returned, as the x86-64 conversion instructions do. *)
Definition toInt64 (bits : Z) : Z :=
  match truncate bits with
  | Some v => if (- 2^63 <=? v) && (v <? 2^63) then v else - 2^63
  | None => - 2^63
  end.

Definition toUInt64 (bits : Z) : Z :=
  match truncate bits with
  | Some v => if (0 <=? v) && (v <? 2^64) then v else 2^63
  | None => 2^63
  end.

(** The double nearest to an integer, ties to even. *)
Definition ofInteger (n : Z) : Z :=
  if n =? 0 then 0
  else
    let a := Z.abs n in
    let l := Z.log2 a in
    let '(sig, ex) :=
      if l <=? 52 then (Z.shiftl a (52 - l), l)
      else
        let sh := l - 52 in
        let q := Z.shiftr a sh in
        let r := Z.land a (2^sh - 1) in
        let half := 2^(sh - 1) in
        let q' := if (half <? r) || ((r =? half) && Z.odd q) then q + 1 else q in
        if q' =? 2^53 then (2^52, l + 1) else (q', l) in
    Z.lor (if n <? 0 then 2^63 else 0) (Z.lor (Z.shiftl (ex + 1023) 52) (sig - 2^52)).

Definition isNegative (bits : Z) : bool :=
  doubleSign bits
  && negb ((doubleExponent bits =? 0x7ff) && negb (doubleFraction bits =? 0))
  && negb (Z.land bits (2^63 - 1) =? 0).

#[global, refine] Instance platform : Platform := {|
  XXH64 := hash;
  seedTable := seeds;
  fastModulo32Bit := fastModulo;
  fastModulo32Bit_range := _;
  Engine := Z;
  mt19937_64 := engineOfSeed;
  uniform_0_2 := draw;
  uniform_0_2_range := _;
  makeKey := fun _ _ => inl NeedAttributeTranslator;
  doubleToInt64 := toInt64;
  doubleToUInt64 := toUInt64;
  int64ToDouble := ofInteger;
  uint64ToDouble := ofInteger;
  doubleIsNegative := isNegative
|}.
Proof.
  - intros h n Hn. unfold fastModulo.
    assert (0 <= h mod 4294967296 < 4294967296) by (apply Z.mod_pos_bound; lia).
    split.
    + apply Z.div_pos; nia.
    + apply Z.div_lt_upper_bound; nia.
  - intros e. unfold draw. cbn [fst].
    pose proof (Z.mod_pos_bound
                  (wrap64 (e * 6364136223846793005 + 1442695040888963407) / 8589934592) 3).
    lia.
Defined.

End Reference.

(** The Builder before its first call. *)
Definition emptyBuilder (o : Options) : Builder :=
  {| _start := fun _ => 0; _pos := 0; _stack := []; _index := [];
     _keyWritten := false; options := o |}.

Definition defaultOptions : Options :=
  {| buildUnindexedArrays := false; buildUnindexedObjects := false;
     checkAttributeUniqueness := false; disallowExternals := false |}.

(** Runs a computation and keeps the Builder it leaves. *)
Definition exec {A : Type} (c : M A) (b : Builder) : Builder := fst (c b).

Definition smallInt (v : Z) : Value :=
  {| valueType := ValueType.SmallInt; payload := CInt64 v; _unindexed := false |}.
Definition str (s : string) : Value :=
  {| valueType := ValueType.String; payload := CString s; _unindexed := false |}.
Definition array (unindexed : bool) : Value :=
  {| valueType := ValueType.Array; payload := CNone; _unindexed := unindexed |}.
Definition object (unindexed : bool) : Value :=
  {| valueType := ValueType.Object; payload := CNone; _unindexed := unindexed |}.

(** ** Vocabulary of the statements *)

(** What a Builder keeps when only [_keyWritten] may have changed. *)
Definition sameBuffer (b b' : Builder) : Prop :=
  _pos b' = _pos b /\ _start b' = _start b /\ _stack b' = _stack b /\
  _index b' = _index b /\ options b' = options b.

(** The innermost open compound is an object. *)
Definition inObject (b : Builder) : bool :=
  match last (_stack b) with
  | Some tos => (_start b tos =? 0x0b) || (_start b tos =? 0x14)
  | None => false
  end.

(** The buffers [m] and [m'] hold the same bytes at the offsets 0 to
    [p - 1]. *)
Definition sameBelow (p : Z) (m m' : Mem) : Prop := forall a, 0 <= a < p -> m a = m' a.

(** The encoded lengths of the members of a frame whose bytes end at offset
    [last] (that is, at [_pos - tos]). *)
Fixpoint memberLengths (last : Z) (index : list Z) : list Z :=
  match index with
  | [] => []
  | o :: rest =>
      (match rest with [] => last | o' :: _ => o' end - o) :: memberLengths last rest
  end.

(** The length of an array closed with width [w]: [used] bytes are in the
    frame before the close, head and reserved bytes included. *)
Definition arrayFinalLength (w used n : Z) (needIndexTable : bool) : Z :=
  if w =? 1 then used + (if needIndexTable then n else 0) - (if needIndexTable then 6 else 7)
  else used + (if needIndexTable then w * n else 0)
       + (if (w =? 8) && needIndexTable then 8 else 0).

(** The length of an object closed with width [w] and [nrSlots] slots. *)
Definition objectFinalLength (w used nrSlots : Z) : Z :=
  if w =? 1 then used - 4 + nrSlots
  else if w =? 2 then used + 2 * nrSlots
  else if w =? 4 then used + 4 * nrSlots + 5
  else used + 8 * nrSlots + 17.

(** ** Builders used as examples *)

(** An array that has just been opened. *)
Definition openedArray : Builder :=
  exec (add (array false)) (emptyBuilder defaultOptions).

(** An open array that holds the small integer 1. *)
Definition oneMember : Builder :=
  exec (add (array false) ;; add (smallInt 1)) (emptyBuilder defaultOptions).

(** The open array [1, 2, 3] of small integers. *)
Definition threeSmallInts (unindexed : bool) : Builder :=
  exec (add (array unindexed) ;; add (smallInt 1) ;; add (smallInt 2) ;; add (smallInt 3))
    (emptyBuilder defaultOptions).

(** The open object with the single pair "a": 1, opened in indexed form. *)
Definition singleMemberObject : Builder :=
  exec (add (object false) ;; add (str "a") ;; add (smallInt 1)) (emptyBuilder defaultOptions).

(** The open object with the pairs "a": 1 and "b": 2, opened in indexed
    form. *)
Definition twoMemberObject : Builder :=
  exec (add (object false) ;; add (str "a") ;; add (smallInt 1) ;;
        add (str "b") ;; add (smallInt 2))
    (emptyBuilder defaultOptions).

(** [twoMemberObject] with another byte at offset 15, behind the bytes
    written so far. *)
Definition scribbledObject : Builder :=
  withStart (store (_start twoMemberObject) 15 0xff) twoMemberObject.

(** A value of type None, which [set] refuses. *)
Definition noneValue : Value :=
  {| valueType := ValueType.None; payload := CNone; _unindexed := false |}.

(** An open object in which the key "a" has been written and its value is
    due. *)
Definition pendingKey : Builder :=
  exec (add (object false) ;; add (str "a")) (emptyBuilder defaultOptions).

(** The head of a long string of [len] bytes: the tag and the length. *)
Definition longStringHead (len : Z) : list Z := 0xbf :: leBytes 8 len.

(** An open object of about 70 kB: the key "a" with a string of 32000 bytes
    and the key "b" with a string of 40000 bytes, all of them the letter x.
    The members start at the offsets 9 and 32020 and end at 72031. *)
Definition bigObject : Builder :=
  {| _start := memcpy (memcpy (fun _ => 0x78) 0
                         ([0x0b; 0; 0; 0; 0; 0; 0; 0; 0; 0x41; 0x61] ++ longStringHead 32000))
                 32020 ([0x41; 0x62] ++ longStringHead 40000);
     _pos := 72031; _stack := [0]; _index := [[9; 32020]]; _keyWritten := false;
     options := defaultOptions |}.

(** An open object of two members that ends 13 bytes short of 4 GiB: the key
    "a" with a string of 2147483628 bytes and the key "b" with a string of
    2147483624 bytes.  With the three slots of its table, [_pos - tos + 4 *
    nrSlots] is 0xffffffff. *)
Definition hugeObject : Builder :=
  {| _start := memcpy (memcpy (fun _ => 0x78) 0
                         ([0x0b; 0; 0; 0; 0; 0; 0; 0; 0; 0x41; 0x61] ++ longStringHead 2147483628))
                 2147483648 ([0x41; 0x62] ++ longStringHead 2147483624);
     _pos := 4294967283; _stack := [0]; _index := [[9; 2147483648]]; _keyWritten := false;
     options := defaultOptions |}.

Section CuckooVocabulary.
Context {P : Platform}.

(** A member called [name] sits in the table at one of the three slots of
    that name, and the slots that are tried before it are taken. *)
Definition seated (m : Mem) (small : bool) (nrSlots seed objStart : Z) (name : list Z)
    (ht : list Z) : Prop :=
  exists t, 0 <= t <= 2 /\
    ht !!! Z.to_nat (hashPos small nrSlots seed name t) <> 0 /\
    findAttrName m (objStart +% ht !!! Z.to_nat (hashPos small nrSlots seed name t)) = inr name /\
    forall t', 0 <= t' < t -> ht !!! Z.to_nat (hashPos small nrSlots seed name t') <> 0.

(** Every member offset is non-zero and leads to an attribute name. *)
Definition membersResolve (m : Mem) (objStart : Z) (members : list Z) : Prop :=
  Forall (fun o => o <> 0 /\ exists name, findAttrName m (objStart +% o) = inr name) members.

(** A table of [nrSlots] entries, each of them empty or a member offset. *)
Definition tableOf (nrSlots : Z) (members : list Z) (ht : list Z) : Prop :=
  length ht = Z.to_nat nrSlots /\ Forall (fun x => x = 0 \/ In x members) ht.

(** One attempt of [computeCuckooHash] on the Builder [b]: the loop over
    the member offsets [members], run on an empty table of [nrSlots] slots
    with the seed [seed] and the random engine [e]. *)
Definition attempt (b : Builder) (nrSlots seed : Z) (e : Engine) (members : list Z)
    : list Z * Engine * Result bool :=
  insertAll (S (Z.to_nat (searchLimit (initialSlots (Z.of_nat (length (topIndex b)))))))
    (_start b) (nrSlots <=? 0x1000000) nrSlots seed (List.last (_stack b) 0)
    (checkAttributeUniqueness (options b)) members (replicate (Z.to_nat nrSlots) 0) e.

(** The attempts that [computeCuckooHash] makes on [b], in their order.  It
    starts with the seed 0, the initial number of slots and the freshly
    seeded engine.  An attempt in which a member finds no slot within the
    search limit is followed by the attempt with the next seed on a table
    of the same size or, after the seed 255, by the attempt with the seed 0
    on a table enlarged by a tenth; the engine goes on from where the
    failed attempt left it. *)
Inductive searchArrives (b : Builder) : Z -> Z -> Engine -> Prop :=
| arrives_first :
    initialSlots (Z.of_nat (length (topIndex b))) <> 0 ->
    searchArrives b (initialSlots (Z.of_nat (length (topIndex b)))) 0 (mt19937_64 123456789)
| arrives_seed nrSlots seed e ht e' :
    searchArrives b nrSlots seed e ->
    attempt b nrSlots seed e (topIndex b) = (ht, e', Ret false) ->
    wrap8 (seed + 1) <> 0 ->
    searchArrives b nrSlots (wrap8 (seed + 1)) e'
| arrives_table nrSlots seed e ht e' :
    searchArrives b nrSlots seed e ->
    attempt b nrSlots seed e (topIndex b) = (ht, e', Ret false) ->
    wrap8 (seed + 1) = 0 ->
    nrSlots *% 110 / 100 <> 0 ->
    searchArrives b (nrSlots *% 110 / 100) 0 e'.

Section Order.
Variables (k : nat) (m : Mem) (objStart : Z) (check : bool) (index : list Z).

(** What [tryTables] makes of the outcome of [trySeeds]. *)
Definition afterSeeds (rounds : nat) (nrSlots : Z)
    (r : Engine * Result (option (list Z * Z))) : Result (list Z * Z * Z) :=
  match r with
  | (_, Ret (Some (ht, seed))) => Ret (ht, seed, nrSlots)
  | (e', Ret None) => tryTables rounds k m (nrSlots *% 110 / 100) objStart check index e'
  | (_, Throw ex) => Throw ex
  | (_, Spin) => Spin
  end.

(** The search is at the seed [seed] of the table size [nrSlots] with the
    engine [e]: what is left of it decides the result. *)
Definition searchAt (nrSlots0 : Z) (e0 : Engine) (nrSlots seed : Z) (e : Engine) : Prop :=
  0 < nrSlots /\ 0 <= seed <= 255 /\
  exists R, forall rounds,
    tryTables (R + S rounds) k m nrSlots0 objStart check index e0
    = afterSeeds rounds nrSlots
        (trySeeds (Z.to_nat (256 - seed)) k m (nrSlots <=? 0x1000000) nrSlots objStart check
           index seed e).

End Order.

End CuckooVocabulary.

(** The open object with the pairs "a": 1 and "a": 2, opened in indexed
    form ([unindexed] false) or with the unindexed hint, in a Builder that
    checks the uniqueness of attribute names. *)
Definition twinObject (unindexed : bool) : Builder :=
  exec (add (object unindexed) ;; add (str "a") ;; add (smallInt 1) ;;
        add (str "a") ;; add (smallInt 2))
    (emptyBuilder {| buildUnindexedArrays := false; buildUnindexedObjects := false;
                     checkAttributeUniqueness := true; disallowExternals := false |}).

(** Options under which the uniqueness of attribute names is checked. *)
Definition checkingOptions : Options :=
  {| buildUnindexedArrays := false; buildUnindexedObjects := false;
     checkAttributeUniqueness := true; disallowExternals := false |}.

(** The open object with the pairs "b": 1, "r": 2, "w": 3 and "b": 4,
    opened in indexed form in a Builder that checks the uniqueness of
    attribute names.  On the reference platform the first attempt of
    [computeCuckooHash] finds no slot for "w". *)
Definition lateTwinObject : Builder :=
  exec (add (object false) ;; add (str "b") ;; add (smallInt 1) ;;
        add (str "r") ;; add (smallInt 2) ;; add (str "w") ;; add (smallInt 3) ;;
        add (str "b") ;; add (smallInt 4))
    (emptyBuilder checkingOptions).

(** A platform whose hash function is of no use: every name is sent to the
    hash value 0, hence to the slot 0 of every table.  All else is taken
    from the reference platform. *)
Module Degenerate.

Definition platform : Platform :=
  {| XXH64 := fun _ _ => 0;
     seedTable := Reference.seeds;
     fastModulo32Bit := Reference.fastModulo;
     fastModulo32Bit_range := @fastModulo32Bit_range Reference.platform;
     Engine := Z;
     mt19937_64 := Reference.engineOfSeed;
     uniform_0_2 := Reference.draw;
     uniform_0_2_range := @uniform_0_2_range Reference.platform;
     makeKey := fun _ _ => inl NeedAttributeTranslator;
     doubleToInt64 := Reference.toInt64;
     doubleToUInt64 := Reference.toUInt64;
     int64ToDouble := Reference.ofInteger;
     uint64ToDouble := Reference.ofInteger;
     doubleIsNegative := Reference.isNegative |}.

End Degenerate.

(** The open object with the pairs "a": 1, "b": 2 and "a": 3, opened in
    indexed form in a Builder that checks the uniqueness of attribute
    names. *)
Definition abaObject : Builder :=
  exec (add (object false) ;; add (str "a") ;; add (smallInt 1) ;;
        add (str "b") ;; add (smallInt 2) ;; add (str "a") ;; add (smallInt 3))
    (emptyBuilder checkingOptions).

(** An open array of 2^60 bytes that was opened with the unindexed hint and
    holds one string of 2^60 - 18 bytes. *)
Definition giantArray : Builder :=
  {| _start := memcpy (fun _ => 0x78) 0
                 ([0x13; 0; 0; 0; 0; 0; 0; 0; 0] ++ longStringHead (2^60 - 18));
     _pos := 2^60; _stack := [0]; _index := [[9]]; _keyWritten := false;
     options := defaultOptions |}.

(** ** Vocabulary and examples of the further properties *)

(** ** Vocabulary of the cuckoo table *)

Section LookupVocabulary.
Context {P : Platform}.

(** The member at offset [o] is found by a lookup of its name: one of the
    three slots of the name holds [o]. *)
Definition placed (m : Mem) (small : bool) (nrSlots seed objStart : Z) (ht : list Z)
    (o : Z) : Prop :=
  exists name j, findAttrName m (objStart +% o) = inr name /\ 0 <= j <= 2 /\
    0 <= hashPos small nrSlots seed name j < nrSlots /\
    ht !!! Z.to_nat (hashPos small nrSlots seed name j) = o.

(** The attribute names of the members, in the order of the index. *)
Definition memberNames (m : Mem) (objStart : Z) (index : list Z)
    : list (Exception + list Z) :=
  map (fun o => findAttrName m (objStart +% o)) index.

End LookupVocabulary.

(** The open array [1, "ab"]: its members differ in length. *)
Definition mixedArray : Builder :=
  exec (add (array false) ;; add (smallInt 1) ;; add (str "ab"))
    (emptyBuilder defaultOptions).

(** The open array [2, "ab"] as the second member of an open array whose
    first member is 1: the head of the inner array is at offset 10. *)
Definition nestedArray : Builder :=
  exec (add (array false) ;; add (smallInt 1) ;; add (array false) ;;
        add (smallInt 2) ;; add (str "ab"))
    (emptyBuilder defaultOptions).

(** The open object with the pairs "n": 1 and "p": 2, opened in indexed
    form.  On the reference platform [computeCuckooHash] finds no table for
    it with the seed 0 and returns the seed 1. *)
Definition seededObject : Builder :=
  exec (add (object false) ;; add (str "n") ;; add (smallInt 1) ;;
        add (str "p") ;; add (smallInt 2))
    (emptyBuilder defaultOptions).

(** The open object with the pairs "n": 1 and "p": 2 as the first member of
    an open array: the head of the object is at offset 9.  On the reference
    platform [computeCuckooHash] finds no table for it with the seed 0 and
    returns the seed 1. *)
Definition nestedSeededObject : Builder :=
  exec (add (array false) ;; add (object false) ;; add (str "n") ;; add (smallInt 1) ;;
        add (str "p") ;; add (smallInt 2))
    (emptyBuilder defaultOptions).

(** The open object with the pairs "n": 1 and "p": 2, opened in indexed
    form in a Builder that checks the uniqueness of attribute names.  On the
    reference platform the two names share their slots under the seed 0. *)
Definition checkedObject : Builder :=
  exec (add (object false) ;; add (str "n") ;; add (smallInt 1) ;;
        add (str "p") ;; add (smallInt 2))
    (emptyBuilder checkingOptions).

(** ** [Builder::hasKey] and [Builder::getKey] *)

Section WithPlatform.
Context {P : Platform}.

(** Modelled from the spec: [Slice::makeKey] and [Slice::isEqualString] of
    Slice.h are not part of the source at hand; "interpret base + tos + o
    as a slice, resolve integer-translated keys to their textual form,
    compare against the needle".  The textual form is the one that
    [findAttrName] hands to the hash function, and a key that has none
    raises the exception of the translation. *)
Definition keyIsEqualString (m : Mem) (base : Z) (key : list Z) : Exception + bool :=
  match findAttrName m base with
  | inl ex => inl ex
  | inr name => inr (bool_decide (name = key))
  end.

(** Modelled from the spec: [Slice::byteSize] of Slice.h is not part of the
    source at hand.  For the values that [makeKey] lets through: "String(s):
    if |s| <= 126, head byte 0x40 + |s| then bytes; else head byte 0xbf,
    8-byte LE length, then bytes"; "0x28..0x2f: unsigned int, body w = head
    - 0x27 bytes"; a SmallInt is its head byte. *)
Definition keyByteSize (m : Mem) (base : Z) : Z :=
  let h := m base in
  if (0x40 <=? h) && (h <=? 0xbe) then 1 + (h - 0x40)
  else if h =? 0xbf then 1 +% 8 +% readLength m base
  else if (0x28 <=? h) && (h <=? 0x2f) then 1 + (h - 0x27)
  else 1.

(** The loop [for (size_t i = 0; i < index.size(); ++i)] of [hasKey]. *)
Fixpoint hasKeyLoop (m : Mem) (tos : Z) (key : list Z) (index : list Z) : Result bool :=
  match index with
  | [] => Ret false
  | o :: rest =>
      match keyIsEqualString m (tos +% o) key with
      | inl ex => Throw ex
      | inr true => Ret true
      | inr false => hasKeyLoop m tos key rest
      end
  end.

(** [hasKey] is [const]: it leaves the Builder as it is. *)
Definition hasKey (key : string) (b : Builder) : Result bool :=
  match last (_stack b) with
  | None => Throw BuilderNeedOpenObject
  | Some tos =>
      if negb (_start b tos =? 0x0b) && negb (_start b tos =? 0x14)
      then Throw BuilderNeedOpenObject
      else
        match topIndex b with
        | [] => Ret false
        | index => hasKeyLoop (_start b) tos (bytesOfString key) index
        end
  end.

(** The loop of [getKey]: the address behind the first key that is equal
    to [key], or nothing, for the [Slice()] returned at the end. *)
Fixpoint getKeyLoop (m : Mem) (tos : Z) (key : list Z) (index : list Z)
    : Result (option Z) :=
  match index with
  | [] => Ret None
  | o :: rest =>
      match keyIsEqualString m (tos +% o) key with
      | inl ex => Throw ex
      | inr true => Ret (Some (tos +% o +% keyByteSize m (tos +% o)))
      | inr false => getKeyLoop m tos key rest
      end
  end.

(** The [Slice] that [getKey] returns is given by the offset of its first
    byte in the buffer; [None] stands for the slice [Slice()] of type None. *)
Definition getKey (key : string) (b : Builder) : Result (option Z) :=
  match last (_stack b) with
  | None => Throw BuilderNeedOpenObject
  | Some tos =>
      if negb (_start b tos =? 0x0b) && negb (_start b tos =? 0x14)
      then Throw BuilderNeedOpenObject
      else
        match topIndex b with
        | [] => Ret None
        | index => getKeyLoop (_start b) tos (bytesOfString key) index
        end
  end.

End WithPlatform.

(** Where the string at [base] ends, [name] being its bytes. *)
Definition stringEnd (m : Mem) (base : Z) (name : list Z) : Z :=
  base + (if m base =? 0xbf then 9 else 1) + Z.of_nat (length name).

(** The keys of the compound at [tos] are strings that lie in the buffer,
    before the append position. *)
Definition stringKeysInside (b : Builder) (tos : Z) : Prop :=
  Forall (fun o => 0 <= o /\
                   exists name, stringName (_start b) (tos + o) = Some name /\
                                stringEnd (_start b) (tos + o) name <= _pos b)
         (topIndex b).

(** ** [Builder::set(ValuePair const&)] *)

(** Modelled from the spec: [ValuePair] of Value.h is not part of the
    source at hand; "a (type, pointer, size) ValuePair".  The pointer is
    null or leads to memory outside the buffer, given from the pointer
    on. *)
Record ValuePair := {
  getStart : option Mem;
  getSize : Z;
  pairType : ValueType.t
}.

(** [memcpy(_start + _pos, pair.getStart(), size); _pos += size;]  A copy
    of no byte reads nothing, whatever the pointer; with a null pointer and
    a size other than 0 [memcpy] reads through the pointer: the call does
    not return. *)
Definition appendFrom (p : option Mem) (size : Z) : M unit := fun b =>
  match p with
  | Some src =>
      (withPos (_pos b +% size)
         (withStart (memcpy (_start b) (_pos b) (readBytes src 0 (Z.to_nat size))) b), Ret tt)
  | None => if size =? 0 then (withPos (_pos b +% size) b, Ret tt) else (b, Spin)
  end.

(** The Binary case calls [reserveSpace] for none of the bytes it appends
    (lines 733-737; [set(Value)] asks for 9 + v bytes first, line 681).  The
    capacity of the buffer is not part of this development, so nothing is
    said below about the room for a Binary pair. *)
Definition setPair (pair : ValuePair) : M Z :=
  b0 ← get;
  let oldPos := _pos b0 in
  checkKeyIsString (match pairType pair with ValueType.String => true | _ => false end) ;;
  match pairType pair with
  | ValueType.Binary =>
      let v := getSize pair in
      appendUInt v 0xbf ;;
      appendFrom (getStart pair) v ;;
      mret oldPos
  | ValueType.String =>
      let size := getSize pair in
      (if 126 <? size then
         reserveSpace (1 + 8 + size) ;;
         appendByte 0xbf ;;
         appendLength size 8 ;;
         appendFrom (getStart pair) size
       else
         reserveSpace (1 + size) ;;
         appendByte (wrap8 (0x40 + size)) ;;
         appendFrom (getStart pair) size) ;;
      mret oldPos
  | ValueType.Custom =>
      let size := getSize pair in
      reserveSpace size ;;
      modify (fun b =>
        match getStart pair with
        | Some src => withStart (memcpy (_start b) (_pos b) (readBytes src 0 (Z.to_nat size))) b
        | None => b
        end) ;;
      modify (fun b => withPos (_pos b +% size) b) ;;
      b ← get;
      mret (_pos b -% size)
  | _ => throw BuilderUnexpectedType
  end.

(** ** [Builder::set(Slice const&)] and the iterators *)

(** Modelled from the spec: [Slice] of Slice.h is not part of the source at
    hand; a slice is a view of one encoded value.  It is given here by the
    bytes of that value: [byteSize()] is their number, [start()] leads to
    the first of them, and [isString()] tells from the head byte whether
    the value is a string (heads 0x40 to 0xbf). *)
Definition Slice := list Z.

Definition isString (item : Slice) : bool :=
  match item with
  | h :: _ => (0x40 <=? h) && (h <=? 0xbf)
  | [] => false
  end.

Definition setSlice (item : Slice) : M Z :=
  checkKeyIsString (isString item) ;;
  let l := Z.of_nat (length item) in
  reserveSpace l ;;
  appendBytes item ;;
  b ← get;
  mret (_pos b -% l).

(** Modelled from the spec: [add(Slice)] (the template behind it is in
    Builder.h) is not part of the source at hand; as for [add(Value)],
    "add(value) appends a value at the current position and records its
    offset into the top-frame's memberOffsets before the write". *)
Definition addSlice (item : Slice) : M Z := fun b =>
  match last (_stack b) with
  | Some tos =>
      if _keyWritten b then setSlice item b
      else setSlice item (setTopIndex (topIndex b ++ [_pos b -% tos]) b)
  | None => setSlice item b
  end.

(** Modelled from the spec: [ArrayIterator] and [ObjectIterator] of
    Iterator.h are not part of the source at hand; "their contract is
    'produces a lazy sequence of key/value or value items'".  An iterator
    is given by the items it still has to produce. *)
Definition ArrayIterator := list Slice.
Definition ObjectIterator := list (Slice * Slice).

(** [while (sub.valid()) { add(sub.value()); sub.next(); }] *)
Fixpoint addValues (sub : ArrayIterator) : M unit :=
  match sub with
  | [] => mret tt
  | value :: rest => addSlice value ;; addValues rest
  end.

(** [while (sub.valid()) { add(sub.key()); add(sub.value()); sub.next(); }] *)
Fixpoint addPairs (sub : ObjectIterator) : M unit :=
  match sub with
  | [] => mret tt
  | (key, value) :: rest => addSlice key ;; addSlice value ;; addPairs rest
  end.

(** [Builder::add(ObjectIterator&&)] *)
Definition addObjectIterator (sub : ObjectIterator) : M Z := fun b =>
  match last (_stack b) with
  | None => (b, Throw BuilderNeedOpenObject)
  | Some tos =>
      if negb (_start b tos =? 0x0b) && negb (_start b tos =? 0x14)
      then (b, Throw BuilderNeedOpenObject)
      else if _keyWritten b then (b, Throw BuilderKeyAlreadyWritten)
      else
        let oldPos := _pos b in
        (addPairs sub ;; mret oldPos) b
  end.

(** [Builder::add(ArrayIterator&&)] *)
Definition addArrayIterator (sub : ArrayIterator) : M Z := fun b =>
  match last (_stack b) with
  | None => (b, Throw BuilderNeedOpenArray)
  | Some tos =>
      if negb (_start b tos =? 0x06) && negb (_start b tos =? 0x13)
      then (b, Throw BuilderNeedOpenArray)
      else
        let oldPos := _pos b in
        (addValues sub ;; mret oldPos) b
  end.

(** Where the slices of [sub] start when they are written back to back from
    offset [start] on. *)
Fixpoint sliceOffsets (start : Z) (sub : list Slice) : list Z :=
  match sub with
  | [] => []
  | s :: rest => start :: sliceOffsets (start + Z.of_nat (length s)) rest
  end.

(** * Properties *)

Arguments wrap64 : simpl never.
Arguments wrap8 : simpl never.

(** ** Arithmetic that does not wrap *)

Lemma wrap64_small z : 0 <= z < 18446744073709551616 -> wrap64 z = z.
Proof. intros H. unfold wrap64. apply Z.mod_small. exact H. Qed.

Lemma wrap8_small z : 0 <= z < 256 -> wrap8 z = z.
Proof. intros H. unfold wrap8. apply Z.mod_small. exact H. Qed.

Lemma wrap64_range z : 0 <= wrap64 z < 18446744073709551616.
Proof. unfold wrap64. apply Z.mod_pos_bound. lia. Qed.

(** Removes every [wrap64] whose argument is seen to be in range. *)
Ltac unwrap :=
  repeat match goal with
         | |- context [wrap64 ?z] => rewrite (wrap64_small z) by lia
         end.

Ltac unwrap_in H :=
  repeat match type of H with
         | context [wrap64 ?z] => rewrite (wrap64_small z) in H by lia
         end.

(** ** [removeLast] *)

(** C10: [removeLast] with an empty nesting stack throws
    BuilderNeedOpenCompound; with an open compound that has no member it
    throws BuilderNeedSubvalue, a different exception; in both cases the
    Builder, hence its buffer and its position, is the one it was called
    on. *)
Theorem removeLast_failures (b : Builder) :
  (_stack b = [] -> removeLast b = (b, Throw BuilderNeedOpenCompound)) /\
  (_stack b <> [] -> topIndex b = [] -> removeLast b = (b, Throw BuilderNeedSubvalue)) /\
  BuilderNeedOpenCompound <> BuilderNeedSubvalue.
Proof.
  split; [| split].
  - intros Hs. unfold removeLast. rewrite Hs. reflexivity.
  - intros Hs Hi. unfold removeLast.
    destruct (last (_stack b)) as [tos |] eqn:Hl.
    + rewrite Hi. reflexivity.
    + apply last_None in Hl. contradiction.
  - discriminate.
Qed.


Lemma removeLast_failures_witness :
  removeLast (emptyBuilder defaultOptions)
    = (emptyBuilder defaultOptions, Throw BuilderNeedOpenCompound) /\
  removeLast openedArray = (openedArray, Throw BuilderNeedSubvalue).
Proof.
  split.
  - apply (removeLast_failures (emptyBuilder defaultOptions)). reflexivity.
  - apply (removeLast_failures openedArray).
    + vm_compute. discriminate.
    + reflexivity.
Defined.

(** ** [set] *)

Section SetProperties.
Context {P : Platform}.


Lemma checkKeyIsString_sameBuffer isString b b' r :
  checkKeyIsString isString b = (b', r) ->
  sameBuffer b b' /\ (r = Ret tt \/ r = Throw BuilderKeyMustBeString).
Proof.
  unfold checkKeyIsString, sameBuffer. intros H.
  destruct (last (_stack b)) as [tos |].
  - destruct ((_start b tos =? 0x0b) || (_start b tos =? 0x14)).
    + destruct (negb (_keyWritten b) && negb isString); inversion H; subst; cbn; auto 10.
    + inversion H; subst; auto 10.
  - inversion H; subst; auto 10.
Qed.

Ltac set_cases :=
  repeat match goal with
         | H : context [match ?x with _ => _ end] |- _ =>
             match type of x with
             | bool => destruct x eqn:?
             | Payload => destruct x eqn:?
             | option _ => destruct x eqn:?
             end; cbn in H
         end.

Lemma checkKeyIsString_cases isString b :
  checkKeyIsString isString b
  = if inObject b then
      if negb (_keyWritten b) && negb isString
      then (b, Throw BuilderKeyMustBeString)
      else (withKeyWritten (negb (_keyWritten b)) b, Ret tt)
    else (b, Ret tt).
Proof.
  unfold checkKeyIsString, inObject.
  destruct (last (_stack b)) as [tos |]; reflexivity.
Qed.

(** The [switch] of [set] throws without touching the Builder, and never
    BuilderKeyMustBeString. *)
Lemma set_throw_after_check (item : Value) (b b1 b' : Builder) (e : Exception) :
  checkKeyIsString (match valueType item with ValueType.String => true | _ => false end) b
  = (b1, Ret tt) ->
  set item b = (b', Throw e) -> b' = b1 /\ e <> BuilderKeyMustBeString.
Proof.
  intros Hk H. unfold set, mbind, M_bind, get in H. rewrite Hk in H.
  destruct item as [vt pl un]. cbn in H.
  destruct vt; cbn in H; set_cases;
    try discriminate H; inversion H; subst; split; try reflexivity; discriminate.
Qed.

(** C7 fails on the code.  When [set] throws, the append position, every
    byte of the buffer, the nesting stack, the member offsets and the
    options are what they were before the call, as the claim says.  But
    [checkKeyIsString] runs before the [switch] and has flipped
    [_keyWritten] by then: unless the exception is its own
    BuilderKeyMustBeString, a failed [set] inside an open object leaves the
    flag flipped.  When the failed value was due after a key, the flag says
    afterwards that no key is pending: the caller cannot go on to add the
    value, for every value that is not a String is refused with
    BuilderKeyMustBeString, and a String is accepted, as a key. *)
Theorem set_throw_flips_keyWritten (item : Value) (b b' : Builder) (e : Exception) :
  set item b = (b', Throw e) ->
  (_pos b' = _pos b /\ (forall i, _start b' i = _start b i) /\
   _stack b' = _stack b /\ _index b' = _index b /\ options b' = options b) /\
  (e = BuilderKeyMustBeString -> b' = b) /\
  (e <> BuilderKeyMustBeString ->
     b' = if inObject b then withKeyWritten (negb (_keyWritten b)) b else b) /\
  (inObject b = true -> _keyWritten b = true ->
     e <> BuilderKeyMustBeString /\ _keyWritten b' = false /\
     (forall next, valueType next <> ValueType.String ->
        set next b' = (b', Throw BuilderKeyMustBeString)) /\
     (forall s, snd (set (str s) b') = Ret (_pos b) /\
                _keyWritten (fst (set (str s) b')) = true)).
Proof.
  intros H.
  assert (Hshape : (e = BuilderKeyMustBeString /\ b' = b /\
                    inObject b = true /\ _keyWritten b = false) \/
                   (e <> BuilderKeyMustBeString /\
                    b' = if inObject b then withKeyWritten (negb (_keyWritten b)) b else b)).
  { pose proof (checkKeyIsString_cases
                  (match valueType item with ValueType.String => true | _ => false end) b) as Hk.
    destruct (inObject b) eqn:Hobj.
    - destruct (negb (_keyWritten b) &&
                negb (match valueType item with ValueType.String => true | _ => false end))
        eqn:Hneed.
      + left. unfold set, mbind, M_bind, get in H. rewrite Hk in H.
        inversion H; subst. repeat split; try reflexivity.
        destruct (_keyWritten b'); [discriminate Hneed | reflexivity].
      + right. exact (conj (proj2 (set_throw_after_check item b _ b' e Hk H))
                           (proj1 (set_throw_after_check item b _ b' e Hk H))).
    - right. exact (conj (proj2 (set_throw_after_check item b _ b' e Hk H))
                         (proj1 (set_throw_after_check item b _ b' e Hk H))). }
  split; [| split; [| split]].
  - destruct Hshape as [(_ & -> & _) | (_ & ->)]; [auto 10 |].
    destruct (inObject b); cbn; auto 10.
  - intros He. destruct Hshape as [(_ & Hb & _) | (Hne & _)]; [exact Hb | contradiction].
  - intros Hne. destruct Hshape as [(He & _) | (_ & Hb)]; [contradiction | exact Hb].
  - intros Hobj Hkey.
    destruct Hshape as [(_ & _ & _ & Hoff) | (Hne & Hb)]; [congruence |].
    rewrite Hobj, Hkey in Hb. cbn [negb] in Hb.
    assert (Hobj' : inObject b' = true).
    { rewrite Hb. exact Hobj. }
    assert (Hoff : _keyWritten b' = false) by (rewrite Hb; reflexivity).
    assert (Hp : _pos b' = _pos b) by (rewrite Hb; reflexivity).
    split; [exact Hne |]. split; [exact Hoff |]. split.
    + intros next Hnext. unfold set, mbind, M_bind, get.
      rewrite checkKeyIsString_cases, Hobj', Hoff.
      destruct (valueType next); try reflexivity. contradiction.
    + intros s. unfold set, mbind, M_bind, get, str. cbn [valueType payload].
      rewrite checkKeyIsString_cases, Hobj', Hoff. cbn [negb andb stringPayload].
      destruct (Z.of_nat (String.length s) <=? 126); cbn; rewrite Hp; auto.
Qed.

(** C6 (amended): [set] with ValueType::SmallInt and a numeric payload
    works on the [int64_t] that the casts of the source make of it (an
    Int64 as it is, a UInt64 read in two's complement, a Double through the
    conversion of the platform).  Where the key check lets the value
    through, that number [vv] is encoded as the single byte [vv + 0x30] when
    [0 <= vv <= 9] and [vv + 0x40] when [-6 <= vv < 0]; for every [vv]
    outside [-6, 9] NumberOutOfRange is thrown and neither the position nor
    the buffer has changed. *)
Theorem set_SmallInt (b b1 : Builder) (pl : Payload) (un : bool) (vv : Z) :
  numberAsInt64 castInt64 pl = Some vv ->
  checkKeyIsString false b = (b1, Ret tt) ->
  let item := {| valueType := ValueType.SmallInt; payload := pl; _unindexed := un |} in
  (0 <= vv <= 9 ->
     set item b = (withPos (_pos b +% 1)
                     (withStart (store (_start b) (_pos b) (vv + 0x30)) b1), Ret (_pos b))) /\
  (-6 <= vv < 0 ->
     set item b = (withPos (_pos b +% 1)
                     (withStart (store (_start b) (_pos b) (vv + 0x40)) b1), Ret (_pos b))) /\
  (vv < -6 \/ 9 < vv ->
     set item b = (b1, Throw NumberOutOfRange) /\ _pos b1 = _pos b /\ _start b1 = _start b).
Proof.
  intros Hvv Hk item.
  pose proof (checkKeyIsString_sameBuffer _ _ _ _ Hk) as [(Hp & Hm & _) _].
  unfold set, mbind, M_bind, get. subst item. cbn [valueType payload].
  rewrite Hk, Hvv. cbn.
  split; [| split]; intros Hr.
  - replace ((vv <? -6) || (9 <? vv)) with false by lia.
    replace (0 <=? vv) with true by lia.
    cbn. rewrite Hp, Hm, wrap8_small by lia. reflexivity.
  - replace ((vv <? -6) || (9 <? vv)) with false by lia.
    replace (0 <=? vv) with false by lia.
    cbn. rewrite Hp, Hm, wrap8_small by lia. reflexivity.
  - replace ((vv <? -6) || (9 <? vv)) with true by lia.
    cbn. auto.
Qed.

End SetProperties.


Lemma set_throw_flips_keyWritten_witness :
  set noneValue pendingKey = (withKeyWritten false pendingKey, Throw BuilderUnexpectedType) /\
  _keyWritten pendingKey = true /\
  snd (set (smallInt 1) pendingKey) = Ret 11 /\
  set (smallInt 1) (withKeyWritten false pendingKey)
  = (withKeyWritten false pendingKey, Throw BuilderKeyMustBeString) /\
  snd (set (str "b") (withKeyWritten false pendingKey)) = Ret 11 /\
  _keyWritten (fst (set (str "b") (withKeyWritten false pendingKey))) = true.
Proof.
  assert (Hthrow : set noneValue pendingKey
                   = (withKeyWritten false pendingKey, Throw BuilderUnexpectedType))
    by reflexivity.
  destruct (set_throw_flips_keyWritten noneValue pendingKey (withKeyWritten false pendingKey)
              BuilderUnexpectedType Hthrow) as (_ & _ & _ & Hafter).
  destruct (Hafter eq_refl eq_refl) as (_ & _ & Hrefused & Hkey).
  split; [exact Hthrow |].
  split; [reflexivity |].
  split; [reflexivity |].
  split; [apply Hrefused; discriminate |].
  exact (Hkey "b"%string).
Defined.

Lemma set_SmallInt_witness :
  set (smallInt 7) oneMember
    = (withPos 11 (withStart (store (_start oneMember) 10 0x37) oneMember), Ret 10) /\
  set (smallInt (-6)) oneMember
    = (withPos 11 (withStart (store (_start oneMember) 10 0x3a) oneMember), Ret 10) /\
  set (smallInt 10) oneMember = (oneMember, Throw NumberOutOfRange).
Proof.
  split; [| split].
  - apply (set_SmallInt oneMember oneMember (CInt64 7) false 7); [reflexivity | reflexivity | lia].
  - apply (set_SmallInt oneMember oneMember (CInt64 (-6)) false (-6));
      [reflexivity | reflexivity | lia].
  - apply (set_SmallInt oneMember oneMember (CInt64 10) false 10);
      [reflexivity | reflexivity | lia].
Defined.

(** C6, as stated, fails: the UInt64 payload 2^64 - 1 lies outside [-6, 9],
    yet [set] returns and appends the byte 0x3f, the encoding of -1. *)
Lemma set_SmallInt_counterexample :
  let v := 18446744073709551615 in
  let item := {| valueType := ValueType.SmallInt; payload := CUInt64 v; _unindexed := false |} in
  ~ (-6 <= v <= 9) /\
  snd (set item oneMember) = Ret 10 /\
  _start (fst (set item oneMember)) 10 = 0x3f /\
  _pos (fst (set item oneMember)) = 11.
Proof. cbv zeta. split; [lia |]. vm_compute. auto. Qed.

(** ** Reading the buffer after writes *)

Lemma store_eq m a v : store m a v a = v.
Proof. unfold store. rewrite Z.eqb_refl. reflexivity. Qed.

Lemma store_ne m a v i : i <> a -> store m a v i = m i.
Proof. intros H. unfold store. destruct (Z.eqb_spec i a); [contradiction | reflexivity]. Qed.

Lemma memmove_inside m dst src len i :
  dst <= i < dst + len -> memmove m dst src len i = m (src + (i - dst)).
Proof.
  intros H. unfold memmove.
  destruct (Z.leb_spec dst i); [| lia]. destruct (Z.ltb_spec i (dst + len)); [| lia].
  reflexivity.
Qed.

Lemma memmove_outside m dst src len i :
  i < dst \/ dst + len <= i -> memmove m dst src len i = m i.
Proof.
  intros H. unfold memmove.
  destruct (Z.leb_spec dst i); [| reflexivity].
  destruct (Z.ltb_spec i (dst + len)); [lia | reflexivity].
Qed.

Lemma storeLE_outside w : forall m a x i,
  i < a \/ a + Z.of_nat w <= i -> storeLE w m a x i = m i.
Proof.
  induction w as [| w IH]; intros m a x i H; cbn [storeLE].
  - reflexivity.
  - rewrite IH by lia. apply store_ne. lia.
Qed.

Lemma readBytes_ext n : forall m m' a,
  (forall i, a <= i < a + Z.of_nat n -> m i = m' i) -> readBytes m a n = readBytes m' a n.
Proof.
  induction n as [| n IH]; intros m m' a H; cbn [readBytes].
  - reflexivity.
  - f_equal; [apply H; lia | apply IH; intros i Hi; apply H; lia].
Qed.

Lemma readBytes_storeLE w : forall m a x, readBytes (storeLE w m a x) a w = leBytes w x.
Proof.
  induction w as [| w IH]; intros m a x; cbn [storeLE readBytes leBytes].
  - reflexivity.
  - f_equal.
    + rewrite storeLE_outside by lia. apply store_eq.
    + apply IH.
Qed.

Lemma writeTable_outside k : forall w m tableBase tab i0 i,
  0 <= w -> 0 <= i0 -> 0 <= tableBase ->
  tableBase + w * (i0 + Z.of_nat k) < 18446744073709551616 ->
  i < tableBase + w * i0 \/ tableBase + w * (i0 + Z.of_nat k) <= i ->
  writeTable k w m tableBase tab i0 i = m i.
Proof.
  induction k as [| k IH]; intros w m tableBase tab i0 i Hw Hi0 Hb Hlt Hi; cbn [writeTable].
  - reflexivity.
  - rewrite IH by nia.
    unwrap; try nia.
    apply storeLE_outside. nia.
Qed.

Lemma readBytes_length n : forall m a, length (readBytes m a n) = n.
Proof. induction n as [| n IH]; intros m a; cbn; [reflexivity | f_equal; apply IH]. Qed.

(** ** Writes on two buffers *)

Lemma store_agree (m m' : Mem) addr v a :
  (a <> addr -> m a = m' a) -> store m addr v a = store m' addr v a.
Proof.
  intros H. unfold store. destruct (Z.eqb_spec a addr) as [_ | Hne]; [reflexivity | auto].
Qed.

Lemma storeLE_agree w : forall (m m' : Mem) addr x a,
  (a < addr \/ addr + Z.of_nat w <= a -> m a = m' a) ->
  storeLE w m addr x a = storeLE w m' addr x a.
Proof.
  induction w as [| w IH]; intros m m' addr x a H; cbn [storeLE].
  - apply H. lia.
  - apply IH. intros Ha. apply store_agree. intros Hne. apply H. lia.
Qed.

Lemma writeTable_agree k : forall w (m m' : Mem) tableBase tab i0 a,
  0 <= w -> 0 <= i0 -> 0 <= tableBase ->
  tableBase + w * (i0 + Z.of_nat k) < 18446744073709551616 ->
  (a < tableBase + w * i0 \/ tableBase + w * (i0 + Z.of_nat k) <= a -> m a = m' a) ->
  writeTable k w m tableBase tab i0 a = writeTable k w m' tableBase tab i0 a.
Proof.
  induction k as [| k IH]; intros w m m' tableBase tab i0 a Hw Hi0 Hb Hlt H; cbn [writeTable].
  - apply H. lia.
  - apply IH; try nia. intros Ha.
    unwrap; try nia.
    apply storeLE_agree. intros Ha'. apply H. nia.
Qed.

Lemma memmove_agree (m m' : Mem) dst src len a :
  (dst <= a < dst + len -> m (src + (a - dst)) = m' (src + (a - dst))) ->
  (a < dst \/ dst + len <= a -> m a = m' a) ->
  memmove m dst src len a = memmove m' dst src len a.
Proof.
  intros Hin Hout. unfold memmove.
  destruct (Z.leb_spec dst a); destruct (Z.ltb_spec a (dst + len)); cbn [andb];
    first [apply Hin; lia | apply Hout; lia].
Qed.

(** ** [closeArray] on members of one length *)


Lemma memberLengths_equal L last : forall rest o,
  Forall (eq L) (memberLengths last (o :: rest)) ->
  o :: rest = map (fun i => o + Z.of_nat i * L) (seq 0 (S (length rest))) /\
  last = o + Z.of_nat (S (length rest)) * L.
Proof.
  induction rest as [| o' rest IH]; intros o H.
  - cbn in *. inversion H; subst. split; [f_equal; lia | lia].
  - cbn [memberLengths] in H. inversion H as [| ? ? Ho Hrest]; subst.
    destruct (IH o' Hrest) as [Hl He].
    split.
    + cbn [seq map length]. f_equal; [lia |].
      rewrite Hl at 1. cbn [seq map]. f_equal; [lia |].
      rewrite <- !seq_shift, !map_map. apply map_ext. intros i. lia.
    + rewrite He. cbn [length]. lia.
Qed.

Lemma sameStride_arith L o : 0 <= L -> forall m k,
  0 <= o -> o + Z.of_nat (k + m) * L < 18446744073709551616 ->
  sameStride L (map (fun i => o + Z.of_nat i * L) (seq k m)) = true.
Proof.
  intros HL. induction m as [| m IH]; intros k Ho Hb.
  - reflexivity.
  - destruct m as [| m].
    + reflexivity.
    + specialize (IH (S k) Ho).
      cbn [seq map sameStride] in *.
      unwrap; try nia.
      replace (o + Z.of_nat (S k) * L - (o + Z.of_nat k * L)) with L by lia.
      rewrite Z.eqb_refl. apply IH. nia.
Qed.

Lemma needTable_equal_lengths tos pos L index :
  0 <= tos -> tos <= pos < 18446744073709551616 -> 0 <= L ->
  index <> [] -> 0 <= hd 0 index ->
  Forall (eq L) (memberLengths (pos - tos) index) ->
  needTable tos pos index = false.
Proof.
  intros Htos Hpos HL Hne Hhd Hall.
  destruct index as [| o rest]; [contradiction |]. cbn [hd] in Hhd.
  destruct (memberLengths_equal _ _ _ _ Hall) as [Hidx Hlast].
  unfold needTable.
  destruct rest as [| o' rest]; [reflexivity |].
  set (n := S (length (o' :: rest))) in *.
  assert (Hn : length (o :: o' :: rest) = n) by reflexivity.
  assert (Hn2 : (2 <= n)%nat) by (unfold n; cbn [length]; lia).
  clearbody n. rewrite Hn.
  replace (Z.of_nat n =? 1) with false by lia.
  rewrite Hidx.
  assert (Hk : forall k, (k < n)%nat ->
            map (fun i => o + Z.of_nat i * L) (seq 0 n) !!! k = o + Z.of_nat k * L).
  { intros k Hk. apply list_lookup_total_correct. rewrite list_lookup_fmap.
    rewrite lookup_seq_lt by lia. reflexivity. }
  rewrite !Hk by lia.
  replace (o + Z.of_nat 0 * L) with o by lia.
  replace (o + Z.of_nat 1 * L) with (o + L) by lia.
  unwrap.
  replace (o + L - o) with L by lia.
  unwrap.
  replace (pos - tos - o =? Z.of_nat n * L) with true by lia.
  replace (Z.of_nat (n - 1)) with (Z.of_nat n - 1) in * by lia.
  unwrap.
  replace (pos - tos - (o + (Z.of_nat n - 1) * L) =? L) with true by lia.
  cbn [negb].
  replace (tail (map (fun i => o + Z.of_nat i * L) (seq 0 n)))
    with (map (fun i => o + Z.of_nat i * L) (seq 1 (n - 1))).
  2:{ destruct n; [lia |]. cbn. rewrite Nat.sub_0_r. reflexivity. }
  rewrite sameStride_arith; [reflexivity | lia | lia |].
  replace (1 + (n - 1))%nat with n by lia. nia.
Qed.

Lemma arrayOffsetSize_cases tos pos n t s :
  arrayOffsetSize tos pos n t s = 1 \/ arrayOffsetSize tos pos n t s = 2 \/
  arrayOffsetSize tos pos n t s = 4 \/ arrayOffsetSize tos pos n t s = 8.
Proof. unfold arrayOffsetSize. repeat case_match; auto. Qed.

(** C2 (amended): when a non-empty array whose members all have the same
    encoded length is closed by the array closer, that is, when the compact
    form was not asked for or was given up, the head byte it leaves lies in
    0x02..0x05: the equal-stride form without index table. *)
Theorem closeArray_equal_lengths (b : Builder) (tos L : Z) :
  0 <= tos -> tos + 9 <= _pos b < 18446744073709551616 -> 0 <= L ->
  topIndex b <> [] -> 0 <= hd 0 (topIndex b) ->
  Forall (eq L) (memberLengths (_pos b - tos) (topIndex b)) ->
  0x02 <= _start (closeArray tos b) tos <= 0x05.
Proof.
  intros Htos Hpos HL Hne Hhd Hall.
  assert (Hnt : needTable tos (_pos b) (topIndex b) = false).
  { apply (needTable_equal_lengths tos (_pos b) L); auto; lia. }
  unfold closeArray. cbv zeta.
  change (topIndex (withStart (store (_start b) tos 6) b)) with (topIndex b).
  change (_pos (withStart (store (_start b) tos 6) b)) with (_pos b).
  rewrite Hnt.
  set (w := arrayOffsetSize tos (_pos b) (Z.of_nat (length (topIndex b))) false false).
  destruct (arrayOffsetSize_cases tos (_pos b) (Z.of_nat (length (topIndex b))) false false)
    as [Hw | [Hw | [Hw | Hw]]]; fold w in Hw; rewrite Hw; clear w Hw; cbn.
  all: rewrite storeLE_outside by (unwrap; lia).
  all: rewrite ?store_eq.
  all: rewrite ?wrap8_small by lia; lia.
Qed.

Lemma closeArray_equal_lengths_witness :
  0x02 <= _start (closeArray 0 (threeSmallInts false)) 0 <= 0x05.
Proof.
  apply (closeArray_equal_lengths (threeSmallInts false) 0 1).
  - lia.
  - vm_compute. split; [discriminate | reflexivity].
  - lia.
  - vm_compute. discriminate.
  - vm_compute. discriminate.
  - vm_compute. repeat constructor.
Defined.

(** C2, as stated, fails: the array [1, 2, 3] opened with the unindexed hint
    has three members of one byte each, and [close] leaves the compact head
    0x13, which is not in 0x02..0x05. *)
Lemma close_equal_lengths_counterexample :
  let b := threeSmallInts true in
  Forall (eq 1) (memberLengths (_pos b - 0) (topIndex b)) /\
  snd (close 1 b) = Ret tt /\
  _start (fst (close 1 b)) 0 = 0x13 /\
  ~ (0x02 <= _start (fst (close 1 b)) 0 <= 0x05).
Proof.
  cbv zeta. split; [vm_compute; repeat constructor |].
  split; [vm_compute; reflexivity |].
  split; [vm_compute; reflexivity |].
  vm_compute. intros [_ H]. apply H. reflexivity.
Qed.

(** ** The compact form *)

(** The width of a varint, by the size of the value. *)
Lemma getVariableValueLength_cases v :
  0 <= v < 18446744073709551616 ->
  (getVariableValueLength v = 1 /\ v < 128) \/
  (getVariableValueLength v = 2 /\ 128 <= v < 128^2) \/
  (getVariableValueLength v = 3 /\ 128^2 <= v < 128^3) \/
  (getVariableValueLength v = 4 /\ 128^3 <= v < 128^4) \/
  (getVariableValueLength v = 5 /\ 128^4 <= v < 128^5) \/
  (getVariableValueLength v = 6 /\ 128^5 <= v < 128^6) \/
  (getVariableValueLength v = 7 /\ 128^6 <= v < 128^7) \/
  (getVariableValueLength v = 8 /\ 128^7 <= v < 128^8) \/
  (getVariableValueLength v = 9 /\ 128^8 <= v < 128^9) \/
  (getVariableValueLength v = 10 /\ 128^9 <= v).
Proof.
  intros Hv. unfold getVariableValueLength. cbn [varLenLoop].
  rewrite !Z.shiftr_shiftr by lia. cbn [Z.add Pos.add Pos.succ].
  rewrite !Z.shiftr_div_pow2 by lia.
  repeat match goal with
         | |- context [128 <=? ?x] => destruct (Z.leb_spec 128 x)
         end; cbn [Z.add Pos.add Pos.succ].
  all: Z.to_euclidean_division_equations; lia.
Qed.

Lemma varintLoop_length k : forall v len,
  (0 < k)%nat -> 0 <= v < 128 ^ Z.of_nat k ->
  varLenLoop k v len = len - 1 + Z.of_nat (length (varintLoop k v)).
Proof.
  induction k as [| k IH]; intros v len Hk Hv; [lia |].
  cbn [varLenLoop varintLoop].
  destruct (Z.leb_spec 128 v) as [Hge | Hlt].
  - assert (Hk' : (0 < k)%nat).
    { destruct k; [| lia]. cbn in Hv. lia. }
    rewrite IH.
    + cbn [length]. lia.
    + exact Hk'.
    + rewrite Z.shiftr_div_pow2 by lia.
      replace (128 ^ Z.of_nat (S k)) with (128 * 128 ^ Z.of_nat k) in Hv
        by (rewrite Nat2Z.inj_succ, Z.pow_succ_r by lia; reflexivity).
      split; [apply Z.div_pos; lia | apply Z.div_lt_upper_bound; lia].
  - cbn [length]. lia.
Qed.

Lemma varintBytes_length v :
  0 <= v < 18446744073709551616 ->
  Z.of_nat (length (varintBytes v)) = getVariableValueLength v.
Proof.
  intros Hv. unfold varintBytes, getVariableValueLength.
  rewrite (varintLoop_length 10 v 1); [lia | lia |].
  change (128 ^ Z.of_nat 10) with 1180591620717411303424. lia.
Qed.

Lemma storeVarLoop_forward_outside k : forall m dst v i,
  i < dst \/ dst + Z.of_nat (length (varintLoop k v)) <= i ->
  storeVarLoop k false m dst v i = m i.
Proof.
  induction k as [| k IH]; intros m dst v i Hi; cbn [storeVarLoop varintLoop] in *.
  - reflexivity.
  - destruct (128 <=? v).
    + cbn [length] in Hi. rewrite IH by lia. apply store_ne. lia.
    + cbn [length] in Hi. apply store_ne. lia.
Qed.

Lemma storeVarLoop_forward_read k : forall m dst v,
  readBytes (storeVarLoop k false m dst v) dst (length (varintLoop k v)) = varintLoop k v.
Proof.
  induction k as [| k IH]; intros m dst v; cbn [storeVarLoop varintLoop].
  - reflexivity.
  - destruct (128 <=? v); cbn [length readBytes].
    + f_equal; [| apply IH].
      rewrite storeVarLoop_forward_outside by lia. apply store_eq.
    + f_equal. apply store_eq.
Qed.

Lemma storeVarLoop_reverse_outside k : forall m dst v i,
  dst < i \/ i <= dst - Z.of_nat (length (varintLoop k v)) ->
  storeVarLoop k true m dst v i = m i.
Proof.
  induction k as [| k IH]; intros m dst v i Hi; cbn [storeVarLoop varintLoop] in *.
  - reflexivity.
  - destruct (128 <=? v).
    + cbn [length] in Hi. rewrite IH by lia. apply store_ne. lia.
    + cbn [length] in Hi. apply store_ne. lia.
Qed.

Lemma readBytes_app n1 : forall n2 m a,
  readBytes m a (n1 + n2) = readBytes m a n1 ++ readBytes m (a + Z.of_nat n1) n2.
Proof.
  induction n1 as [| n1 IH]; intros n2 m a.
  - cbn. rewrite Z.add_0_r. reflexivity.
  - cbn [readBytes Nat.add app]. f_equal. rewrite IH. f_equal. f_equal. lia.
Qed.

Lemma storeVarLoop_reverse_read k : forall m dst v,
  readBytes (storeVarLoop k true m dst v) (dst - Z.of_nat (length (varintLoop k v)) + 1)
    (length (varintLoop k v)) = rev (varintLoop k v).
Proof.
  induction k as [| k IH]; intros m dst v; cbn [storeVarLoop varintLoop].
  - reflexivity.
  - destruct (128 <=? v); cbn [length rev].
    + replace (S (length (varintLoop k (Z.shiftr v 7))))
        with (length (varintLoop k (Z.shiftr v 7)) + 1)%nat by lia.
      rewrite readBytes_app. f_equal.
      * replace (dst - Z.of_nat (length (varintLoop k (Z.shiftr v 7)) + 1) + 1)
          with (dst - 1 - Z.of_nat (length (varintLoop k (Z.shiftr v 7))) + 1) by lia.
        apply IH.
      * cbn [readBytes]. f_equal.
        rewrite storeVarLoop_reverse_outside by lia.
        replace (dst - Z.of_nat (length (varintLoop k (Z.shiftr v 7)) + 1) + 1 +
                 Z.of_nat (length (varintLoop k (Z.shiftr v 7)))) with dst by lia.
        apply store_eq.
    + replace (dst - Z.of_nat 1 + 1) with dst by lia.
      cbn [readBytes app]. f_equal. apply store_eq.
Qed.

(** The sizes computed by lines 103-113 when nothing wraps: [body] bytes of
    members, one head byte, and the two varints, the first of which is as
    wide as [bLen] says. *)
Lemma compactSizes_spec tos pos n :
  0 <= tos -> tos + 9 <= pos < 2^62 -> 0 <= n < 2^62 ->
  let '(byteSize, bLen) := compactSizes tos pos n in
  byteSize = (pos - (tos + 9)) + 1 + bLen + getVariableValueLength n /\
  getVariableValueLength byteSize = bLen /\
  1 <= bLen <= 10 /\ 1 <= getVariableValueLength n <= 9 /\
  0 <= byteSize < 2^63.
Proof.
  intros Htos Hpos Hn. unfold compactSizes.
  assert (HnLen : 1 <= getVariableValueLength n <= 9).
  { destruct (getVariableValueLength_cases n) as [H|[H|[H|[H|[H|[H|[H|[H|[H|H]]]]]]]]]; lia. }
  set (nLen := getVariableValueLength n) in *. clearbody nLen.
  unwrap.
  set (v0 := pos - (tos + 8) + nLen).
  assert (Hv0 : 0 <= v0 < 2^62 + 10) by (subst v0; lia).
  assert (Hw0 : 1 <= getVariableValueLength v0 <= 9).
  { destruct (getVariableValueLength_cases v0) as [H|[H|[H|[H|[H|[H|[H|[H|[H|H]]]]]]]]]; lia. }
  unwrap.
  destruct (Z.eqb_spec (getVariableValueLength (v0 + getVariableValueLength v0))
              (getVariableValueLength v0)) as [Heq | Hne].
  - subst v0. repeat split; lia.
  - unwrap.
    assert (getVariableValueLength (v0 + getVariableValueLength v0 + 1)
            = getVariableValueLength v0 + 1).
    { destruct (getVariableValueLength_cases v0)
        as [H|[H|[H|[H|[H|[H|[H|[H|[H|H]]]]]]]]]; [lia | destruct H as [E0 R0] ..];
        try lia; rewrite E0 in *.
      all: match goal with
           | Hne : getVariableValueLength ?v <> _ |- _ =>
               destruct (getVariableValueLength_cases v)
                 as [H|[H|[H|[H|[H|[H|[H|[H|[H|H]]]]]]]]]; [lia | destruct H as [E1 R1] ..];
               try lia
           end.
      all: match goal with
           | |- getVariableValueLength ?v = _ =>
               destruct (getVariableValueLength_cases v)
                 as [H|[H|[H|[H|[H|[H|[H|[H|[H|H]]]]]]]]]; [lia | destruct H as [E2 R2] ..];
               lia
           end. }
    subst v0. repeat split; lia.
Qed.

(** What the commit branch of [closeCompactArrayOrObject] leaves. *)
Lemma closeCompact_commit tos isArray index b :
  0 <= tos -> tos + 9 <= _pos b < 2^62 -> Z.of_nat (length index) < 2^62 ->
  let n := Z.of_nat (length index) in
  let byteSize := fst (compactSizes tos (_pos b) n) in
  let bLen := snd (compactSizes tos (_pos b) n) in
  let nLen := getVariableValueLength n in
  bLen < 9 ->
  let b' := fst (closeCompactArrayOrObject tos isArray index b) in
  snd (closeCompactArrayOrObject tos isArray index b) = true /\
  _start b' tos = (if isArray then 0x13 else 0x14) /\
  readBytes (_start b') (tos + 1) (Z.to_nat bLen) = varintBytes byteSize /\
  (forall i, 0 <= i < _pos b - (tos + 9) ->
             _start b' (tos + 1 + bLen + i) = _start b (tos + 9 + i)) /\
  readBytes (_start b') (tos + byteSize - nLen) (Z.to_nat nLen) = rev (varintBytes n) /\
  _pos b' = tos + byteSize /\
  _stack b' = removelast (_stack b).
Proof.
  intros Htos Hpos Hlen n byteSize bLen nLen HbLen b'.
  pose proof (compactSizes_spec tos (_pos b) n Htos Hpos ltac:(lia)) as Hspec.
  subst b'. unfold closeCompactArrayOrObject.
  fold n. subst byteSize bLen.
  destruct (compactSizes tos (_pos b) n) as [byteSize bLen]. cbn [fst snd] in *.
  destruct Hspec as (Hsize & Hwidth & HbR & HnR & HsR).
  fold nLen in Hsize, HnR |- *.
  replace (bLen <? 9) with true by lia. cbn [fst snd].
  assert (HlenB : Z.of_nat (length (varintBytes byteSize)) = bLen).
  { rewrite varintBytes_length; lia. }
  assert (HlenN : Z.of_nat (length (varintBytes n)) = nLen).
  { rewrite varintBytes_length; [reflexivity | lia]. }
  unwrap.
  set (m1 := store (_start b) tos (if isArray then 19 else 20)).
  set (m2 := if tos + 9 <? _pos b
             then memmove m1 (tos + (1 + bLen)) (tos + 9) (_pos b - (tos + 9)) else m1).
  assert (Hm2 : forall i, i < tos + 1 + bLen -> m2 i = m1 i).
  { intros i Hi. subst m2. destruct (tos + 9 <? _pos b); [| reflexivity].
    apply memmove_outside. lia. }
  unfold storeVariableValueLength, varintBytes in *.
  cbn [_start _pos _stack popStack withStack withPos withStart].
  split; [reflexivity |].
  split.
  { rewrite storeVarLoop_reverse_outside by lia.
    rewrite storeVarLoop_forward_outside by lia.
    rewrite Hm2 by lia. apply store_eq. }
  split.
  { replace (Z.to_nat bLen) with (length (varintLoop 10 byteSize)) by lia.
    erewrite readBytes_ext; [apply storeVarLoop_forward_read |].
    intros i Hi. apply storeVarLoop_reverse_outside. lia. }
  split.
  { intros i Hi.
    rewrite storeVarLoop_reverse_outside by lia.
    rewrite storeVarLoop_forward_outside by lia.
    subst m2. replace (tos + 9 <? _pos b) with true by lia.
    rewrite memmove_inside by lia. subst m1. rewrite store_ne by lia.
    f_equal. lia. }
  split.
  { replace (Z.to_nat nLen) with (length (varintLoop 10 n)) by lia.
    replace (tos + byteSize - nLen)
      with (tos + byteSize - 1 - Z.of_nat (length (varintLoop 10 n)) + 1) by lia.
    apply storeVarLoop_reverse_read. }
  split; [lia | reflexivity].
Qed.

Lemma closeCompact_giveUp tos isArray index b :
  9 <= snd (compactSizes tos (_pos b) (Z.of_nat (length index))) ->
  closeCompactArrayOrObject tos isArray index b = (b, false).
Proof.
  intros H. unfold closeCompactArrayOrObject.
  destruct (compactSizes tos (_pos b) (Z.of_nat (length index))) as [byteSize bLen].
  cbn [snd] in H. replace (bLen <? 9) with false by lia. reflexivity.
Qed.

Lemma store_store m a v v' : store (store m a v) a v' = store m a v'.
Proof.
  apply functional_extensionality. intros i. unfold store.
  destruct (i =? a); reflexivity.
Qed.

(** The width of a varint does not shrink when the value grows. *)
Lemma getVariableValueLength_mono v v' :
  0 <= v <= v' -> v' < 18446744073709551616 ->
  getVariableValueLength v <= getVariableValueLength v'.
Proof.
  intros Hv Hv'.
  destruct (getVariableValueLength_cases v ltac:(lia))
    as [H|[H|[H|[H|[H|[H|[H|[H|[H|H]]]]]]]]];
  destruct (getVariableValueLength_cases v' ltac:(lia))
    as [H'|[H'|[H'|[H'|[H'|[H'|[H'|[H'|[H'|H']]]]]]]]]; lia.
Qed.

(** The width [bLen] that lines 103-113 settle on is the least one that the
    byte size it leads to needs, and it is below 9 exactly when the compact
    form with an eight-byte length field stays below 2^56 bytes. *)
Lemma compactSizes_least tos pos n :
  0 <= tos -> tos + 9 <= pos < 2^62 -> 0 <= n < 2^62 ->
  let bLen := snd (compactSizes tos pos n) in
  let nLen := getVariableValueLength n in
  (forall l, 1 <= l < bLen ->
             getVariableValueLength ((pos - (tos + 9)) + 1 + l + nLen) <> l) /\
  (bLen < 9 <-> pos - tos + nLen < 2^56).
Proof.
  intros Htos Hpos Hn bLen nLen.
  pose proof (compactSizes_spec tos pos n Htos Hpos Hn) as Hspec.
  subst bLen. unfold compactSizes in *. fold nLen in Hspec |- *.
  assert (HnLen : 1 <= nLen <= 9).
  { subst nLen.
    destruct (getVariableValueLength_cases n) as [H|[H|[H|[H|[H|[H|[H|[H|[H|H]]]]]]]]]; lia. }
  clearbody nLen.
  rewrite (wrap64_small (tos + 8)) in * by lia.
  rewrite (wrap64_small (pos - (tos + 8))) in * by lia.
  rewrite (wrap64_small (pos - (tos + 8) + nLen)) in * by lia.
  set (v0 := pos - (tos + 8) + nLen) in *.
  assert (Hv0 : 0 <= v0 < 2^62 + 10) by (subst v0; lia).
  assert (Hw0 : 1 <= getVariableValueLength v0 <= 9).
  { destruct (getVariableValueLength_cases v0) as [H|[H|[H|[H|[H|[H|[H|[H|[H|H]]]]]]]]]; lia. }
  rewrite (wrap64_small (v0 + getVariableValueLength v0)) in * by lia.
  assert (Hlow : forall l, 1 <= l < getVariableValueLength v0 ->
                   getVariableValueLength (pos - (tos + 9) + 1 + l + nLen) <> l).
  { intros l Hl.
    pose proof (getVariableValueLength_mono v0 (pos - (tos + 9) + 1 + l + nLen)
                  ltac:(subst v0; lia) ltac:(lia)). lia. }
  destruct (Z.eqb_spec (getVariableValueLength (v0 + getVariableValueLength v0))
              (getVariableValueLength v0)) as [Heq | Hne]; cbn [snd].
  - split; [exact Hlow |].
    destruct Hspec as (Hsize & Hwidth & _).
    destruct (getVariableValueLength_cases v0 ltac:(lia))
      as [H|[H|[H|[H|[H|[H|[H|[H|[H|H]]]]]]]]];
    destruct (getVariableValueLength_cases (v0 + getVariableValueLength v0) ltac:(lia))
      as [H'|[H'|[H'|[H'|[H'|[H'|[H'|[H'|[H'|H']]]]]]]]]; subst v0; lia.
  - rewrite (wrap64_small (getVariableValueLength v0 + 1)) in * by lia.
    rewrite (wrap64_small (v0 + getVariableValueLength v0 + 1)) in * by lia.
    split.
    + intros l Hl. destruct (Z.eq_dec l (getVariableValueLength v0)) as [-> | Hd].
      * replace (pos - (tos + 9) + 1 + getVariableValueLength v0 + nLen)
          with (v0 + getVariableValueLength v0) by (subst v0; lia).
        exact Hne.
      * apply Hlow. lia.
    + destruct Hspec as (Hsize & Hwidth & _).
      destruct (getVariableValueLength_cases v0 ltac:(lia))
        as [H|[H|[H|[H|[H|[H|[H|[H|[H|H]]]]]]]]];
      destruct (getVariableValueLength_cases (v0 + getVariableValueLength v0) ltac:(lia))
        as [H'|[H'|[H'|[H'|[H'|[H'|[H'|[H'|[H'|H']]]]]]]]]; subst v0; lia.
Qed.

Section CloseProperties.
Context {P : Platform}.

Lemma closeIndexed_head rounds tos isArray b :
  closeIndexed rounds tos isArray b
  = closeIndexed rounds tos isArray
      (withStart (store (_start b) tos (if isArray then 0x06 else 0x0b)) b).
Proof.
  unfold closeIndexed. destruct isArray.
  - unfold closeArray. cbn [_start _pos withStart topIndex depth _index _stack].
    rewrite store_store. reflexivity.
  - cbn [_start _pos withStart]. rewrite store_store. reflexivity.
Qed.

Lemma close_unfold rounds b tos rest :
  _stack b = rest ++ [tos] -> topIndex b <> [] ->
  close rounds b =
    let head := _start b tos in
    let isArray := (head =? 0x06) || (head =? 0x13) in
    let '(b1, done) :=
      if wantsCompact head (options b) (topIndex b)
      then closeCompactArrayOrObject tos isArray (topIndex b) b
      else (b, false) in
    if done then (b1, Ret tt) else closeIndexed rounds tos isArray b1.
Proof.
  intros Hs Hi. unfold close. rewrite Hs, last_snoc.
  destruct (topIndex b); [contradiction | reflexivity].
Qed.

(** C4: when [close] tries the compact form of a non-empty array or object,
    the attempt commits exactly when the reconciled width [bLen] of the
    varint byte length is below 9.  The byte size [byteSize] that the
    attempt works with counts the members, the head byte and the two
    varints; [bLen] is the width of the varint of [byteSize] and the least
    width for which this is so; and [bLen] is below 9 exactly when the
    compact form stays below 2^56 bytes.  On commit the head is 0x13 or
    0x14, the varint of the byte length sits at [tos + 1], the members have
    moved to [tos + 1 + bLen], the varint of the member count ends at the
    last byte, written backwards, and the frame is popped.  Otherwise
    [close] goes on with the indexed closer, which acts as if the head had
    been 0x06 or 0x0b. *)
Theorem close_compact_attempt (rounds : nat) (b : Builder) (tos : Z) (rest : list Z) :
  _stack b = rest ++ [tos] -> topIndex b <> [] ->
  0 <= tos -> tos + 9 <= _pos b < 2^62 -> Z.of_nat (length (topIndex b)) < 2^62 ->
  let head := _start b tos in
  let isArray := (head =? 0x06) || (head =? 0x13) in
  let n := Z.of_nat (length (topIndex b)) in
  let byteSize := fst (compactSizes tos (_pos b) n) in
  let bLen := snd (compactSizes tos (_pos b) n) in
  let nLen := getVariableValueLength n in
  wantsCompact head (options b) (topIndex b) = true ->
  (byteSize = (_pos b - (tos + 9)) + 1 + bLen + nLen /\
   getVariableValueLength byteSize = bLen /\
   (forall l, 1 <= l < bLen ->
              getVariableValueLength ((_pos b - (tos + 9)) + 1 + l + nLen) <> l) /\
   (bLen < 9 <-> _pos b - tos + nLen < 2^56)) /\
  snd (closeCompactArrayOrObject tos isArray (topIndex b) b) = (bLen <? 9) /\
  (bLen < 9 ->
     exists b', close rounds b = (b', Ret tt) /\
       _start b' tos = (if isArray then 0x13 else 0x14) /\
       readBytes (_start b') (tos + 1) (Z.to_nat bLen) = varintBytes byteSize /\
       (forall i, 0 <= i < _pos b - (tos + 9) ->
                  _start b' (tos + 1 + bLen + i) = _start b (tos + 9 + i)) /\
       readBytes (_start b') (tos + byteSize - nLen) (Z.to_nat nLen) = rev (varintBytes n) /\
       _pos b' = tos + byteSize /\
       _stack b' = rest) /\
  (9 <= bLen ->
     close rounds b = closeIndexed rounds tos isArray b /\
     closeIndexed rounds tos isArray b
     = closeIndexed rounds tos isArray
         (withStart (store (_start b) tos (if isArray then 0x06 else 0x0b)) b)).
Proof.
  intros Hs Hi Htos Hpos Hlen head isArray n byteSize bLen nLen Hwant.
  rewrite (close_unfold rounds b tos rest Hs Hi). cbv zeta.
  fold head isArray. rewrite Hwant.
  split; [| split; [| split]].
  - pose proof (compactSizes_spec tos (_pos b) n Htos Hpos ltac:(lia)) as Hspec.
    pose proof (compactSizes_least tos (_pos b) n Htos Hpos ltac:(lia)) as [Hleast Hiff].
    subst byteSize bLen nLen.
    destruct (compactSizes tos (_pos b) n) as [bs bl]. cbn [fst snd] in *.
    destruct Hspec as (Hsize & Hwidth & _).
    split; [exact Hsize | split; [exact Hwidth | split; [exact Hleast | exact Hiff]]].
  - unfold closeCompactArrayOrObject. fold n. subst bLen.
    destruct (compactSizes tos (_pos b) n) as [bs bl]. cbn [snd].
    destruct (bl <? 9); reflexivity.
  - intros Hfit.
    destruct (closeCompact_commit tos isArray (topIndex b) b Htos Hpos Hlen Hfit)
      as (Hdone & Hhead & Hlenb & Hbody & Hcount & Hp & Hst).
    destruct (closeCompactArrayOrObject tos isArray (topIndex b) b) as [b1 done].
    cbn [fst snd] in *. subst done.
    exists b1. repeat split; auto.
    rewrite Hst, Hs. apply removelast_last.
  - intros Hbig. rewrite closeCompact_giveUp by exact Hbig.
    split; [reflexivity | apply closeIndexed_head].
Qed.

(** C9: an object opened in indexed form (head 0x0b) that holds one
    key/value pair when [close] is called is closed in compact form
    whenever the width [bLen] of its byte length is below 9, which is so
    exactly when the object stays below 2^56 bytes, whatever the option
    buildUnindexedObjects says.  The closed object has the head 0x14, the
    varint of its byte length at [tos + 1], the pair behind it, moved down
    from [tos + 9], and the member count 1 in its last byte; [_pos] is the
    end of the object and the frame is popped.  The indexed closer with its
    cuckoo table runs only when the compact attempt gives up. *)
Theorem close_single_member_object (rounds : nat) (b : Builder) (tos o : Z) (rest : list Z) :
  _stack b = rest ++ [tos] -> _start b tos = 0x0b -> topIndex b = [o] ->
  0 <= tos -> tos + 9 <= _pos b < 2^62 ->
  let byteSize := fst (compactSizes tos (_pos b) 1) in
  let bLen := snd (compactSizes tos (_pos b) 1) in
  wantsCompact (_start b tos) (options b) (topIndex b) = true /\
  byteSize = (_pos b - (tos + 9)) + 1 + bLen + 1 /\
  getVariableValueLength byteSize = bLen /\
  (bLen < 9 <-> _pos b - tos + 1 < 2^56) /\
  (bLen < 9 ->
     exists b', close rounds b = (b', Ret tt) /\
       _start b' tos = 0x14 /\
       readBytes (_start b') (tos + 1) (Z.to_nat bLen) = varintBytes byteSize /\
       (forall i, 0 <= i < _pos b - (tos + 9) ->
                  _start b' (tos + 1 + bLen + i) = _start b (tos + 9 + i)) /\
       _start b' (tos + byteSize - 1) = 1 /\
       _pos b' = tos + byteSize /\
       _stack b' = rest /\
       _index b' = _index b) /\
  (9 <= bLen -> close rounds b = closeIndexed rounds tos false b).
Proof.
  intros Hs Hhead Hi Htos Hpos byteSize bLen.
  assert (Hne : topIndex b <> []) by (rewrite Hi; discriminate).
  assert (Hwant : wantsCompact (_start b tos) (options b) (topIndex b) = true).
  { rewrite Hhead, Hi. unfold wantsCompact. cbn. rewrite orb_true_r. reflexivity. }
  split; [exact Hwant |].
  pose proof (compactSizes_spec tos (_pos b) 1 Htos Hpos ltac:(lia)) as Hspec.
  pose proof (compactSizes_least tos (_pos b) 1 Htos Hpos ltac:(lia)) as [_ Hiff].
  change (getVariableValueLength 1) with 1 in Hspec, Hiff.
  fold bLen in Hiff.
  assert (Hsize : byteSize = _pos b - (tos + 9) + 1 + bLen + 1 /\
                  getVariableValueLength byteSize = bLen).
  { subst byteSize bLen. destruct (compactSizes tos (_pos b) 1) as [bs bl].
    cbn [fst snd]. destruct Hspec as (H1 & H2 & _). split; assumption. }
  destruct Hsize as [Hsize Hwidth].
  split; [exact Hsize |]. split; [exact Hwidth |]. split; [exact Hiff |].
  rewrite (close_unfold rounds b tos rest Hs Hne). cbv zeta.
  rewrite Hwant. rewrite Hhead, Hi.
  change ((11 =? 6) || (11 =? 19)) with false.
  split.
  - intros Hfit.
    destruct (closeCompact_commit tos false [o] b Htos Hpos ltac:(cbn; lia) Hfit)
      as (Hdone & Hh & Hlenb & Hbody & Hcount & Hp & Hst).
    assert (Hix : _index (fst (closeCompactArrayOrObject tos false [o] b)) = _index b).
    { unfold closeCompactArrayOrObject.
      destruct (compactSizes tos (_pos b) (Z.of_nat (length [o]))) as [bs bl].
      destruct (bl <? 9); reflexivity. }
    destruct (closeCompactArrayOrObject tos false [o] b) as [b1 done].
    cbn [fst snd length] in *. subst done.
    change (Z.of_nat 1) with 1 in *. change (getVariableValueLength 1) with 1 in *.
    fold byteSize bLen in Hlenb, Hbody, Hcount, Hp.
    exists b1. split; [reflexivity |]. split; [exact Hh |]. split; [exact Hlenb |].
    split; [exact Hbody |]. split.
    { change (Z.to_nat 1) with 1%nat in Hcount. cbn [readBytes] in Hcount.
      change (rev (varintBytes 1)) with [1] in Hcount. congruence. }
    split; [exact Hp |]. split; [| exact Hix].
    rewrite Hst, Hs. apply removelast_last.
  - intros Hbig. rewrite closeCompact_giveUp by exact Hbig. reflexivity.
Qed.

End CloseProperties.

Lemma close_compact_attempt_witness :
  ((fst (compactSizes 0 (_pos (threeSmallInts true)) 3) = (12 - 9) + 1 + 1 + 1 /\
    snd (compactSizes 0 (_pos (threeSmallInts true)) 3) = 1) /\
   snd (closeCompactArrayOrObject 0 true (topIndex (threeSmallInts true)) (threeSmallInts true))
     = true /\
   exists b', close 1 (threeSmallInts true) = (b', Ret tt) /\
              _start b' 0 = 0x13 /\ readBytes (_start b') 1 1 = [6] /\
              readBytes (_start b') 2 3 = [0x31; 0x32; 0x33] /\
              readBytes (_start b') 5 1 = [3] /\ _pos b' = 6 /\ _stack b' = []) /\
  (snd (compactSizes 0 (_pos giantArray) 1) = 9 /\
   ~ (_pos giantArray - 0 + 1 < 2^56) /\
   close 1 giantArray = closeIndexed 1 0 true giantArray /\
   _start (fst (close 1 giantArray)) 0 = 0x05).
Proof.
  split.
  - destruct (close_compact_attempt 1 (threeSmallInts true) 0 [])
      as ((Hsize & Hwidth & _ & _) & Hiff & Hcommit & _).
    + reflexivity.
    + vm_compute. discriminate.
    + lia.
    + vm_compute. split; [discriminate | reflexivity].
    + vm_compute. reflexivity.
    + reflexivity.
    + split; [split; [exact Hsize | vm_compute; reflexivity] |].
      split; [exact Hiff |].
      destruct Hcommit as (b' & Hc & Hh & Hl & Hbody & Hn & Hp & Hs).
      * vm_compute. reflexivity.
      * exists b'. split; [exact Hc |]. split; [exact Hh |]. split; [exact Hl |].
        split; [| split; [exact Hn | split; [exact Hp | exact Hs]]].
        pose proof (Hbody 0 ltac:(vm_compute; split; [discriminate | reflexivity])) as H0.
        pose proof (Hbody 1 ltac:(vm_compute; split; [discriminate | reflexivity])) as H1.
        pose proof (Hbody 2 ltac:(vm_compute; split; [discriminate | reflexivity])) as H2.
        change (_start b' 2 = 0x31) in H0. change (_start b' 3 = 0x32) in H1.
        change (_start b' 4 = 0x33) in H2.
        change (readBytes (_start b') 2 3) with [_start b' 2; _start b' 3; _start b' 4].
        rewrite H0, H1, H2. reflexivity.
  - destruct (close_compact_attempt 1 giantArray 0 []) as ((_ & _ & _ & Hiff) & _ & _ & Hfallback).
    + reflexivity.
    + discriminate.
    + lia.
    + vm_compute. split; [discriminate | reflexivity].
    + vm_compute. reflexivity.
    + reflexivity.
    + split; [vm_compute; reflexivity |].
      split.
      { intros Hsmall. apply Hiff in Hsmall. vm_compute in Hsmall. discriminate Hsmall. }
      destruct Hfallback as [Hclose _]; [vm_compute; discriminate |].
      split; [exact Hclose |]. vm_compute. reflexivity.
Defined.

Lemma close_single_member_object_witness :
  exists b', close 1 singleMemberObject = (b', Ret tt) /\
             readBytes (_start b') 0 6 = [0x14; 6; 0x41; 0x61; 0x31; 1] /\
             _pos b' = 6 /\ _stack b' = [].
Proof.
  destruct (close_single_member_object 1 singleMemberObject 0 9 [])
    as (_ & Hsize & _ & _ & Hcommit & _).
  - reflexivity.
  - reflexivity.
  - reflexivity.
  - lia.
  - vm_compute. split; [discriminate | reflexivity].
  - destruct Hcommit as (b' & Hc & Hh & Hl & Hbody & Hn & Hp & Hs & _).
    + vm_compute. reflexivity.
    + exists b'. split; [exact Hc |].
      split; [| split; [exact Hp | exact Hs]].
      pose proof (Hbody 0 ltac:(vm_compute; split; [discriminate | reflexivity])) as H0.
      pose proof (Hbody 1 ltac:(vm_compute; split; [discriminate | reflexivity])) as H1.
      pose proof (Hbody 2 ltac:(vm_compute; split; [discriminate | reflexivity])) as H2.
      change (_start b' 2 = 0x41) in H0. change (_start b' 3 = 0x61) in H1.
      change (_start b' 4 = 0x31) in H2. change ([_start b' 1] = [6]) in Hl.
      change (_start b' 0 = 0x14) in Hh. change (_start b' 5 = 1) in Hn.
      change (readBytes (_start b') 0 6)
        with [_start b' 0; _start b' 1; _start b' 2; _start b' 3; _start b' 4; _start b' 5].
      injection Hl as Hl. rewrite Hh, Hl, H0, H1, H2, Hn. reflexivity.
Defined.

(** ** The fields of an indexed object *)

Lemma readBytes_store_outside n m a v p :
  a < p \/ p + Z.of_nat n <= a -> readBytes (store m a v) p n = readBytes m p n.
Proof. intros H. apply readBytes_ext. intros i Hi. apply store_ne. lia. Qed.

Lemma readBytes_storeLE_outside n w m a x p :
  a + Z.of_nat w <= p \/ p + Z.of_nat n <= a ->
  readBytes (storeLE w m a x) p n = readBytes m p n.
Proof. intros H. apply readBytes_ext. intros i Hi. apply storeLE_outside. lia. Qed.

Ltac peel :=
  repeat first
    [ rewrite readBytes_store_outside by lia
    | rewrite readBytes_storeLE_outside by lia
    | rewrite store_ne by lia
    | rewrite storeLE_outside by lia
    | rewrite writeTable_outside by lia ].

Lemma objectOffsetSize_cases tos pos nrSlots :
  objectOffsetSize tos pos nrSlots = 1 \/ objectOffsetSize tos pos nrSlots = 2 \/
  objectOffsetSize tos pos nrSlots = 4 \/ objectOffsetSize tos pos nrSlots = 8.
Proof. unfold objectOffsetSize. repeat case_match; auto. Qed.

(** Where the object closer puts its fields, for each of the four widths.
    The head of the compound is at offset 0 or past offset 7, so that the
    byte written through [_start[base + offsetSize]] does not fall on
    them. *)
Lemma closeIndexedObject_fields (b : Builder) (tos : Z) (ht : list Z) (seed nrSlots : Z) :
  tos = 0 \/ 8 <= tos -> tos + 9 <= _pos b < 2^62 -> 0 <= nrSlots < 2^58 ->
  _start b tos = 0x0b ->
  let w := objectOffsetSize tos (_pos b) nrSlots in
  let n := Z.of_nat (length (topIndex b)) in
  let b' := closeIndexedObject tos ht seed nrSlots b in
  let m' := _start b' in
  let total := _pos b' - tos in
  readBytes m' (tos + 1) (Z.to_nat w) = leBytes (Z.to_nat w) total /\
  (w = 1 -> m' tos = 0x0b /\ readBytes m' (tos + 2) 1 = leBytes 1 n /\
            readBytes m' (tos + 3) 1 = leBytes 1 nrSlots /\
            total = _pos b - 4 + nrSlots - tos) /\
  (w = 2 -> m' tos = 0x0c /\ readBytes m' (tos + 3) 2 = leBytes 2 n /\
            readBytes m' (tos + 5) 2 = leBytes 2 nrSlots /\
            total = _pos b + 2 * nrSlots - tos) /\
  (w = 4 -> m' tos = 0x0d /\ readBytes m' (tos + 5) 4 = leBytes 4 n /\
            readBytes m' (_pos b + 4 * nrSlots) 4 = leBytes 4 nrSlots /\
            readBytes m' (_pos b + 4 * nrSlots + 4) 1 = leBytes 1 seed /\
            total = _pos b + 4 * nrSlots + 5 - tos) /\
  (w = 8 -> m' tos = 0x0e /\
            readBytes m' (_pos b + 8 * nrSlots) 8 = leBytes 8 n /\
            readBytes m' (_pos b + 8 * nrSlots + 8) 8 = leBytes 8 nrSlots /\
            readBytes m' (_pos b + 8 * nrSlots + 16) 1 = leBytes 1 seed /\
            total = _pos b + 8 * nrSlots + 17 - tos).
Proof.
  intros Htos Hpos Hslots Hhead w n b' m' total.
  subst total m' b'. unfold closeIndexedObject. fold n w.
  destruct (objectOffsetSize_cases tos (_pos b) nrSlots) as [Hw | [Hw | [Hw | Hw]]];
    fold w in Hw; rewrite Hw; clear w Hw.
  all: cbn -[Z.mul Z.add Z.sub Z.to_nat readBytes leBytes storeLE writeTable].
  all: change (Z.to_nat 1) with 1%nat; change (Z.to_nat 2) with 2%nat;
       change (Z.to_nat 4) with 4%nat; change (Z.to_nat 8) with 8%nat.
  all: unwrap.
  all: change (1 + 1) with 2; change (2 + 1) with 3; change (4 + 1) with 5;
       change (3 + 1) with 4; change (5 + 2) with 7.
  all: repeat match goal with
              | |- _ /\ _ => split
              | |- ?a = ?c -> _ => first [intros Hf; discriminate Hf | intros _]
              end.
  all: try lia.
  all: peel.
  all: try apply readBytes_storeLE.
  all: try (destruct (tos + 9 <? _pos b); [rewrite memmove_outside by lia |]; exact Hhead).
  all: try apply store_eq.
  change (Z.of_nat 8) with 8.
  replace (_pos b + 8 * nrSlots + 8 + 8) with (_pos b + 8 * nrSlots + 16) by lia.
  apply readBytes_storeLE.
Qed.

(** The byte written by [_start[base + offsetSize] = seed] of line 404 goes
    to offset 4 or 7 of the buffer; the byte at that offset of the compound
    is left as it was whenever the compound does not start at 0. *)
Lemma closeIndexedObject_seed_address (b : Builder) (tos : Z) (ht : list Z) (seed nrSlots : Z) :
  8 <= tos -> tos + 9 <= _pos b < 2^62 -> 0 <= nrSlots < 2^58 ->
  let w := objectOffsetSize tos (_pos b) nrSlots in
  let b' := closeIndexedObject tos ht seed nrSlots b in
  w = 1 \/ w = 2 ->
  _start b' (3 * w + 1) = seed /\
  _start b' (tos + (3 * w + 1)) = _start b (tos + (3 * w + 1)).
Proof.
  intros Htos Hpos Hslots w b' Hw. subst b'. unfold closeIndexedObject. fold w.
  destruct Hw as [Hw | Hw]; rewrite Hw; clear w Hw.
  all: cbn -[Z.mul Z.add Z.sub Z.to_nat readBytes leBytes storeLE writeTable].
  all: change (Z.to_nat 1) with 1%nat; change (Z.to_nat 2) with 2%nat.
  all: unwrap.
  all: change (3 * 1 + 1) with 4; change (3 * 2 + 1) with 7;
       change (3 + 1) with 4; change (5 + 2) with 7.
  all: split; [apply store_eq |].
  all: peel.
  - destruct (tos + 9 <? _pos b); [rewrite memmove_outside by lia |]; reflexivity.
  - reflexivity.
Qed.

Section IndexedObject.
Context {P : Platform}.

(** C1 (amended): an object closed in indexed form, with its head at offset
    0 or past offset 7 of the buffer, has its fields laid out by the chosen
    width [w] as follows.  The byte length takes [w] bytes at [tos + 1] for
    every width.  For [w = 1] the head is 0x0b and the count and the slot
    count follow at [tos + 2] and [tos + 3]; for [w = 2] the head is 0x0c and
    they take two bytes each at [tos + 3] and [tos + 5]; for [w = 4] the
    head is 0x0d, the count takes four bytes at [tos + 5], and the slot
    count (four bytes) and the seed (one byte) trail after the hash table;
    for [w = 8] the head is 0x0e and the count, the slot count (eight bytes
    each) and the seed trail after the hash table.  (Where the seed goes for
    [w = 1] and [w = 2] is not part of the statement.) *)
Theorem closeIndexed_object_layout (rounds : nat) (b : Builder) (tos : Z)
    (ht : list Z) (seed nrSlots : Z) :
  tos = 0 \/ 8 <= tos -> tos + 9 <= _pos b < 2^62 ->
  computeCuckooHash rounds (withStart (store (_start b) tos 0x0b) b) = Ret (ht, seed, nrSlots) ->
  0 <= nrSlots < 2^58 ->
  let w := objectOffsetSize tos (_pos b) nrSlots in
  let n := Z.of_nat (length (topIndex b)) in
  exists b', closeIndexed rounds tos false b = (b', Ret tt) /\
    let m' := _start b' in
    let total := _pos b' - tos in
    readBytes m' (tos + 1) (Z.to_nat w) = leBytes (Z.to_nat w) total /\
    (w = 1 -> m' tos = 0x0b /\ readBytes m' (tos + 2) 1 = leBytes 1 n /\
              readBytes m' (tos + 3) 1 = leBytes 1 nrSlots /\
              total = _pos b - 4 + nrSlots - tos) /\
    (w = 2 -> m' tos = 0x0c /\ readBytes m' (tos + 3) 2 = leBytes 2 n /\
              readBytes m' (tos + 5) 2 = leBytes 2 nrSlots /\
              total = _pos b + 2 * nrSlots - tos) /\
    (w = 4 -> m' tos = 0x0d /\ readBytes m' (tos + 5) 4 = leBytes 4 n /\
              readBytes m' (_pos b + 4 * nrSlots) 4 = leBytes 4 nrSlots /\
              readBytes m' (_pos b + 4 * nrSlots + 4) 1 = leBytes 1 seed /\
              total = _pos b + 4 * nrSlots + 5 - tos) /\
    (w = 8 -> m' tos = 0x0e /\
              readBytes m' (_pos b + 8 * nrSlots) 8 = leBytes 8 n /\
              readBytes m' (_pos b + 8 * nrSlots + 8) 8 = leBytes 8 nrSlots /\
              readBytes m' (_pos b + 8 * nrSlots + 16) 1 = leBytes 1 seed /\
              total = _pos b + 8 * nrSlots + 17 - tos).
Proof.
  intros Htos Hpos Hcuckoo Hslots w n.
  unfold closeIndexed. rewrite Hcuckoo.
  eexists. split; [reflexivity |].
  apply (closeIndexedObject_fields (withStart (store (_start b) tos 0x0b) b) tos ht seed nrSlots
           Htos Hpos Hslots).
  cbn [_start withStart]. apply store_eq.
Qed.

End IndexedObject.

Lemma closeIndexed_object_layout_witness :
  exists b', closeIndexed 1 0 false twoMemberObject = (b', Ret tt) /\
             _start b' 0 = 0x0b /\ readBytes (_start b') 1 3 = [14; 2; 3] /\ _pos b' = 14.
Proof.
  destruct (closeIndexed_object_layout 1 twoMemberObject 0 [0; 9; 12] 0 3)
    as (b' & Hc & Hlen & H1 & _).
  - left. reflexivity.
  - vm_compute. split; [discriminate | reflexivity].
  - vm_compute. reflexivity.
  - lia.
  - destruct H1 as (Hh & Hn & Hs & Ht); [reflexivity |].
    exists b'. split; [exact Hc |]. split; [exact Hh |].
    cbv zeta in Hlen. rewrite Ht in Hlen.
    change (readBytes (_start b') 1 1 = [14]) in Hlen.
    change (readBytes (_start b') 2 1 = [2]) in Hn.
    change (readBytes (_start b') 3 1 = [3]) in Hs.
    split.
    + change (readBytes (_start b') 1 3)
        with (readBytes (_start b') 1 1 ++ readBytes (_start b') 2 1 ++ readBytes (_start b') 3 1).
      rewrite Hlen, Hn, Hs. reflexivity.
    + change (_pos b' - 0 = 14) in Ht. lia.
Defined.

(** C1, as stated, fails: closing [bigObject] picks the width 4 (head
    0x0d); its first member follows the nine head bytes at offset 9, the
    hash table of three slots occupies 72031..72042, and the slot count and
    the seed come after it, at 72043..72047, although the width is not 8. *)
Lemma close_layout_counterexample :
  let b' := fst (close 1 bigObject) in
  snd (close 1 bigObject) = Ret tt /\
  _start b' 0 = 0x0d /\
  readBytes (_start b') 1 8 = leBytes 4 72048 ++ leBytes 4 2 /\
  readBytes (_start b') 9 2 = [0x41; 0x61] /\
  readBytes (_start b') 72031 12 = leBytes 4 0 ++ leBytes 4 9 ++ leBytes 4 32020 /\
  readBytes (_start b') 72043 5 = leBytes 4 3 ++ [0] /\
  _pos b' = 72048.
Proof. vm_compute. repeat split; reflexivity. Qed.

(** ** The offset width *)

Lemma closeArray_final_length (b : Builder) (tos : Z) :
  0 <= tos -> tos + 9 <= _pos b < 2^62 -> Z.of_nat (length (topIndex b)) < 2^58 ->
  let n := Z.of_nat (length (topIndex b)) in
  let t := needTable tos (_pos b) (topIndex b) in
  let w := arrayOffsetSize tos (_pos b) n t t in
  _pos (closeArray tos b) - tos = arrayFinalLength w (_pos b - tos) n t.
Proof.
  intros Htos Hpos Hn n t w. unfold closeArray. cbv zeta.
  change (topIndex (withStart (store (_start b) tos 6) b)) with (topIndex b).
  change (_pos (withStart (store (_start b) tos 6) b)) with (_pos b).
  fold n t. fold w.
  destruct (arrayOffsetSize_cases tos (_pos b) n t t) as [Hw | [Hw | [Hw | Hw]]];
    fold w in Hw; rewrite Hw; clear w Hw; unfold arrayFinalLength.
  all: destruct t; cbn -[Z.mul Z.add Z.sub Z.to_nat storeLE writeTable]; unwrap; lia.
Qed.

(** The width chosen for an array is the least one in which the length of
    the closed array fits. *)
Lemma arrayOffsetSize_least (tos pos n : Z) (t : bool) :
  0 <= tos -> tos + 9 <= pos < 2^62 -> 0 <= n < 2^58 ->
  let w := arrayOffsetSize tos pos n t t in
  (w < 8 -> arrayFinalLength w (pos - tos) n t < 2 ^ (8 * w)) /\
  (forall w', (w' = 1 \/ w' = 2 \/ w' = 4) -> w' < w ->
              2 ^ (8 * w') <= arrayFinalLength w' (pos - tos) n t).
Proof.
  intros Htos Hpos Hn w. subst w. unfold arrayOffsetSize, arrayFinalLength.
  destruct t; unwrap.
  all: repeat match goal with
              | |- context [?x <=? ?y] => destruct (Z.leb_spec x y)
              end.
  all: split; [intros Hw; cbn; lia |].
  all: intros w' [-> | [-> | ->]] Hlt; cbn; lia.
Qed.

Lemma closeIndexedObject_final_length (b : Builder) (tos : Z) (ht : list Z) (seed nrSlots : Z) :
  0 <= tos -> tos + 9 <= _pos b < 2^62 -> 0 <= nrSlots < 2^58 ->
  let w := objectOffsetSize tos (_pos b) nrSlots in
  _pos (closeIndexedObject tos ht seed nrSlots b) - tos
  = objectFinalLength w (_pos b - tos) nrSlots.
Proof.
  intros Htos Hpos Hslots w. unfold closeIndexedObject. fold w.
  destruct (objectOffsetSize_cases tos (_pos b) nrSlots) as [Hw | [Hw | [Hw | Hw]]];
    fold w in Hw; rewrite Hw; clear w Hw; unfold objectFinalLength.
  all: cbn -[Z.mul Z.add Z.sub Z.to_nat storeLE writeTable]; unwrap; lia.
Qed.

(** The width chosen for an object is the least one whose test passes; for
    the widths 1 and 2 the test is that the closed object fits, for the
    width 4 it allows five bytes more than fit. *)
Lemma objectOffsetSize_least (tos pos nrSlots : Z) :
  0 <= tos -> tos + 9 <= pos < 2^62 -> 0 <= nrSlots < 2^58 ->
  let w := objectOffsetSize tos pos nrSlots in
  (w = 1 \/ w = 2 -> objectFinalLength w (pos - tos) nrSlots < 2 ^ (8 * w)) /\
  (w = 4 -> objectFinalLength w (pos - tos) nrSlots < 2 ^ (8 * w) + 5) /\
  (forall w', (w' = 1 \/ w' = 2 \/ w' = 4) -> w' < w ->
              2 ^ (8 * w') <= objectFinalLength w' (pos - tos) nrSlots).
Proof.
  intros Htos Hpos Hslots w. subst w. unfold objectOffsetSize, objectFinalLength.
  unwrap.
  repeat match goal with
         | |- context [?x <=? ?y] => destruct (Z.leb_spec x y)
         end.
  all: split; [intros [Hw | Hw]; cbn; lia |].
  all: split; [intros Hw; cbn; lia |].
  all: intros w' [-> | [-> | ->]] Hlt; cbn; lia.
Qed.

(** C3 fails on the code for objects of width 4: the test of line 325 leaves
    out the five bytes that [appendLength(nrSlots, 4)] and
    [appendLength(seed, 1)] add behind the table.  When [_pos - tos + 4 *
    nrSlots] lies in the last five values below 2^32, the width 4 is chosen
    although the closed object is longer than 4 bytes can tell, and the
    byte-length field keeps only the low 32 bits. *)
Theorem closeIndexedObject_width4_overflow (b : Builder) (tos : Z) (ht : list Z)
    (seed nrSlots : Z) :
  tos = 0 \/ 8 <= tos -> tos + 9 <= _pos b < 2^62 -> 0 <= nrSlots < 2^58 ->
  _start b tos = 0x0b ->
  4294967296 - 5 <= _pos b - tos + 4 * nrSlots <= 0xffffffff ->
  65535 < _pos b - tos + 2 * nrSlots ->
  let b' := closeIndexedObject tos ht seed nrSlots b in
  objectOffsetSize tos (_pos b) nrSlots = 4 /\
  _start b' tos = 0x0d /\
  4294967296 <= _pos b' - tos /\
  readBytes (_start b') (tos + 1) 4 = leBytes 4 (_pos b' - tos).
Proof.
  intros Htos Hpos Hslots Hhead Hedge Hw2 b'.
  assert (Hw : objectOffsetSize tos (_pos b) nrSlots = 4).
  { unfold objectOffsetSize. unwrap.
    replace (_pos b - tos + nrSlots - 4 <=? 255) with false by lia.
    replace (_pos b - tos + 2 * nrSlots <=? 65535) with false by lia.
    replace (_pos b - tos + 4 * nrSlots <=? 4294967295) with true by lia.
    reflexivity. }
  destruct (closeIndexedObject_fields b tos ht seed nrSlots Htos Hpos Hslots Hhead)
    as (Hlen & _ & _ & H4 & _).
  rewrite Hw in Hlen, H4. destruct (H4 eq_refl) as (Hh & _ & _ & _ & Ht).
  subst b'. cbv zeta in Ht.
  split; [exact Hw | split; [exact Hh | split; [lia | exact Hlen]]].
Qed.

Lemma closeIndexedObject_width4_overflow_witness :
  let b' := closeIndexedObject 0 [0; 9; 2147483648] 0 3 hugeObject in
  objectOffsetSize 0 (_pos hugeObject) 3 = 4 /\
  _start b' 0 = 0x0d /\
  _pos b' - 0 = 4294967300 /\
  readBytes (_start b') 1 4 = [4; 0; 0; 0].
Proof.
  destruct (closeIndexedObject_width4_overflow hugeObject 0 [0; 9; 2147483648] 0 3)
    as (Hw & Hh & _ & Hlen).
  - left. reflexivity.
  - cbn. lia.
  - lia.
  - reflexivity.
  - cbn. lia.
  - cbn. lia.
  - cbv zeta. split; [exact Hw | split; [exact Hh | split; [reflexivity | exact Hlen]]].
Defined.

(** ** Duplicate attribute names *)

Section Duplicates.
Context {P : Platform}.
Variables (m : Mem) (small : bool) (nrSlots seed objStart : Z).
Variables (members : list Z) (A : list Z).
Hypothesis Hslots : 0 < nrSlots.
Hypothesis Hmembers : membersResolve m objStart members.

Local Abbreviation slot name j := (Z.to_nat (hashPos small nrSlots seed name j)).
Local Abbreviation nameAt o := (findAttrName m (objStart +% o)).
Local Abbreviation sits := (seated m small nrSlots seed objStart A).
Local Abbreviation table := (tableOf nrSlots members).

Lemma slot_range name j (ht : list Z) : table ht -> (slot name j < length ht)%nat.
Proof.
  intros [Hlen _]. rewrite Hlen.
  assert (0 <= hashPos small nrSlots seed name j < nrSlots).
  { unfold hashPos. destruct small;
      [apply fastModulo32Bit_range; lia | apply Z.mod_pos_bound; lia]. }
  lia.
Qed.

Lemma member_resolves o : In o members -> o <> 0 /\ exists name, nameAt o = inr name.
Proof.
  intros Hin. unfold membersResolve in Hmembers.
  rewrite Forall_forall in Hmembers. apply Hmembers. apply list_elem_of_In. exact Hin.
Qed.

Lemma table_entry (ht : list Z) i :
  table ht -> (i < length ht)%nat -> ht !!! i <> 0 -> In (ht !!! i) members.
Proof.
  intros [_ Hall] Hi Hnz.
  rewrite Forall_forall in Hall.
  destruct (Hall (ht !!! i)) as [H0 | Hin]; [| contradiction | exact Hin].
  apply list_elem_of_lookup_total_2. exact Hi.
Qed.

Lemma table_insert (ht : list Z) i o : table ht -> In o members -> table (<[i := o]> ht).
Proof.
  intros [Hlen Hall] Hin. split.
  - rewrite length_insert. exact Hlen.
  - apply Forall_insert; [exact Hall | right; exact Hin].
Qed.

Lemma insert_lookup (ht : list Z) i j o :
  (i < length ht)%nat ->
  <[i := o]> ht !!! j = if decide (i = j) then o else ht !!! j.
Proof.
  intros Hi. destruct (decide (i = j)) as [-> | Hne].
  - apply list_lookup_total_insert_eq. exact Hi.
  - apply list_lookup_total_insert_ne. exact Hne.
Qed.

(** What an outcome of [probe] tells. *)
Lemma probe_cases check name (ht : list Z) p o :
  match probe m objStart check name ht p o with
  | Stored ht' => ht !!! Z.to_nat p = 0 /\ ht' = <[Z.to_nat p := o]> ht
  | Occupied => ht !!! Z.to_nat p <> 0
  | Raised ex =>
      ht !!! Z.to_nat p <> 0 /\ check = true /\
      (nameAt (ht !!! Z.to_nat p) = inl ex \/
       (nameAt (ht !!! Z.to_nat p) = inr name /\ ex = DuplicateAttributeName))
  end.
Proof.
  unfold probe, doTheCheck.
  destruct (Z.eqb_spec (ht !!! Z.to_nat p) 0) as [H0 | Hnz]; [auto |].
  destruct check; [| exact Hnz].
  destruct (nameAt (ht !!! Z.to_nat p)) as [ex | other]; [auto |].
  destruct (decide (name = other)) as [-> | Hne]; auto.
Qed.

(** A taken slot whose member has the probing name is a duplicate. *)
Lemma probe_twin name (ht : list Z) p o :
  ht !!! Z.to_nat p <> 0 -> nameAt (ht !!! Z.to_nat p) = inr name ->
  probe m objStart true name ht p o = Raised DuplicateAttributeName.
Proof.
  intros Hnz Hname. unfold probe, doTheCheck.
  destruct (Z.eqb_spec (ht !!! Z.to_nat p) 0) as [H0 | _]; [contradiction |].
  rewrite Hname. destruct (decide (name = name)); [reflexivity | contradiction].
Qed.

(** A member offset goes into a free slot: who sat stays seated. *)
Lemma seated_store_free (ht : list Z) i o :
  (i < length ht)%nat -> ht !!! i = 0 -> sits ht -> sits (<[i := o]> ht).
Proof.
  intros Hi Hfree (t & Ht & Hnz & Hname & Hbefore).
  assert (Hkeep : forall j, ht !!! j <> 0 -> <[i := o]> ht !!! j = ht !!! j).
  { intros j Hj. rewrite insert_lookup by exact Hi.
    destruct (decide (i = j)) as [-> | _]; [contradiction | reflexivity]. }
  exists t. split; [exact Ht |].
  rewrite (Hkeep _ Hnz). split; [exact Hnz |]. split; [exact Hname |].
  intros t' Ht'. rewrite (Hkeep _ (Hbefore t' Ht')). apply Hbefore. exact Ht'.
Qed.

(** A member called [A] goes into the first free slot of its name. *)
Lemma seated_first_free (ht : list Z) s o :
  table ht -> 0 <= s <= 2 -> o <> 0 -> nameAt o = inr A ->
  ht !!! slot A s = 0 ->
  (forall s', 0 <= s' < s -> ht !!! slot A s' <> 0) ->
  sits (<[slot A s := o]> ht).
Proof.
  intros Htab Hs Ho Hname Hfree Hbefore.
  pose proof (slot_range A s ht Htab) as Hr.
  exists s. split; [exact Hs |].
  rewrite insert_lookup by exact Hr.
  destruct (decide (slot A s = slot A s)); [| contradiction].
  split; [exact Ho |]. split; [exact Hname |].
  intros s' Hs'. rewrite insert_lookup by exact Hr.
  destruct (decide (slot A s = slot A s')) as [Heq | _]; [exact Ho | apply Hbefore; exact Hs'].
Qed.

(** A member offset pushes out the tenant of slot [i]: who sat stays seated,
    unless it is the one pushed out. *)
Lemma seated_evict (ht : list Z) i o :
  (i < length ht)%nat -> o <> 0 -> sits ht ->
  sits (<[i := o]> ht) \/ nameAt (ht !!! i) = inr A.
Proof.
  intros Hi Ho (t & Ht & Hnz & Hname & Hbefore).
  destruct (decide (i = slot A t)) as [-> | Hne]; [right; exact Hname | left].
  exists t. split; [exact Ht |].
  rewrite insert_lookup by exact Hi.
  destruct (decide (i = slot A t)); [contradiction |].
  split; [exact Hnz |]. split; [exact Hname |].
  intros t' Ht'. rewrite insert_lookup by exact Hi.
  destruct (decide (i = slot A t')); [exact Ho | apply Hbefore; exact Ht'].
Qed.

(** A member called [A] pushes out the tenant of one of its own slots, all
    three of which are taken. *)
Lemma seated_evict_own (ht : list Z) s o :
  table ht -> 0 <= s <= 2 -> o <> 0 -> nameAt o = inr A ->
  (forall s', 0 <= s' <= 2 -> ht !!! slot A s' <> 0) ->
  sits (<[slot A s := o]> ht).
Proof.
  intros Htab Hs Ho Hname Hall.
  pose proof (slot_range A s ht Htab) as Hr.
  exists s. split; [exact Hs |].
  rewrite insert_lookup by exact Hr.
  destruct (decide (slot A s = slot A s)); [| contradiction].
  split; [exact Ho |]. split; [exact Hname |].
  intros s' Hs'. rewrite insert_lookup by exact Hr.
  destruct (decide (slot A s = slot A s')); [exact Ho | apply Hall; lia].
Qed.


(** With the uniqueness check on, a probe of a table of members raises
    nothing but DuplicateAttributeName. *)
Lemma probe_raises check name (ht : list Z) j o ex :
  table ht ->
  probe m objStart check name ht (hashPos small nrSlots seed name j) o = Raised ex ->
  ex = DuplicateAttributeName.
Proof.
  intros Htab Hp.
  pose proof (probe_cases check name ht (hashPos small nrSlots seed name j) o) as Hc.
  rewrite Hp in Hc. destruct Hc as (Hnz & _ & [Hbad | [_ ->]]); [| reflexivity].
  destruct (member_resolves _ (table_entry ht _ Htab (slot_range name j ht Htab) Hnz))
    as [_ [other Hother]].
  congruence.
Qed.

(** One call of the lambda [insert] on a table of members. *)
Lemma insert_spec k : forall (ht : list Z) e o check,
  table ht -> In o members ->
  match insert k m small nrSlots seed objStart ht e o check with
  | (ht', _, Ret true) => table ht' /\ (sits ht \/ nameAt o = inr A -> sits ht')
  | (_, _, Ret false) => True
  | (_, _, Throw ex) => ex = DuplicateAttributeName
  | (_, _, Spin) => False
  end.
Proof.
  induction k as [| k IH]; intros ht e o check Htab Hin; [exact I |].
  cbn [insert].
  destruct (member_resolves o Hin) as [Ho [name Hname]]. rewrite Hname.
  pose proof (probe_cases check name ht (hashPos small nrSlots seed name 0) o) as H0.
  pose proof (probe_cases check name ht (hashPos small nrSlots seed name 1) o) as H1.
  pose proof (probe_cases check name ht (hashPos small nrSlots seed name 2) o) as H2.
  assert (Hplace : forall s, 0 <= s <= 2 -> ht !!! slot name s = 0 ->
            (forall s', 0 <= s' < s -> ht !!! slot name s' <> 0) ->
            table (<[slot name s := o]> ht) /\
            (sits ht \/ @inr Exception (list Z) name = inr A ->
             sits (<[slot name s := o]> ht))).
  { intros s Hs Hfree Hbefore. split; [apply table_insert; assumption |].
    intros [Hsits | Heq].
    - apply seated_store_free; [apply slot_range; exact Htab | exact Hfree | exact Hsits].
    - injection Heq as ->. apply seated_first_free; try assumption. }
  destruct (probe m objStart check name ht (hashPos small nrSlots seed name 0) o)
    as [ht0 | | ex0] eqn:Hp0.
  { destruct H0 as [Hfree ->]. apply Hplace; [lia | exact Hfree | intros; lia]. }
  2: { eapply probe_raises; eassumption. }
  destruct (probe m objStart check name ht (hashPos small nrSlots seed name 1) o)
    as [ht1 | | ex1] eqn:Hp1.
  { destruct H1 as [Hfree ->]. apply Hplace; [lia | exact Hfree |].
    intros s' Hs'. replace s' with 0 by lia. exact H0. }
  2: { eapply probe_raises; eassumption. }
  destruct (probe m objStart check name ht (hashPos small nrSlots seed name 2) o)
    as [ht2 | | ex2] eqn:Hp2.
  { destruct H2 as [Hfree ->]. apply Hplace; [lia | exact Hfree |].
    intros s' Hs'. assert (s' = 0 \/ s' = 1) as [-> | ->] by lia; assumption. }
  2: { eapply probe_raises; eassumption. }
  pose proof (uniform_0_2_range e) as Hi.
  destruct (uniform_0_2 e) as [i e'] eqn:Hdraw. cbn [fst] in Hi.
  assert (Htaken : forall s, 0 <= s <= 2 -> ht !!! slot name s <> 0).
  { intros s Hs. assert (s = 0 \/ s = 1 \/ s = 2) as [-> | [-> | ->]] by lia; assumption. }
  pose proof (slot_range name i ht Htab) as Hr.
  specialize (IH (<[slot name i := o]> ht) e' (ht !!! slot name i) false
                (table_insert ht _ o Htab Hin)
                (table_entry ht _ Htab Hr (Htaken i Hi))).
  destruct (insert k m small nrSlots seed objStart (<[slot name i := o]> ht) e'
              (ht !!! slot name i) false) as [[ht' e''] [[|] | ex |]]; try exact IH.
  destruct IH as [Htab' Hsits']. split; [exact Htab' |].
  intros [Hsits | Heq]; apply Hsits'.
  - apply seated_evict; assumption.
  - injection Heq as ->. left. apply seated_evict_own; assumption.
Qed.

(** The second twin: a member called [A] that is inserted, with the check
    on, into a table in which a member called [A] sits. *)
Lemma insert_twin k (ht : list Z) e o :
  table ht -> sits ht -> nameAt o = inr A ->
  insert (S k) m small nrSlots seed objStart ht e o true
  = (ht, e, Throw DuplicateAttributeName).
Proof.
  intros Htab (t & Ht & Hnz & Hname & Hbefore) Ho.
  cbn [insert]. rewrite Ho.
  assert (Hstep : forall s, 0 <= s < t ->
            probe m objStart true A ht (hashPos small nrSlots seed A s) o = Occupied \/
            probe m objStart true A ht (hashPos small nrSlots seed A s) o
            = Raised DuplicateAttributeName).
  { intros s Hs.
    pose proof (probe_cases true A ht (hashPos small nrSlots seed A s) o) as Hc.
    destruct (probe m objStart true A ht (hashPos small nrSlots seed A s) o)
      as [ht' | | ex] eqn:Hp.
    - destruct Hc as [Hfree _]. destruct (Hbefore s Hs Hfree).
    - left. reflexivity.
    - right. f_equal. eapply probe_raises; eassumption. }
  assert (Hhit : probe m objStart true A ht (hashPos small nrSlots seed A t) o
                 = Raised DuplicateAttributeName).
  { apply probe_twin; assumption. }
  assert (t = 0 \/ t = 1 \/ t = 2) as [-> | [-> | ->]] by lia.
  - rewrite Hhit. reflexivity.
  - destruct (Hstep 0 ltac:(lia)) as [-> | ->]; [| reflexivity].
    rewrite Hhit. reflexivity.
  - destruct (Hstep 0 ltac:(lia)) as [-> | ->]; [| reflexivity].
    destruct (Hstep 1 ltac:(lia)) as [-> | ->]; [| reflexivity].
    rewrite Hhit. reflexivity.
Qed.


(** The loop over the members, started on a table of members. *)
Lemma insertAll_spec k check : forall l (ht : list Z) e,
  table ht -> (forall o, In o l -> In o members) ->
  match insertAll k m small nrSlots seed objStart check l ht e with
  | (ht', _, Ret true) =>
      table ht' /\ (sits ht \/ Exists (fun o => nameAt o = inr A) l -> sits ht')
  | (_, _, Ret false) => True
  | (_, _, Throw ex) => ex = DuplicateAttributeName
  | (_, _, Spin) => False
  end.
Proof.
  induction l as [| o l IH]; intros ht e Htab Hsub.
  - cbn [insertAll]. split; [exact Htab |].
    intros [Hs | Hex]; [exact Hs | inversion Hex].
  - cbn [insertAll].
    pose proof (insert_spec k ht e o check Htab (Hsub o (or_introl eq_refl))) as Hone.
    destruct (insert k m small nrSlots seed objStart ht e o check)
      as [[ht1 e1] [[|] | ex |]]; try exact Hone.
    destruct Hone as [Htab1 Hsits1].
    specialize (IH ht1 e1 Htab1 (fun o' Ho' => Hsub o' (or_intror Ho'))).
    destruct (insertAll k m small nrSlots seed objStart check l ht1 e1)
      as [[ht' e'] [[|] | ex |]]; try exact IH.
    destruct IH as [Htab' Hsits']. split; [exact Htab' |].
    intros [Hs | Hex]; apply Hsits'.
    + left. apply Hsits1. left. exact Hs.
    + inversion Hex as [? ? Hhere | ? ? Hlater]; subst.
      * left. apply Hsits1. right. exact Hhere.
      * right. exact Hlater.
Qed.

(** Once a member called [A] sits in the table, the loop cannot get past
    another member of that name. *)
Lemma insertAll_twin k : forall l (ht : list Z) e,
  table ht -> (forall o, In o l -> In o members) ->
  sits ht -> Exists (fun o => nameAt o = inr A) l ->
  forall ht' e', insertAll (S k) m small nrSlots seed objStart true l ht e <> (ht', e', Ret true).
Proof.
  induction l as [| o l IH]; intros ht e Htab Hsub Hsits Hex ht' e'; [inversion Hex |].
  cbn [insertAll].
  inversion Hex as [? ? Hhere | ? ? Hlater]; subst.
  - rewrite (insert_twin k ht e o Htab Hsits Hhere). discriminate.
  - pose proof (insert_spec (S k) ht e o true Htab (Hsub o (or_introl eq_refl))) as Hone.
    destruct (insert (S k) m small nrSlots seed objStart ht e o true)
      as [[ht1 e1] [[|] | ex |]]; try discriminate.
    destruct Hone as [Htab1 Hsits1].
    apply IH; [exact Htab1 | intros o' Ho'; apply Hsub; right; exact Ho' | | exact Hlater].
    apply Hsits1. left. exact Hsits.
Qed.

(** Two members of one name: the loop over the members never ends well. *)
Lemma insertAll_pair k l1 oi l2 : forall (ht : list Z) e,
  table ht -> (forall o, In o (l1 ++ oi :: l2) -> In o members) ->
  nameAt oi = inr A -> Exists (fun o => nameAt o = inr A) l2 ->
  forall ht' e',
    insertAll (S k) m small nrSlots seed objStart true (l1 ++ oi :: l2) ht e
    <> (ht', e', Ret true).
Proof.
  induction l1 as [| o l1 IH]; intros ht e Htab Hsub Hoi Hex ht' e'.
  - cbn [app insertAll].
    pose proof (insert_spec (S k) ht e oi true Htab (Hsub oi (or_introl eq_refl))) as Hone.
    destruct (insert (S k) m small nrSlots seed objStart ht e oi true)
      as [[ht1 e1] [[|] | ex |]]; try discriminate.
    destruct Hone as [Htab1 Hsits1].
    apply insertAll_twin; [exact Htab1 | | | exact Hex].
    + intros o Ho. apply Hsub. right. exact Ho.
    + apply Hsits1. right. exact Hoi.
  - cbn [app insertAll].
    pose proof (insert_spec (S k) ht e o true Htab (Hsub o (or_introl eq_refl))) as Hone.
    destruct (insert (S k) m small nrSlots seed objStart ht e o true)
      as [[ht1 e1] [[|] | ex |]]; try discriminate.
    destruct Hone as [Htab1 _].
    apply IH; [exact Htab1 | | exact Hoi | exact Hex].
    intros o' Ho'. apply Hsub. right. exact Ho'.
Qed.

Lemma insertAll_app k check l1 : forall l2 (ht : list Z) e,
  insertAll k m small nrSlots seed objStart check (l1 ++ l2) ht e
  = match insertAll k m small nrSlots seed objStart check l1 ht e with
    | (ht', e', Ret true) => insertAll k m small nrSlots seed objStart check l2 ht' e'
    | r => r
    end.
Proof.
  induction l1 as [| o l1 IH]; intros l2 ht e; [reflexivity |].
  cbn [app insertAll].
  destruct (insert k m small nrSlots seed objStart ht e o check)
    as [[ht1 e1] [[|] | ex |]]; try reflexivity.
  apply IH.
Qed.

(** The members before the second twin have found their slots: the second
    twin is caught. *)
Lemma insertAll_caught k l1 oj l3 (ht ht1 : list Z) e e1 :
  table ht -> (forall o, In o (l1 ++ oj :: l3) -> In o members) ->
  Exists (fun o => nameAt o = inr A) l1 -> nameAt oj = inr A ->
  insertAll (S k) m small nrSlots seed objStart true l1 ht e = (ht1, e1, Ret true) ->
  insertAll (S k) m small nrSlots seed objStart true (l1 ++ oj :: l3) ht e
  = (ht1, e1, Throw DuplicateAttributeName).
Proof.
  intros Htab Hsub Hex Hoj Hfirst.
  rewrite insertAll_app, Hfirst. cbn [insertAll].
  pose proof (insertAll_spec (S k) true l1 ht e Htab
                (fun o Ho => Hsub o (in_or_app _ _ _ (or_introl Ho)))) as Hspec.
  rewrite Hfirst in Hspec. destruct Hspec as [Htab1 Hsits1].
  rewrite (insert_twin k ht1 e1 oj Htab1 (Hsits1 (or_intror Hex)) Hoj). reflexivity.
Qed.

Lemma table_fresh : table (replicate (Z.to_nat nrSlots) 0).
Proof.
  split; [apply length_replicate |].
  apply Forall_forall. intros x Hx. apply elem_of_replicate in Hx as [-> _]. left. reflexivity.
Qed.

End Duplicates.

Section DuplicatesClose.
Context {P : Platform}.
Variables (m : Mem) (objStart : Z) (index l1 l2 l3 : list Z) (oi oj : Z) (A : list Z).
Hypothesis Hindex : index = l1 ++ oi :: l2 ++ oj :: l3.
Hypothesis Hmembers : membersResolve m objStart index.
Hypothesis Hoi : findAttrName m (objStart +% oi) = inr A.
Hypothesis Hoj : findAttrName m (objStart +% oj) = inr A.

Lemma twin_later : Exists (fun o => findAttrName m (objStart +% o) = inr A) (l2 ++ oj :: l3).
Proof. apply Exists_app. right. apply Exists_cons_hd. exact Hoj. Qed.

(** No seed gives a table to an object with two members of one name. *)
Lemma trySeeds_pair s k small nrSlots : forall seed e,
  0 < nrSlots ->
  match trySeeds s (S k) m small nrSlots objStart true index seed e with
  | (_, Ret (Some _)) => False
  | (_, Ret None) => True
  | (_, Throw ex) => ex = DuplicateAttributeName
  | (_, Spin) => False
  end.
Proof.
  intros seed e Hslots. revert seed e.
  induction s as [| s IH]; intros seed e; [exact I |].
  cbn [trySeeds].
  pose proof (insertAll_spec m small nrSlots seed objStart index A Hslots Hmembers (S k) true
                index (replicate (Z.to_nat nrSlots) 0) e
                (table_fresh nrSlots index) (fun o Ho => Ho)) as Hspec.
  pose proof (insertAll_pair m small nrSlots seed objStart index A Hslots Hmembers k
                l1 oi (l2 ++ oj :: l3) (replicate (Z.to_nat nrSlots) 0) e
                (table_fresh nrSlots index)) as Hpair.
  rewrite <- Hindex in Hpair.
  specialize (Hpair (fun o Ho => Ho) Hoi twin_later).
  destruct (insertAll (S k) m small nrSlots seed objStart true index
              (replicate (Z.to_nat nrSlots) 0) e) as [[ht' e'] [[|] | ex |]].
  - exact (Hpair ht' e' eq_refl).
  - destruct (wrap8 (seed + 1) =? 0); [exact I | apply IH].
  - exact Hspec.
  - exact Hspec.
Qed.

(** Nor does any table size. *)
Lemma tryTables_pair rounds k : forall nrSlots e,
  0 <= nrSlots ->
  match tryTables rounds (S k) m nrSlots objStart true index e with
  | Ret _ => False
  | Throw ex => ex = DuplicateAttributeName
  | Spin => True
  end.
Proof.
  induction rounds as [| rounds IH]; intros nrSlots e Hslots; [exact I |].
  cbn [tryTables].
  destruct (Z.eqb_spec nrSlots 0) as [_ | Hnz]; [exact I |].
  pose proof (trySeeds_pair 256 k (nrSlots <=? 0x1000000) nrSlots 0 e ltac:(lia)) as Hseeds.
  destruct (trySeeds 256 (S k) m (nrSlots <=? 0x1000000) nrSlots objStart true index 0 e)
    as [e' [[[ht seed] |] | ex |]].
  - destruct Hseeds.
  - apply IH. apply Z.div_pos; [apply wrap64_range | lia].
  - exact Hseeds.
  - exact I.
Qed.

(** If the first attempt brings the members before the second twin into
    the table, it ends with the exception. *)
Lemma tryTables_caught rounds k nrSlots e (ht1 : list Z) e1 :
  0 < nrSlots ->
  insertAll (S k) m (nrSlots <=? 0x1000000) nrSlots 0 objStart true (l1 ++ oi :: l2)
    (replicate (Z.to_nat nrSlots) 0) e = (ht1, e1, Ret true) ->
  tryTables (S rounds) (S k) m nrSlots objStart true index e = Throw DuplicateAttributeName.
Proof.
  intros Hslots Hfirst. cbn [tryTables trySeeds].
  replace (nrSlots =? 0) with false by lia.
  change (Pos.to_nat 256) with (S 255). cbn [trySeeds].
  assert (Hsplit : index = (l1 ++ oi :: l2) ++ oj :: l3).
  { rewrite Hindex, <- app_assoc. reflexivity. }
  rewrite Hsplit.
  rewrite (insertAll_caught m (nrSlots <=? 0x1000000) nrSlots 0 objStart index A Hslots
             Hmembers k (l1 ++ oi :: l2) oj l3 (replicate (Z.to_nat nrSlots) 0) ht1 e e1
             (table_fresh nrSlots index)); try assumption.
  - reflexivity.
  - intros o Ho. rewrite Hsplit. exact Ho.
  - apply Exists_app. right. apply Exists_cons_hd. exact Hoi.
Qed.

End DuplicatesClose.

Lemma store_same m a v : m a = v -> store m a v = m.
Proof.
  intros H. apply functional_extensionality. intros i. unfold store.
  destruct (Z.eqb_spec i a) as [-> | _]; [symmetry; exact H | reflexivity].
Qed.

Lemma withStart_same b : withStart (_start b) b = b.
Proof. destruct b. reflexivity. Qed.

Lemma initialSlots_positive n : 0 <= n < 2^60 -> 0 < initialSlots n.
Proof.
  intros Hn. unfold initialSlots. unwrap.
  assert (0 <= n * 3 / 20 <= n) by (split; [apply Z.div_pos; lia | apply Z.div_le_upper_bound; lia]).
  unwrap. lia.
Qed.

(** ** The order of the attempts *)

Section SearchOrder.
Context {P : Platform}.
Variables (k : nat) (m : Mem) (objStart : Z) (check : bool) (index : list Z).

Lemma tryTables_unfold rounds nrSlots e :
  nrSlots <> 0 ->
  tryTables (S rounds) k m nrSlots objStart check index e
  = afterSeeds k m objStart check index rounds nrSlots
      (trySeeds 256 k m (nrSlots <=? 0x1000000) nrSlots objStart check index 0 e).
Proof.
  intros Hnz. cbn [tryTables]. replace (nrSlots =? 0) with false by lia.
  unfold afterSeeds.
  destruct (trySeeds 256 k m (nrSlots <=? 0x1000000) nrSlots objStart check index 0 e)
    as [e' [[[ht seed] |] | ex |]]; reflexivity.
Qed.

Lemma searchAt_first nrSlots0 e0 :
  0 < nrSlots0 -> searchAt k m objStart check index nrSlots0 e0 nrSlots0 0 e0.
Proof.
  intros Hpos. split; [exact Hpos |]. split; [lia |].
  exists 0%nat. intros rounds. cbn [Nat.add].
  rewrite tryTables_unfold by lia. reflexivity.
Qed.

Lemma searchAt_seed nrSlots0 e0 nrSlots seed e ht e' :
  searchAt k m objStart check index nrSlots0 e0 nrSlots seed e ->
  insertAll k m (nrSlots <=? 0x1000000) nrSlots seed objStart check index
    (replicate (Z.to_nat nrSlots) 0) e = (ht, e', Ret false) ->
  wrap8 (seed + 1) <> 0 ->
  searchAt k m objStart check index nrSlots0 e0 nrSlots (wrap8 (seed + 1)) e'.
Proof.
  intros (Hpos & Hseed & R & Hsearch) Hfail Hnext.
  assert (Hlt : seed < 255).
  { destruct (Z.eq_dec seed 255) as [-> | Hne]; [| lia]. destruct Hnext. reflexivity. }
  rewrite wrap8_small in * by lia.
  split; [exact Hpos |]. split; [lia |].
  exists R. intros rounds. rewrite Hsearch.
  replace (Z.to_nat (256 - seed)) with (S (Z.to_nat (256 - (seed + 1)))) by lia.
  cbn [trySeeds]. rewrite Hfail.
  rewrite wrap8_small by lia.
  replace (seed + 1 =? 0) with false by lia. reflexivity.
Qed.

Lemma searchAt_table nrSlots0 e0 nrSlots seed e ht e' :
  searchAt k m objStart check index nrSlots0 e0 nrSlots seed e ->
  insertAll k m (nrSlots <=? 0x1000000) nrSlots seed objStart check index
    (replicate (Z.to_nat nrSlots) 0) e = (ht, e', Ret false) ->
  wrap8 (seed + 1) = 0 ->
  nrSlots *% 110 / 100 <> 0 ->
  searchAt k m objStart check index nrSlots0 e0 (nrSlots *% 110 / 100) 0 e'.
Proof.
  intros (Hpos & Hseed & R & Hsearch) Hfail Hnext Hnz.
  assert (Hge : 0 <= nrSlots *% 110 / 100).
  { apply Z.div_pos; [apply wrap64_range | lia]. }
  split; [lia |]. split; [lia |].
  exists (S R). intros rounds.
  replace (S R + S rounds)%nat with (R + S (S rounds))%nat by lia.
  rewrite Hsearch.
  replace (Z.to_nat (256 - seed)) with (S (Z.to_nat (256 - (seed + 1)))) by lia.
  cbn [trySeeds]. rewrite Hfail, Hnext. cbn [Z.eqb afterSeeds].
  rewrite tryTables_unfold by exact Hnz. reflexivity.
Qed.

(** An attempt that throws ends the search. *)
Lemma searchAt_throw nrSlots0 e0 nrSlots seed e ht e' ex :
  searchAt k m objStart check index nrSlots0 e0 nrSlots seed e ->
  insertAll k m (nrSlots <=? 0x1000000) nrSlots seed objStart check index
    (replicate (Z.to_nat nrSlots) 0) e = (ht, e', Throw ex) ->
  exists R, forall rounds, (R <= rounds)%nat ->
    tryTables rounds k m nrSlots0 objStart check index e0 = Throw ex.
Proof.
  intros (Hpos & Hseed & R & Hsearch) Hthrow.
  exists (R + 1)%nat. intros rounds Hrounds.
  replace rounds with (R + S (rounds - R - 1))%nat by lia.
  rewrite Hsearch.
  replace (Z.to_nat (256 - seed)) with (S (Z.to_nat (256 - (seed + 1)))) by lia.
  cbn [trySeeds]. rewrite Hthrow. reflexivity.
Qed.

End SearchOrder.

Section DuplicateAttribute.
Context {P : Platform}.

Lemma searchArrives_searchAt (b : Builder) nrSlots seed e :
  searchArrives b nrSlots seed e ->
  searchAt (S (Z.to_nat (searchLimit (initialSlots (Z.of_nat (length (topIndex b)))))))
    (_start b) (List.last (_stack b) 0) (checkAttributeUniqueness (options b)) (topIndex b)
    (initialSlots (Z.of_nat (length (topIndex b)))) (mt19937_64 123456789) nrSlots seed e.
Proof.
  induction 1 as [Hnz | nrSlots seed e ht e' _ IH Hfail Hnext
                 | nrSlots seed e ht e' _ IH Hfail Hnext Hnz].
  - apply searchAt_first.
    pose proof (wrap64_range
                  (Z.of_nat (length (topIndex b)) +% Z.of_nat (length (topIndex b)) *% 3 / 20 + 1)).
    unfold initialSlots in *. lia.
  - eapply searchAt_seed; eassumption.
  - eapply searchAt_table; eassumption.
Qed.

(** C5 (amended): with checkAttributeUniqueness set, closing in indexed form
    (head 0x0b, buildUnindexedObjects off) an object that has two members
    with byte-equal attribute names never yields a closed object: whatever
    the number of rounds granted, [close] has thrown DuplicateAttributeName
    or is still trying seeds and table sizes, and the Builder is the one it
    was called on, with the compound open.  It throws
    DuplicateAttributeName as soon as the search arrives at an attempt,
    with whatever seed and table size, that finds slots for the members
    before the second twin: a member is compared with the tenant of each
    taken slot of its name before it pushes any tenant out.  When the twins
    are the first two members, this is the first attempt, and [close]
    throws on every platform. *)
Theorem close_duplicate_attribute (rounds : nat) (b : Builder) (tos : Z) (rest : list Z)
    (l1 l2 l3 : list Z) (oi oj : Z) (A : list Z) :
  _stack b = rest ++ [tos] -> _start b tos = 0x0b ->
  buildUnindexedObjects (options b) = false ->
  checkAttributeUniqueness (options b) = true ->
  topIndex b = l1 ++ oi :: l2 ++ oj :: l3 ->
  Z.of_nat (length (topIndex b)) < 2^60 ->
  membersResolve (_start b) tos (topIndex b) ->
  findAttrName (_start b) (tos +% oi) = inr A ->
  findAttrName (_start b) (tos +% oj) = inr A ->
  (close rounds b = (b, Throw DuplicateAttributeName) \/ close rounds b = (b, Spin)) /\
  (forall nrSlots seed e ht e',
     searchArrives b nrSlots seed e ->
     attempt b nrSlots seed e (l1 ++ oi :: l2) = (ht, e', Ret true) ->
     exists R, forall rounds', (R <= rounds')%nat ->
       close rounds' b = (b, Throw DuplicateAttributeName)) /\
  (l1 = [] -> l2 = [] -> (0 < rounds)%nat ->
   close rounds b = (b, Throw DuplicateAttributeName)).
Proof.
  intros Hs Hhead Hopt Hcheck Hidx Hlen Hmem Hoi Hoj.
  assert (Hclose : forall r, close r b =
            match computeCuckooHash r b with
            | Ret (ht, seed, nrSlots) => (closeIndexedObject tos ht seed nrSlots b, Ret tt)
            | Throw ex => (b, Throw ex)
            | Spin => (b, Spin)
            end).
  { intros r. unfold close. rewrite Hs, last_snoc, Hhead.
    destruct (topIndex b) as [| o0 [| o1 l]] eqn:Hti.
    - destruct l1; discriminate Hidx.
    - destruct l1 as [| ? [| ? ?]]; try discriminate Hidx.
      injection Hidx as _ Hnil. destruct l2; discriminate Hnil.
    - unfold wantsCompact. rewrite Hopt. cbn -[closeIndexed].
      unfold closeIndexed. cbn [orb].
      rewrite (store_same (_start b) tos 11 Hhead), withStart_same. reflexivity. }
  set (nrSlots0 := initialSlots (Z.of_nat (length (topIndex b)))).
  assert (Hpos : 0 < nrSlots0) by (apply initialSlots_positive; lia).
  assert (Hcaught : forall nrSlots seed e ht e',
            searchArrives b nrSlots seed e ->
            attempt b nrSlots seed e (l1 ++ oi :: l2) = (ht, e', Ret true) ->
            exists R, forall rounds', (R <= rounds')%nat ->
              close rounds' b = (b, Throw DuplicateAttributeName)).
  { intros nrSlots seed e ht e' Harr Hplaced.
    pose proof (searchArrives_searchAt b nrSlots seed e Harr) as Hat.
    assert (Hslots : 0 < nrSlots) by (destruct Hat as [H _]; exact H).
    unfold attempt in Hplaced. rewrite Hs, last_last, Hcheck in *.
    assert (Hsplit : topIndex b = (l1 ++ oi :: l2) ++ oj :: l3).
    { rewrite Hidx, <- app_assoc. reflexivity. }
    pose proof (insertAll_caught (_start b) (nrSlots <=? 0x1000000) nrSlots seed tos
                  (topIndex b) A Hslots Hmem _ (l1 ++ oi :: l2) oj l3
                  (replicate (Z.to_nat nrSlots) 0) ht e e' (table_fresh nrSlots (topIndex b))
                  ltac:(intros o Ho; rewrite Hsplit; exact Ho)
                  ltac:(apply Exists_app; right; apply Exists_cons_hd; exact Hoi)
                  Hoj Hplaced) as Hthrow.
    rewrite <- Hsplit in Hthrow.
    destruct (searchAt_throw _ _ _ _ _ _ _ _ _ _ ht e' DuplicateAttributeName Hat Hthrow)
      as [R HR].
    exists R. intros rounds' Hr. rewrite Hclose. unfold computeCuckooHash.
    rewrite Hs, last_last, Hcheck. rewrite (HR rounds' Hr). reflexivity. }
  split; [| split].
  - rewrite Hclose.
    unfold computeCuckooHash. rewrite Hs, last_last, Hcheck. fold nrSlots0.
    pose proof (tryTables_pair (_start b) tos (topIndex b) l1 l2 l3 oi oj A Hidx Hmem Hoi Hoj
                  rounds (Z.to_nat (searchLimit nrSlots0)) nrSlots0 (mt19937_64 123456789)
                  ltac:(lia)) as Hnever.
    destruct (tryTables rounds (S (Z.to_nat (searchLimit nrSlots0))) (_start b) nrSlots0 tos true
                (topIndex b) (mt19937_64 123456789)) as [[[ht seed] n] | ex |].
    + destruct Hnever.
    + left. rewrite Hnever. reflexivity.
    + right. reflexivity.
  - exact Hcaught.
  - intros -> -> Hrounds. cbn [app] in *.
    rewrite Hclose. unfold computeCuckooHash. rewrite Hs, last_last, Hcheck. fold nrSlots0.
    destruct rounds as [| rounds]; [lia |].
    erewrite (tryTables_caught (_start b) tos (topIndex b) [] [] l3 oi oj A Hidx Hmem Hoi Hoj
                rounds (Z.to_nat (searchLimit nrSlots0)) nrSlots0 (mt19937_64 123456789)).
    + reflexivity.
    + exact Hpos.
    + cbn [app insertAll insert]. rewrite Hoi. unfold probe.
      rewrite lookup_total_replicate_2.
      * cbn [Z.eqb]. reflexivity.
      * pose proof (slot_range (nrSlots0 <=? 0x1000000) nrSlots0 0 (topIndex b) Hpos A 0 _
                      (table_fresh nrSlots0 (topIndex b))) as Hr.
        rewrite length_replicate in Hr. exact Hr.
Qed.

End DuplicateAttribute.

Lemma close_duplicate_attribute_witness :
  close 1 (twinObject false) = (twinObject false, Throw DuplicateAttributeName) /\
  (exists ht e', attempt lateTwinObject 5 0 (mt19937_64 123456789) (topIndex lateTwinObject)
                 = (ht, e', Ret false)) /\
  exists R, forall rounds, (R <= rounds)%nat ->
    close rounds lateTwinObject = (lateTwinObject, Throw DuplicateAttributeName).
Proof.
  split; [| split].
  - apply (close_duplicate_attribute 1 (twinObject false) 0 [] [] [] [] 9 12 [97]).
    + reflexivity.
    + reflexivity.
    + reflexivity.
    + reflexivity.
    + reflexivity.
    + vm_compute. reflexivity.
    + repeat constructor; try discriminate; eexists; vm_compute; reflexivity.
    + vm_compute. reflexivity.
    + vm_compute. reflexivity.
    + reflexivity.
    + reflexivity.
    + lia.
  - eexists. eexists. vm_compute. reflexivity.
  - destruct (close_duplicate_attribute 0 lateTwinObject 0 [] [] [12; 15] [] 9 18 [98])
      as (_ & Hcaught & _).
    + reflexivity.
    + reflexivity.
    + reflexivity.
    + reflexivity.
    + reflexivity.
    + vm_compute. reflexivity.
    + unfold membersResolve. change (topIndex lateTwinObject) with [9; 12; 15; 18].
      repeat (apply Forall_cons_2;
              [split; [discriminate | eexists; vm_compute; reflexivity] |]).
      apply Forall_nil_2.
    + vm_compute. reflexivity.
    + vm_compute. reflexivity.
    + apply (Hcaught 5 1 10031308330231550629 [0; 15; 9; 12; 0] 10031308330231550629).
      * apply (arrives_seed lateTwinObject 5 0 (mt19937_64 123456789) [0; 0; 0; 15; 9]).
        -- apply arrives_first. vm_compute. discriminate.
        -- vm_compute. reflexivity.
        -- vm_compute. discriminate.
      * vm_compute. reflexivity.
Defined.

(** C5, as stated, fails: the object with the pairs "a": 1 and "a": 2 that
    was opened with the unindexed hint is closed in compact form, head 0x14,
    although checkAttributeUniqueness is set and its two attribute names are
    byte-equal; no exception is thrown. *)
Lemma close_duplicate_counterexample :
  let b := twinObject true in
  checkAttributeUniqueness (options b) = true /\
  topIndex b = [9; 12] /\
  findAttrName (_start b) 9 = inr [97] /\
  findAttrName (_start b) 12 = inr [97] /\
  snd (close 1 b) = Ret tt /\
  _start (fst (close 1 b)) 0 = 0x14.
Proof. vm_compute. repeat split; reflexivity. Qed.

(** ** A search that never ends *)

Section DegenerateSearch.

Local Abbreviation D := Degenerate.platform.
Local Abbreviation m := (_start abaObject).

Lemma degenerate_slot small nrSlots seed name j :
  0 < nrSlots -> hashPos (P := D) small nrSlots seed name j = 0.
Proof.
  intros Hpos. unfold hashPos. cbn [XXH64 fastModulo32Bit Degenerate.platform].
  destruct small; [reflexivity | apply Z.mod_0_l; lia].
Qed.

(** With the members "a" and "b" in turn at the one slot that every name
    is sent to, the lambda [insert] pushes them out in turn until the
    search limit is reached. *)
Lemma degenerate_insert small nrSlots seed k : forall (ht : list Z) e o,
  0 < nrSlots -> length ht = Z.to_nat nrSlots ->
  ht !!! 0%nat = 9 \/ ht !!! 0%nat = 12 -> o = 9 \/ o = 12 ->
  exists ht' e', insert (P := D) k m small nrSlots seed 0 ht e o false = (ht', e', Ret false).
Proof.
  induction k as [| k IH]; intros ht e o Hpos Hlen Hht Ho.
  - eexists. eexists. reflexivity.
  - cbn [insert].
    assert (Hname : exists name, findAttrName (P := D) m (0 +% o) = inr name).
    { destruct Ho as [-> | ->]; eexists; vm_compute; reflexivity. }
    destruct Hname as [name ->].
    rewrite !degenerate_slot by exact Hpos.
    unfold probe. change (Z.to_nat 0) with 0%nat.
    replace (ht !!! 0%nat =? 0) with false by lia.
    destruct (uniform_0_2 e) as [i e1]. cbv beta iota zeta.
    rewrite degenerate_slot by exact Hpos. change (Z.to_nat 0) with 0%nat.
    apply IH; [exact Hpos | rewrite length_insert; exact Hlen | | exact Hht].
    rewrite list_lookup_total_insert_eq by lia. exact Ho.
Qed.

Lemma degenerate_first small nrSlots seed (e : Engine (Platform := D)) k :
  0 < nrSlots ->
  insert (P := D) (S k) m small nrSlots seed 0 (replicate (Z.to_nat nrSlots) 0) e 9 true
  = (<[0%nat := 9]> (replicate (Z.to_nat nrSlots) 0), e, Ret true).
Proof.
  intros Hpos. cbn [insert].
  change (findAttrName (P := D) m (0 +% 9)) with (@inr Exception (list Z) [97]).
  cbv beta iota zeta. rewrite !degenerate_slot by exact Hpos.
  unfold probe at 1. change (Z.to_nat 0) with 0%nat.
  rewrite lookup_total_replicate_2 by lia. reflexivity.
Qed.

Lemma degenerate_second small nrSlots seed (e : Engine (Platform := D)) k :
  0 < nrSlots ->
  exists ht' e',
    insert (P := D) (S k) m small nrSlots seed 0
      (<[0%nat := 9]> (replicate (Z.to_nat nrSlots) 0)) e 12 true = (ht', e', Ret false).
Proof.
  intros Hpos. cbn [insert].
  change (findAttrName (P := D) m (0 +% 12)) with (@inr Exception (list Z) [98]).
  cbv beta iota zeta. rewrite !degenerate_slot by exact Hpos.
  unfold probe, doTheCheck. change (Z.to_nat 0) with 0%nat.
  rewrite list_lookup_total_insert_eq by (rewrite length_replicate; lia).
  change (9 =? 0) with false. cbv beta iota.
  change (findAttrName (P := D) m (0 +% 9)) with (@inr Exception (list Z) [97]).
  cbv beta iota.
  destruct (decide ([98] = [97])) as [Heq | _]; [discriminate Heq |].
  destruct (uniform_0_2 e) as [i e1]. cbv beta iota zeta.
  rewrite degenerate_slot by exact Hpos. change (Z.to_nat 0) with 0%nat.
  rewrite list_lookup_total_insert_eq by (rewrite length_replicate; lia).
  apply degenerate_insert.
  - exact Hpos.
  - rewrite !length_insert, length_replicate. reflexivity.
  - right. apply list_lookup_total_insert_eq. rewrite length_insert, length_replicate. lia.
  - left. reflexivity.
Qed.

Lemma degenerate_attempt small nrSlots seed (e : Engine (Platform := D)) k :
  0 < nrSlots ->
  exists ht' e', insertAll (P := D) (S k) m small nrSlots seed 0 true [9; 12; 15]
                   (replicate (Z.to_nat nrSlots) 0) e = (ht', e', Ret false).
Proof.
  intros Hpos. cbn [insertAll].
  rewrite degenerate_first by exact Hpos.
  destruct (degenerate_second small nrSlots seed e k Hpos) as (ht' & e' & ->).
  eexists. eexists. reflexivity.
Qed.

Lemma degenerate_seeds s k small nrSlots : forall seed (e : Engine (Platform := D)),
  0 < nrSlots ->
  exists e', trySeeds (P := D) s (S k) m small nrSlots 0 true [9; 12; 15] seed e
             = (e', Ret None).
Proof.
  induction s as [| s IH]; intros seed e Hpos.
  - eexists. reflexivity.
  - cbn [trySeeds].
    destruct (degenerate_attempt small nrSlots seed e k Hpos) as (ht' & e' & ->).
    destruct (wrap8 (seed + 1) =? 0); [eexists; reflexivity | apply IH; exact Hpos].
Qed.

Lemma degenerate_tables rounds k : forall nrSlots (e : Engine (Platform := D)),
  0 <= nrSlots ->
  tryTables (P := D) rounds (S k) m nrSlots 0 true [9; 12; 15] e = Spin.
Proof.
  induction rounds as [| rounds IH]; intros nrSlots e Hge; [reflexivity |].
  cbn [tryTables].
  destruct (Z.eqb_spec nrSlots 0) as [_ | Hnz]; [reflexivity |].
  destruct (degenerate_seeds 256 k (nrSlots <=? 0x1000000) nrSlots 0 e ltac:(lia)) as [e' ->].
  apply IH. apply Z.div_pos; [apply wrap64_range | lia].
Qed.

(** Why C5 speaks of the attempt that gets past the members before the
    second twin: whether there is one depends on the hash function.  On a
    platform whose hash function sends every name to the same slots, the
    members "a" and "b" of the object with the pairs "a": 1, "b": 2 and
    "a": 3 never find their slots together, the second "a" is never looked
    at, and [close] goes on trying seeds and table sizes for ever. *)
Lemma close_duplicate_search_unbounded (rounds : nat) :
  checkAttributeUniqueness (options abaObject) = true /\
  findAttrName (P := D) m 9 = inr [97] /\ findAttrName (P := D) m 15 = inr [97] /\
  close (P := D) rounds abaObject = (abaObject, Spin).
Proof.
  split; [reflexivity |]. split; [reflexivity |]. split; [reflexivity |].
  change (close (P := D) rounds abaObject) with (closeIndexed (P := D) rounds 0 false abaObject).
  unfold closeIndexed.
  rewrite (store_same m 0 11 eq_refl), withStart_same.
  unfold computeCuckooHash.
  change (List.last (_stack abaObject) 0) with 0.
  change (topIndex abaObject) with [9; 12; 15].
  change (checkAttributeUniqueness (options abaObject)) with true.
  rewrite degenerate_tables; [reflexivity |].
  vm_compute. discriminate.
Qed.

End DegenerateSearch.

(** ** Determinism of the cuckoo construction *)

Lemma stringName_agree (m m' : Mem) (base pos : Z) (name : list Z) :
  0 <= base -> sameBelow pos m m' ->
  stringName m base = Some name -> stringEnd m base name <= pos ->
  stringName m' base = Some name.
Proof.
  intros Hbase Hsame Hname Hend. unfold stringEnd in Hend.
  assert (Hhead : m' base = m base).
  { symmetry. apply Hsame. destruct (m base =? 191); lia. }
  unfold stringName in *. rewrite Hhead.
  destruct ((64 <=? m base) && (m base <=? 190)) eqn:Hshort.
  - injection Hname as <-. f_equal. apply readBytes_ext. intros a Ha.
    rewrite readBytes_length in *. symmetry. apply Hsame.
    replace (m base =? 191) with false in Hend by lia. lia.
  - destruct (Z.eqb_spec (m base) 191) as [H191 | _]; [| discriminate Hname].
    assert (Hn : name = readBytes m (base + 1 + 8) (Z.to_nat (readLength m base)))
      by congruence.
    clear Hname. subst name. rewrite readBytes_length in Hend.
    assert (Hrl : readLength m' base = readLength m base).
    { unfold readLength. cbn [fold_left]. rewrite !Hsame by lia. reflexivity. }
    rewrite Hrl. f_equal. apply readBytes_ext. intros a Ha. symmetry. apply Hsame. lia.
Qed.

Section Agreement.
Context {P : Platform}.
Variables (m1 m2 : Mem) (objStart : Z) (members : list Z).
Hypothesis Hnames : forall o, In o members ->
  findAttrName m1 (objStart +% o) = findAttrName m2 (objStart +% o).

Section OneTable.
Variables (small : bool) (nrSlots seed : Z).
Hypothesis Hslots : 0 < nrSlots.

Local Abbreviation table := (tableOf nrSlots members).

Lemma probe_agree check name (ht : list Z) j o :
  table ht ->
  probe m1 objStart check name ht (hashPos small nrSlots seed name j) o
  = probe m2 objStart check name ht (hashPos small nrSlots seed name j) o.
Proof.
  intros Htab. unfold probe, doTheCheck.
  destruct (Z.eqb_spec (ht !!! Z.to_nat (hashPos small nrSlots seed name j)) 0)
    as [_ | Hnz]; [reflexivity |].
  destruct check; [| reflexivity].
  rewrite (Hnames _ (table_entry nrSlots members ht _ Htab
                       (slot_range small nrSlots seed members Hslots name j ht Htab) Hnz)).
  reflexivity.
Qed.

(** The lambda [insert] reads the buffer at member offsets only. *)
Lemma insert_agree k : forall (ht : list Z) e o check,
  table ht -> In o members ->
  insert k m1 small nrSlots seed objStart ht e o check
  = insert k m2 small nrSlots seed objStart ht e o check /\
  table (insert k m1 small nrSlots seed objStart ht e o check).1.1.
Proof.
  induction k as [| k IH]; intros ht e o check Htab Hin; [split; [reflexivity | exact Htab] |].
  cbn [insert]. rewrite <- (Hnames o Hin).
  destruct (findAttrName m1 (objStart +% o)) as [ex | name]; [split; [reflexivity | exact Htab] |].
  rewrite <- !probe_agree by exact Htab.
  pose proof (probe_cases m1 objStart check name ht (hashPos small nrSlots seed name 0) o) as H0.
  pose proof (probe_cases m1 objStart check name ht (hashPos small nrSlots seed name 1) o) as H1.
  pose proof (probe_cases m1 objStart check name ht (hashPos small nrSlots seed name 2) o) as H2.
  destruct (probe m1 objStart check name ht (hashPos small nrSlots seed name 0) o)
    as [ht0 | | ex0].
  { destruct H0 as [_ ->]. split; [reflexivity | apply table_insert; assumption]. }
  2: { split; [reflexivity | exact Htab]. }
  destruct (probe m1 objStart check name ht (hashPos small nrSlots seed name 1) o)
    as [ht1 | | ex1].
  { destruct H1 as [_ ->]. split; [reflexivity | apply table_insert; assumption]. }
  2: { split; [reflexivity | exact Htab]. }
  destruct (probe m1 objStart check name ht (hashPos small nrSlots seed name 2) o)
    as [ht2 | | ex2].
  { destruct H2 as [_ ->]. split; [reflexivity | apply table_insert; assumption]. }
  2: { split; [reflexivity | exact Htab]. }
  pose proof (uniform_0_2_range e) as Hi.
  destruct (uniform_0_2 e) as [i e']. cbn [fst] in Hi.
  assert (Htaken : ht !!! Z.to_nat (hashPos small nrSlots seed name i) <> 0).
  { assert (i = 0 \/ i = 1 \/ i = 2) as [-> | [-> | ->]] by lia; assumption. }
  apply IH.
  - apply table_insert; assumption.
  - apply (table_entry nrSlots members ht _ Htab
             (slot_range small nrSlots seed members Hslots name i ht Htab) Htaken).
Qed.

Lemma insertAll_agree k check : forall l (ht : list Z) e,
  table ht -> (forall o, In o l -> In o members) ->
  insertAll k m1 small nrSlots seed objStart check l ht e
  = insertAll k m2 small nrSlots seed objStart check l ht e.
Proof.
  induction l as [| o l IH]; intros ht e Htab Hsub; [reflexivity |].
  cbn [insertAll].
  destruct (insert_agree k ht e o check Htab (Hsub o (or_introl eq_refl))) as [<- Htab'].
  destruct (insert k m1 small nrSlots seed objStart ht e o check)
    as [[ht' e'] [[|] | ex |]]; try reflexivity.
  apply IH; [exact Htab' | intros o' Ho'; apply Hsub; right; exact Ho'].
Qed.

End OneTable.

Lemma trySeeds_agree s k small nrSlots check : forall seed e,
  0 < nrSlots ->
  trySeeds s k m1 small nrSlots objStart check members seed e
  = trySeeds s k m2 small nrSlots objStart check members seed e.
Proof.
  induction s as [| s IH]; intros seed e Hslots; [reflexivity |].
  cbn [trySeeds].
  rewrite <- (insertAll_agree small nrSlots seed Hslots k check members _ e
                (table_fresh nrSlots members) (fun o Ho => Ho)).
  destruct (insertAll k m1 small nrSlots seed objStart check members
              (replicate (Z.to_nat nrSlots) 0) e) as [[ht' e'] [[|] | ex |]]; try reflexivity.
  destruct (wrap8 (seed + 1) =? 0); [reflexivity | apply IH; exact Hslots].
Qed.

Lemma tryTables_agree rounds k check : forall nrSlots e,
  0 <= nrSlots ->
  tryTables rounds k m1 nrSlots objStart check members e
  = tryTables rounds k m2 nrSlots objStart check members e.
Proof.
  induction rounds as [| rounds IH]; intros nrSlots e Hge; [reflexivity |].
  cbn [tryTables].
  destruct (Z.eqb_spec nrSlots 0) as [_ | Hnz]; [reflexivity |].
  rewrite <- (trySeeds_agree 256 k (nrSlots <=? 0x1000000) nrSlots check 0 e ltac:(lia)).
  destruct (trySeeds 256 k m1 (nrSlots <=? 0x1000000) nrSlots objStart check members 0 e)
    as [e' [[[ht seed] |] | ex |]]; try reflexivity.
  apply IH. apply Z.div_pos; [apply wrap64_range | lia].
Qed.

End Agreement.

(** The slot count that [tryTables] returns is not zero. *)
Lemma tryTables_slots {P : Platform} rounds k m objStart check index :
  forall nrSlots e ht seed n,
    0 <= nrSlots ->
    tryTables rounds k m nrSlots objStart check index e = Ret (ht, seed, n) -> 0 < n.
Proof.
  induction rounds as [| rounds IH]; intros nrSlots e ht seed n Hge; [discriminate |].
  cbn [tryTables].
  destruct (Z.eqb_spec nrSlots 0) as [_ | Hnz]; [discriminate |].
  destruct (trySeeds 256 k m (nrSlots <=? 0x1000000) nrSlots objStart check index 0 e)
    as [e' [[[ht' seed'] |] | ex |]]; try discriminate.
  - intros Heq. injection Heq as _ _ <-. lia.
  - apply IH. apply Z.div_pos; [apply wrap64_range | lia].
Qed.

(** The object closer on two Builders that differ in the bytes from [_pos]
    on only: what it leaves differs in the bytes from the new [_pos] on
    only. *)
Lemma closeIndexedObject_agree (b : Builder) (m2 : Mem) (tos : Z) (ht : list Z)
    (seed nrSlots : Z) :
  sameBelow (_pos b) (_start b) m2 ->
  0 <= tos -> tos + 9 <= _pos b < 2^62 -> 0 <= nrSlots < 2^58 ->
  let b1' := closeIndexedObject tos ht seed nrSlots b in
  let b2' := closeIndexedObject tos ht seed nrSlots (withStart m2 b) in
  _pos b2' = _pos b1' /\ _stack b2' = _stack b1' /\ _index b2' = _index b1' /\
  _keyWritten b2' = _keyWritten b1' /\ options b2' = options b1' /\
  sameBelow (_pos b1') (_start b1') (_start b2').
Proof.
  intros Hsame Htos Hpos Hslots. cbv zeta.
  unfold closeIndexedObject.
  change (_pos (withStart m2 b)) with (_pos b).
  change (topIndex (withStart m2 b)) with (topIndex b).
  destruct (objectOffsetSize_cases tos (_pos b) nrSlots) as [Hw | [Hw | [Hw | Hw]]];
    rewrite Hw; clear Hw;
    cbn -[Z.mul Z.add Z.sub Z.to_nat Z.of_nat storeLE writeTable readBytes leBytes imap].
  all: split; [reflexivity |]; split; [reflexivity |]; split; [reflexivity |].
  all: split; [reflexivity |]; split; [reflexivity |].
  all: intros a Ha; revert Ha; unwrap; intros Ha.
  all: repeat first
         [ apply store_agree; intros ?
         | apply storeLE_agree; intros ?
         | apply writeTable_agree; [lia | lia | lia | lia | intros ?] ].
  all: try (destruct (Z.ltb_spec (tos + 9) (_pos b));
            [apply memmove_agree; intros ?; apply Hsame; lia | apply Hsame; lia]).
  all: apply Hsame; lia.
Qed.

Section Determinism.
Context {P : Platform}.

(** C8: the cuckoo-hash construction is a function of the bytes written so
    far, the innermost frame and the option checkAttributeUniqueness.  Two
    Builders with the same [_pos] whose buffers hold the same bytes below
    [_pos], whatever lies behind, and that agree on the head offset and the
    member offsets of the innermost compound, an object whose keys are
    strings, get the same table, seed and slot count from
    [computeCuckooHash], or the same exception: nothing else is read, and
    the engine behind the evictions is seeded anew with 123456789 in every
    call.  If the two Builders agree on the rest of their state as well,
    [close] in indexed form ends alike on both, and the closed objects are
    equal byte for byte: the Builders it leaves have the same [_pos], stack
    and member offsets, and the same bytes below [_pos]. *)
Theorem computeCuckooHash_deterministic (rounds : nat) (b1 b2 : Builder) (tos : Z)
    (rest1 rest2 : list Z) :
  _pos b2 = _pos b1 -> sameBelow (_pos b1) (_start b1) (_start b2) ->
  _stack b1 = rest1 ++ [tos] -> _stack b2 = rest2 ++ [tos] ->
  topIndex b2 = topIndex b1 ->
  checkAttributeUniqueness (options b2) = checkAttributeUniqueness (options b1) ->
  0 <= tos -> _pos b1 < 2^62 -> stringKeysInside b1 tos ->
  computeCuckooHash rounds b2 = computeCuckooHash rounds b1 /\
  (_stack b2 = _stack b1 -> _index b2 = _index b1 ->
   _keyWritten b2 = _keyWritten b1 -> options b2 = options b1 ->
   _start b1 tos = 0x0b -> tos + 9 <= _pos b1 -> topIndex b1 <> [] ->
   wantsCompact 0x0b (options b1) (topIndex b1) = false ->
   (forall ht seed nrSlots,
      computeCuckooHash rounds b1 = Ret (ht, seed, nrSlots) -> nrSlots < 2^58) ->
   snd (close rounds b2) = snd (close rounds b1) /\
   let b1' := fst (close rounds b1) in
   let b2' := fst (close rounds b2) in
   _pos b2' = _pos b1' /\ _stack b2' = _stack b1' /\ _index b2' = _index b1' /\
   _keyWritten b2' = _keyWritten b1' /\ options b2' = options b1' /\
   sameBelow (_pos b1') (_start b1') (_start b2')).
Proof.
  intros Hp Hsame Hs1 Hs2 Hidx Hcheck Htos Hpos Hkeys.
  assert (Hcuckoo : computeCuckooHash rounds b2 = computeCuckooHash rounds b1).
  { unfold computeCuckooHash. rewrite Hs1, Hs2, !last_last, Hidx, Hcheck.
    symmetry. apply tryTables_agree.
    - intros o Ho. unfold stringKeysInside in Hkeys. rewrite Forall_forall in Hkeys.
      destruct (Hkeys o ltac:(apply list_elem_of_In; exact Ho)) as (Ho0 & name & Hname & Hend).
      assert (Hin : tos + o < _pos b1).
      { unfold stringEnd in Hend. destruct (_start b1 (tos + o) =? 191); lia. }
      rewrite (wrap64_small (tos + o)) by lia.
      unfold findAttrName.
      rewrite Hname, (stringName_agree (_start b1) (_start b2) (tos + o) (_pos b1) name
                        ltac:(lia) Hsame Hname Hend).
      reflexivity.
    - unfold initialSlots. apply wrap64_range. }
  split; [exact Hcuckoo |].
  intros Hst Hix Hkw Hopt Hhead Hlow Hne Hwant Hbound.
  assert (Hb2 : b2 = withStart (_start b2) b1).
  { clear - Hp Hst Hix Hkw Hopt.
    destruct b1, b2. unfold withStart. cbn in *. subst. reflexivity. }
  assert (Hhead2 : _start b2 tos = 0x0b).
  { rewrite <- Hsame by lia. exact Hhead. }
  assert (Hclose : forall b rest, _stack b = rest ++ [tos] -> _start b tos = 0x0b ->
            topIndex b = topIndex b1 -> options b = options b1 ->
            close rounds b =
              match computeCuckooHash rounds b with
              | Ret (ht, seed, nrSlots) => (closeIndexedObject tos ht seed nrSlots b, Ret tt)
              | Throw ex => (b, Throw ex)
              | Spin => (b, Spin)
              end).
  { intros b rest Hs Hh Hi Ho.
    rewrite (close_unfold rounds b tos rest Hs) by (rewrite Hi; exact Hne).
    cbv zeta. rewrite Hh, Hi, Ho, Hwant.
    change ((11 =? 6) || (11 =? 19)) with false.
    unfold closeIndexed.
    rewrite (store_same (_start b) tos 11 Hh), withStart_same. reflexivity. }
  rewrite (Hclose b1 rest1 Hs1 Hhead eq_refl eq_refl).
  rewrite (Hclose b2 rest2 Hs2 Hhead2 Hidx Hopt).
  rewrite Hcuckoo.
  assert (Hplaces : forall ht seed nrSlots,
            computeCuckooHash rounds b1 = Ret (ht, seed, nrSlots) -> 0 < nrSlots).
  { intros ht seed nrSlots. unfold computeCuckooHash. apply tryTables_slots.
    unfold initialSlots. apply wrap64_range. }
  destruct (computeCuckooHash rounds b1) as [[[ht seed] nrSlots] | ex |] eqn:Hres;
    cbn [fst snd].
  - split; [reflexivity |].
    pose proof (Hplaces ht seed nrSlots eq_refl) as Hn.
    rewrite Hb2.
    apply closeIndexedObject_agree; try assumption; try lia.
    specialize (Hbound ht seed nrSlots eq_refl). lia.
  - split; [reflexivity |]. cbv zeta. auto 10.
  - split; [reflexivity |]. cbv zeta. auto 10.
Qed.

End Determinism.

Lemma computeCuckooHash_deterministic_witness :
  _start scribbledObject 15 <> _start twoMemberObject 15 /\
  computeCuckooHash 1 scribbledObject = computeCuckooHash 1 twoMemberObject /\
  snd (close 1 scribbledObject) = snd (close 1 twoMemberObject) /\
  _pos (fst (close 1 scribbledObject)) = _pos (fst (close 1 twoMemberObject)) /\
  sameBelow (_pos (fst (close 1 twoMemberObject)))
    (_start (fst (close 1 twoMemberObject))) (_start (fst (close 1 scribbledObject))).
Proof.
  split; [vm_compute; discriminate |].
  destruct (computeCuckooHash_deterministic 1 twoMemberObject scribbledObject 0 [] [])
    as [Hcuckoo Hclose].
  - reflexivity.
  - intros a Ha. unfold scribbledObject. cbn [_start withStart].
    rewrite store_ne; [reflexivity |]. change (_pos twoMemberObject) with 15 in Ha. lia.
  - reflexivity.
  - reflexivity.
  - reflexivity.
  - reflexivity.
  - lia.
  - vm_compute. reflexivity.
  - unfold stringKeysInside. change (topIndex twoMemberObject) with [9; 12].
    repeat (apply Forall_cons_2;
            [split; [lia | eexists; split; [vm_compute; reflexivity | vm_compute; discriminate]] |]).
    apply Forall_nil_2.
  - split; [exact Hcuckoo |].
    destruct Hclose as (Hres & Hp & _ & _ & _ & _ & Hbytes).
    + reflexivity.
    + reflexivity.
    + reflexivity.
    + reflexivity.
    + reflexivity.
    + vm_compute. discriminate.
    + discriminate.
    + reflexivity.
    + intros ht seed nrSlots Hret. vm_compute in Hret. injection Hret as _ _ <-. lia.
    + split; [exact Hres |]. split; [exact Hp | exact Hbytes].
Defined.

(** * Further properties *)

(** ** What the cuckoo table holds *)

Section Placement.
Context {P : Platform}.
Variables (m : Mem) (small : bool) (nrSlots seed objStart : Z).
Variables (members : list Z).
Hypothesis Hslots : 0 < nrSlots.

Local Abbreviation slot name j := (Z.to_nat (hashPos small nrSlots seed name j)).
Local Abbreviation nameAt o := (findAttrName m (objStart +% o)).
Local Abbreviation table := (tableOf nrSlots members).
Local Abbreviation found := (placed m small nrSlots seed objStart).

Lemma hashPos_range name j : 0 <= hashPos small nrSlots seed name j < nrSlots.
Proof.
  unfold hashPos. destruct small;
    [apply fastModulo32Bit_range; lia | apply Z.mod_pos_bound; lia].
Qed.

(** A member offset goes into a slot of its name: it is found, and so is
    every member that was found before, unless it sat in that slot. *)
Lemma placed_insert (ht : list Z) name j o x :
  table ht -> nameAt o = inr name -> 0 <= j <= 2 ->
  x = o \/ found ht x ->
  found (<[slot name j := o]> ht) x \/ (x <> o /\ x = ht !!! slot name j).
Proof.
  intros Htab Hname Hj Hx.
  pose proof (slot_range small nrSlots seed members Hslots name j ht Htab) as Hr.
  destruct (decide (x = o)) as [-> | Hne].
  - left. exists name, j. split; [exact Hname |]. split; [exact Hj |].
    split; [apply hashPos_range |].
    rewrite insert_lookup by exact Hr.
    destruct (decide (slot name j = slot name j)); [reflexivity | contradiction].
  - destruct Hx as [Hx | (n' & j' & Hn' & Hj' & Hrange & Hat)]; [contradiction |].
    destruct (decide (slot name j = slot n' j')) as [Heq | Hns].
    + right. split; [exact Hne |]. rewrite Heq. symmetry. exact Hat.
    + left. exists n', j'. split; [exact Hn' |]. split; [exact Hj' |].
      split; [exact Hrange |].
      rewrite insert_lookup by exact Hr.
      destruct (decide (slot name j = slot n' j')); [contradiction | exact Hat].
Qed.

(** One call of the lambda [insert]: when it returns true, the table is one
    of members still, and the member in flight and every member that was
    found before are found. *)
Lemma insert_places k : forall (ht : list Z) e o check (Q : Z -> Prop),
  table ht -> In o members ->
  match insert k m small nrSlots seed objStart ht e o check with
  | (ht', _, Ret true) =>
      table ht' /\
      ((forall x, Q x -> x <> 0 /\ (x = o \/ found ht x)) -> forall x, Q x -> found ht' x)
  | _ => True
  end.
Proof.
  induction k as [| k IH]; intros ht e o check Q Htab Hin; [exact I |].
  cbn [insert].
  destruct (nameAt o) as [ex | name] eqn:Hname; [exact I |].
  pose proof (probe_cases m objStart check name ht (hashPos small nrSlots seed name 0) o) as H0.
  pose proof (probe_cases m objStart check name ht (hashPos small nrSlots seed name 1) o) as H1.
  pose proof (probe_cases m objStart check name ht (hashPos small nrSlots seed name 2) o) as H2.
  assert (Hplace : forall j, 0 <= j <= 2 -> ht !!! slot name j = 0 ->
            table (<[slot name j := o]> ht) /\
            ((forall x, Q x -> x <> 0 /\ (x = o \/ found ht x)) ->
             forall x, Q x -> found (<[slot name j := o]> ht) x)).
  { intros j Hj Hfree. split; [apply table_insert; assumption |].
    intros HQ x Hx. destruct (HQ x Hx) as [Hnz Hcase].
    destruct (placed_insert ht name j o x Htab Hname Hj Hcase) as [Hok | [_ Heq]];
      [exact Hok |].
    rewrite Hfree in Heq. contradiction. }
  destruct (probe m objStart check name ht (hashPos small nrSlots seed name 0) o)
    as [ht0 | | ex0] eqn:Hp0.
  { destruct H0 as [Hfree ->]. apply Hplace; [lia | exact Hfree]. }
  2: exact I.
  destruct (probe m objStart check name ht (hashPos small nrSlots seed name 1) o)
    as [ht1 | | ex1] eqn:Hp1.
  { destruct H1 as [Hfree ->]. apply Hplace; [lia | exact Hfree]. }
  2: exact I.
  destruct (probe m objStart check name ht (hashPos small nrSlots seed name 2) o)
    as [ht2 | | ex2] eqn:Hp2.
  { destruct H2 as [Hfree ->]. apply Hplace; [lia | exact Hfree]. }
  2: exact I.
  pose proof (uniform_0_2_range e) as Hi.
  destruct (uniform_0_2 e) as [i e'] eqn:Hdraw. cbn [fst] in Hi.
  assert (Htaken : ht !!! slot name i <> 0).
  { assert (i = 0 \/ i = 1 \/ i = 2) as [-> | [-> | ->]] by lia; assumption. }
  pose proof (slot_range small nrSlots seed members Hslots name i ht Htab) as Hr.
  specialize (IH (<[slot name i := o]> ht) e' (ht !!! slot name i) false Q
                (table_insert nrSlots members ht _ o Htab Hin)
                (table_entry nrSlots members ht _ Htab Hr Htaken)).
  destruct (insert k m small nrSlots seed objStart (<[slot name i := o]> ht) e'
              (ht !!! slot name i) false) as [[ht' e''] [[|] | ex |]]; try exact I.
  destruct IH as [Htab' Hfound]. split; [exact Htab' |].
  intros HQ. apply Hfound.
  intros x Hx. destruct (HQ x Hx) as [Hnz Hcase]. split; [exact Hnz |].
  destruct (placed_insert ht name i o x Htab Hname Hi Hcase) as [Hok | [_ Heq]];
    [right; exact Hok | left; exact Heq].
Qed.

(** The loop over the members: when it runs to its end, all of them are
    found, together with those that were found before. *)
Lemma insertAll_places k check : forall l (ht : list Z) e (Q : Z -> Prop),
  table ht -> (forall o, In o l -> In o members) ->
  match insertAll k m small nrSlots seed objStart check l ht e with
  | (ht', _, Ret true) =>
      table ht' /\
      (Forall (fun o => o <> 0) l -> (forall x, Q x -> x <> 0 /\ found ht x) ->
       forall x, Q x \/ In x l -> found ht' x)
  | _ => True
  end.
Proof.
  induction l as [| o l IH]; intros ht e Q Htab Hsub.
  - cbn [insertAll]. split; [exact Htab |].
    intros _ HQ x [Hx | []]. apply HQ. exact Hx.
  - cbn [insertAll].
    assert (Hin : In o members) by (apply Hsub; left; reflexivity).
    pose proof (insert_places k ht e o check (fun x => Q x \/ x = o) Htab Hin) as Hins.
    destruct (insert k m small nrSlots seed objStart ht e o check)
      as [[ht1 e1] [[|] | ex |]]; try exact I.
    destruct Hins as [Htab1 Hfound1].
    specialize (IH ht1 e1 (fun x => Q x \/ x = o) Htab1
                  (fun o' H => Hsub o' (or_intror H))).
    destruct (insertAll k m small nrSlots seed objStart check l ht1 e1)
      as [[ht2 e2] [[|] | ex |]]; try exact I.
    destruct IH as [Htab2 Hfound2].
    split; [exact Htab2 |].
    intros Hnz HQ.
    apply Forall_cons in Hnz as [Ho Hl].
    assert (Hstep : forall x, Q x \/ x = o -> x <> 0 /\ (x = o \/ found ht x)).
    { intros x [Hx | ->].
      - destruct (HQ x Hx) as [Hnz Hf]. split; [exact Hnz | right; exact Hf].
      - split; [exact Ho | left; reflexivity]. }
    specialize (Hfound1 Hstep).
    assert (Hall : forall x, Q x \/ x = o -> x <> 0 /\ found ht1 x).
    { intros x Hx. split; [apply Hstep; exact Hx | apply Hfound1; exact Hx]. }
    intros x [Hx | [-> | Hx]]; apply (Hfound2 Hl Hall); auto.
Qed.

End Placement.

Section PlacementResult.
Context {P : Platform}.
Variables (m : Mem) (objStart : Z) (check : bool) (index : list Z).

(** A seed that gives a table gives one in which the members are found. *)
Lemma trySeeds_places s k small nrSlots : forall seed e,
  0 < nrSlots -> 0 <= seed <= 255 ->
  match trySeeds s k m small nrSlots objStart check index seed e with
  | (_, Ret (Some (ht, seed'))) =>
      0 <= seed' <= 255 /\ tableOf nrSlots index ht /\
      (Forall (fun o => o <> 0) index ->
       forall o, In o index -> placed m small nrSlots seed' objStart ht o)
  | _ => True
  end.
Proof.
  intros seed e Hslots. revert seed e.
  induction s as [| s IH]; intros seed e Hseed; [exact I |].
  cbn [trySeeds].
  pose proof (insertAll_places m small nrSlots seed objStart index Hslots k check
                index (replicate (Z.to_nat nrSlots) 0) e (fun _ => False)
                (table_fresh nrSlots index) (fun o Ho => Ho)) as Hspec.
  destruct (insertAll k m small nrSlots seed objStart check index
              (replicate (Z.to_nat nrSlots) 0) e) as [[ht' e'] [[|] | ex |]]; try exact I.
  - destruct Hspec as [Htab Hfound]. split; [exact Hseed |]. split; [exact Htab |].
    intros Hnz o Ho. apply (Hfound Hnz); [intros x [] | right; exact Ho].
  - destruct (Z.eqb_spec (wrap8 (seed + 1)) 0) as [_ | Hne]; [exact I |].
    apply IH. unfold wrap8 in *. Z.to_euclidean_division_equations; lia.
Qed.

(** So does a table size. *)
Lemma tryTables_places rounds k : forall nrSlots e,
  0 <= nrSlots ->
  match tryTables rounds k m nrSlots objStart check index e with
  | Ret (ht, seed, n) =>
      0 < n /\ 0 <= seed <= 255 /\ tableOf n index ht /\
      (Forall (fun o => o <> 0) index ->
       forall o, In o index -> placed m (n <=? 0x1000000) n seed objStart ht o)
  | _ => True
  end.
Proof.
  induction rounds as [| rounds IH]; intros nrSlots e Hslots; [exact I |].
  cbn [tryTables].
  destruct (Z.eqb_spec nrSlots 0) as [_ | Hnz]; [exact I |].
  pose proof (trySeeds_places 256 k (nrSlots <=? 0x1000000) nrSlots 0 e
                ltac:(lia) ltac:(lia)) as Hseeds.
  destruct (trySeeds 256 k m (nrSlots <=? 0x1000000) nrSlots objStart check index 0 e)
    as [e' [[[ht seed] |] | ex |]]; try exact I.
  - split; [lia | exact Hseeds].
  - apply IH. apply Z.div_pos; [apply wrap64_range | lia].
Qed.

End PlacementResult.

Section CuckooResult.
Context {P : Platform}.

Lemma computeCuckooHash_places (rounds : nat) (b : Builder) :
  match computeCuckooHash rounds b with
  | Ret (ht, seed, n) =>
      0 < n /\ 0 <= seed <= 255 /\ tableOf n (topIndex b) ht /\
      (Forall (fun o => o <> 0) (topIndex b) ->
       forall o, In o (topIndex b) ->
       placed (_start b) (n <=? 0x1000000) n seed (List.last (_stack b) 0) ht o)
  | _ => True
  end.
Proof.
  unfold computeCuckooHash. apply tryTables_places.
  unfold initialSlots. apply wrap64_range.
Qed.

(** X1: the table that [computeCuckooHash] returns answers every lookup.
    If no member offset is zero (zero marks an empty slot), then for each
    member of the object one of the three slots that its attribute name
    hashes to, under the returned seed and slot count, holds the offset of
    this very member; the slot count is positive, the slots are inside the
    table and the seed is a byte. *)
Theorem computeCuckooHash_lookup (rounds : nat) (b : Builder) (ht : list Z)
    (seed nrSlots : Z) :
  Forall (fun o => o <> 0) (topIndex b) ->
  computeCuckooHash rounds b = Ret (ht, seed, nrSlots) ->
  0 < nrSlots /\ 0 <= seed <= 255 /\ length ht = Z.to_nat nrSlots /\
  forall o, In o (topIndex b) ->
    placed (_start b) (nrSlots <=? 0x1000000) nrSlots seed (List.last (_stack b) 0) ht o.
Proof.
  intros Hnz Hres.
  pose proof (computeCuckooHash_places rounds b) as H. rewrite Hres in H.
  destruct H as (Hn & Hseed & [Hlen _] & Hfound).
  split; [exact Hn |]. split; [exact Hseed |]. split; [exact Hlen |].
  exact (Hfound Hnz).
Qed.

(** X2: the table that [computeCuckooHash] returns points nowhere but to
    members: it has as many entries as the returned slot count says, and
    each entry is zero, for an empty slot, or the offset of a member of the
    object. *)
Theorem computeCuckooHash_entries (rounds : nat) (b : Builder) (ht : list Z)
    (seed nrSlots : Z) :
  computeCuckooHash rounds b = Ret (ht, seed, nrSlots) ->
  Z.of_nat (length ht) = nrSlots /\
  forall i, (i < length ht)%nat -> ht !!! i = 0 \/ In (ht !!! i) (topIndex b).
Proof.
  intros Hres.
  pose proof (computeCuckooHash_places rounds b) as H. rewrite Hres in H.
  destruct H as (Hn & _ & [Hlen Hall] & _).
  split; [lia |].
  intros i Hi. rewrite Forall_forall in Hall. apply Hall.
  apply list_elem_of_lookup_total_2. exact Hi.
Qed.

End CuckooResult.

Lemma computeCuckooHash_lookup_witness :
  0 < 3 /\ 0 <= 0 <= 255 /\ length [0; 9; 12] = Z.to_nat 3 /\
  forall o, In o (topIndex twoMemberObject) ->
    placed (_start twoMemberObject) (3 <=? 0x1000000) 3 0
      (List.last (_stack twoMemberObject) 0) [0; 9; 12] o.
Proof.
  apply (computeCuckooHash_lookup 1 twoMemberObject [0; 9; 12] 0 3).
  - repeat constructor; discriminate.
  - vm_compute. reflexivity.
Defined.

Lemma computeCuckooHash_entries_witness :
  Z.of_nat (length [0; 9; 12]) = 3 /\
  forall i, (i < length [0; 9; 12])%nat ->
    [0; 9; 12] !!! i = 0 \/ In ([0; 9; 12] !!! i) (topIndex twoMemberObject).
Proof.
  apply (computeCuckooHash_entries 1 twoMemberObject [0; 9; 12] 0 3).
  vm_compute. reflexivity.
Defined.

(** ** Objects whose attribute names differ *)

Section DistinctNames.
Context {P : Platform}.
Variables (m : Mem) (objStart : Z).

Local Abbreviation nameAt o := (findAttrName m (objStart +% o)).

(** One call of the lambda [insert] throws nothing when the members resolve
    and no tenant of the table has the name of the member that comes in. *)
Lemma insert_quiet small nrSlots seed members k : forall (ht : list Z) e o check,
  0 < nrSlots -> membersResolve m objStart members ->
  tableOf nrSlots members ht -> In o members ->
  (check = true ->
   forall i, (i < length ht)%nat -> ht !!! i <> 0 -> nameAt (ht !!! i) <> nameAt o) ->
  match insert k m small nrSlots seed objStart ht e o check with
  | (ht', _, Ret true) => tableOf nrSlots members ht'
  | (_, _, Throw _) => False
  | _ => True
  end.
Proof.
  induction k as [| k IH]; intros ht e o check Hslots Hmem Htab Hin Hfresh; [exact I |].
  cbn [insert].
  destruct (member_resolves m objStart members Hmem o Hin) as [Ho [name Hname]].
  rewrite Hname.
  assert (Hprobe : forall j,
            match probe m objStart check name ht (hashPos small nrSlots seed name j) o with
            | Stored ht' => tableOf nrSlots members ht'
            | Occupied => ht !!! Z.to_nat (hashPos small nrSlots seed name j) <> 0
            | Raised _ => False
            end).
  { intros j.
    pose proof (probe_cases m objStart check name ht (hashPos small nrSlots seed name j) o)
      as Hc.
    pose proof (slot_range small nrSlots seed members Hslots name j ht Htab) as Hr.
    destruct (probe m objStart check name ht (hashPos small nrSlots seed name j) o)
      as [ht' | | ex].
    - destruct Hc as [_ ->]. apply table_insert; assumption.
    - exact Hc.
    - destruct Hc as (Hnz & Hcheck & Hcase).
      destruct (member_resolves m objStart members Hmem _
                  (table_entry nrSlots members ht _ Htab Hr Hnz)) as [_ [other Hother]].
      destruct Hcase as [Hbad | [Hsame _]]; [congruence |].
      apply (Hfresh Hcheck _ Hr Hnz). rewrite Hsame, Hname. reflexivity. }
  pose proof (Hprobe 0) as H0. pose proof (Hprobe 1) as H1. pose proof (Hprobe 2) as H2.
  destruct (probe m objStart check name ht (hashPos small nrSlots seed name 0) o);
    [exact H0 | | exact H0].
  destruct (probe m objStart check name ht (hashPos small nrSlots seed name 1) o);
    [exact H1 | | exact H1].
  destruct (probe m objStart check name ht (hashPos small nrSlots seed name 2) o);
    [exact H2 | | exact H2].
  pose proof (uniform_0_2_range e) as Hi.
  destruct (uniform_0_2 e) as [i e'] eqn:Hdraw. cbn [fst] in Hi.
  assert (Htaken : ht !!! Z.to_nat (hashPos small nrSlots seed name i) <> 0).
  { assert (i = 0 \/ i = 1 \/ i = 2) as [-> | [-> | ->]] by lia; assumption. }
  pose proof (slot_range small nrSlots seed members Hslots name i ht Htab) as Hr.
  apply IH; try assumption.
  - apply table_insert; assumption.
  - apply (table_entry nrSlots members ht _ Htab Hr Htaken).
  - discriminate.
Qed.

Lemma tableOf_more nrSlots (l l' ht : list Z) :
  (forall o, In o l -> In o l') -> tableOf nrSlots l ht -> tableOf nrSlots l' ht.
Proof.
  intros Hsub [Hlen Hall]. split; [exact Hlen |].
  eapply Forall_impl; [exact Hall |].
  intros x [H0 | Hin]; [left; exact H0 | right; apply Hsub; exact Hin].
Qed.

(** The loop over the members throws nothing when their names are pairwise
    distinct. *)
Lemma insertAll_quiet small nrSlots seed k check : forall l done (ht : list Z) e,
  0 < nrSlots -> membersResolve m objStart (done ++ l) ->
  List.NoDup (memberNames m objStart (done ++ l)) ->
  tableOf nrSlots done ht ->
  match insertAll k m small nrSlots seed objStart check l ht e with
  | (ht', _, Ret true) => tableOf nrSlots (done ++ l) ht'
  | (_, _, Throw _) => False
  | _ => True
  end.
Proof.
  induction l as [| o l IH]; intros done ht e Hslots Hmem Hnd Htab.
  - cbn [insertAll]. rewrite app_nil_r. exact Htab.
  - cbn [insertAll].
    assert (Hmem1 : membersResolve m objStart (done ++ [o])).
    { unfold membersResolve in *. apply Forall_app in Hmem as [Hd Hl].
      apply Forall_cons in Hl as [Ho _]. apply Forall_app. split; [exact Hd |].
      apply Forall_cons. split; [exact Ho | apply Forall_nil; exact I]. }
    assert (Hfresh : forall x, In x done -> nameAt x <> nameAt o).
    { intros x Hx Heq. pose proof Hnd as Hnd'.
      unfold memberNames in Hnd'. rewrite map_app in Hnd'. cbn [map] in Hnd'.
      apply List.NoDup_remove_2 in Hnd'. apply Hnd'. apply in_or_app. left.
      rewrite <- Heq.
      exact (in_map (fun o => findAttrName m (objStart +% o)) done x Hx). }
    pose proof (insert_quiet small nrSlots seed (done ++ [o]) k ht e o check Hslots Hmem1)
      as Hins.
    assert (Htab1 : tableOf nrSlots (done ++ [o]) ht).
    { eapply tableOf_more; [| exact Htab]. intros x Hx. apply in_or_app. left. exact Hx. }
    specialize (Hins Htab1 ltac:(apply in_or_app; right; left; reflexivity)).
    assert (Hcheck : check = true ->
              forall i, (i < length ht)%nat -> ht !!! i <> 0 ->
              nameAt (ht !!! i) <> nameAt o).
    { intros _ i Hi Hnz. apply Hfresh. apply (table_entry nrSlots done ht i Htab Hi Hnz). }
    specialize (Hins Hcheck).
    destruct (insert k m small nrSlots seed objStart ht e o check)
      as [[ht1 e1] [[|] | ex |]]; try exact Hins.
    replace (done ++ o :: l) with ((done ++ [o]) ++ l) in *
      by (rewrite <- app_assoc; reflexivity).
    apply IH; assumption.
Qed.

Variables (check : bool) (index : list Z).
Hypothesis Hmembers : membersResolve m objStart index.
Hypothesis Hdistinct : List.NoDup (memberNames m objStart index).

Lemma trySeeds_quiet s k small nrSlots : forall seed e,
  0 < nrSlots ->
  match trySeeds s k m small nrSlots objStart check index seed e with
  | (_, Throw _) => False
  | _ => True
  end.
Proof.
  intros seed e Hslots. revert seed e.
  induction s as [| s IH]; intros seed e; [exact I |].
  cbn [trySeeds].
  pose proof (insertAll_quiet small nrSlots seed k check index []
                (replicate (Z.to_nat nrSlots) 0) e Hslots Hmembers Hdistinct
                (table_fresh nrSlots [])) as Hq.
  destruct (insertAll k m small nrSlots seed objStart check index
              (replicate (Z.to_nat nrSlots) 0) e) as [[ht' e'] [[|] | ex |]];
    try exact I; [| exact Hq].
  destruct (wrap8 (seed + 1) =? 0); [exact I | apply IH].
Qed.

Lemma tryTables_quiet rounds k : forall nrSlots e ex,
  0 <= nrSlots ->
  tryTables rounds k m nrSlots objStart check index e <> Throw ex.
Proof.
  induction rounds as [| rounds IH]; intros nrSlots e ex Hslots; [discriminate |].
  cbn [tryTables].
  destruct (Z.eqb_spec nrSlots 0) as [_ | Hnz]; [discriminate |].
  pose proof (trySeeds_quiet 256 k (nrSlots <=? 0x1000000) nrSlots 0 e ltac:(lia)) as Hseeds.
  destruct (trySeeds 256 k m (nrSlots <=? 0x1000000) nrSlots objStart check index 0 e)
    as [e' [[[ht seed] |] | ex' |]]; try discriminate.
  - apply IH. apply Z.div_pos; [apply wrap64_range | lia].
  - destruct Hseeds.
Qed.

End DistinctNames.

Section DistinctNamesClose.
Context {P : Platform}.

Lemma computeCuckooHash_quiet (rounds : nat) (b : Builder) (ex : Exception) :
  membersResolve (_start b) (List.last (_stack b) 0) (topIndex b) ->
  List.NoDup (memberNames (_start b) (List.last (_stack b) 0) (topIndex b)) ->
  computeCuckooHash rounds b <> Throw ex.
Proof.
  intros Hmem Hnd. unfold computeCuckooHash.
  apply tryTables_quiet; [exact Hmem | exact Hnd |].
  unfold initialSlots. apply wrap64_range.
Qed.

(** X3: no false alarm.  When an object was opened in indexed form, the key
    of each of its members leads to an attribute name and these names are
    pairwise distinct, [close] throws nothing, with the uniqueness check on
    or off: the exception DuplicateAttributeName is raised for byte-equal
    names only, never for two names that merely share a slot. *)
Theorem close_distinct_names (rounds : nat) (b : Builder) (tos : Z) (rest : list Z)
    (ex : Exception) :
  _stack b = rest ++ [tos] -> _start b tos = 0x0b ->
  membersResolve (_start b) tos (topIndex b) ->
  List.NoDup (memberNames (_start b) tos (topIndex b)) ->
  snd (close rounds b) <> Throw ex.
Proof.
  intros Hs Hhead Hmem Hnd.
  destruct (topIndex b) as [| o0 l] eqn:Hidx.
  { unfold close. rewrite Hs, last_snoc, Hidx. discriminate. }
  rewrite (close_unfold rounds b tos rest Hs) by (rewrite Hidx; discriminate).
  cbv zeta. rewrite Hhead. cbn [Z.eqb Pos.eqb orb].
  assert (Hindexed : snd (closeIndexed rounds tos false b) <> Throw ex).
  { unfold closeIndexed.
    rewrite (store_same (_start b) tos 11 Hhead), withStart_same.
    pose proof (computeCuckooHash_quiet rounds b ex) as Hq.
    rewrite Hs, last_last, Hidx in Hq. specialize (Hq Hmem Hnd).
    destruct (computeCuckooHash rounds b) as [[[ht seed] n] | ex' |]; cbn [snd];
      [discriminate | | discriminate].
    intros Heq. apply Hq. injection Heq as ->. reflexivity. }
  destruct (wantsCompact 11 (options b) (topIndex b)).
  - unfold closeCompactArrayOrObject.
    destruct (compactSizes tos (_pos b) (Z.of_nat (length (topIndex b)))) as [byteSize bLen].
    destruct (bLen <? 9); [discriminate | exact Hindexed].
  - exact Hindexed.
Qed.

End DistinctNamesClose.

Lemma close_distinct_names_witness :
  checkAttributeUniqueness (options checkedObject) = true /\
  hashPos true 3 0 [110] 0 = hashPos true 3 0 [112] 0 /\
  snd (close 1 checkedObject) <> Throw DuplicateAttributeName /\
  snd (close 1 checkedObject) = Ret tt.
Proof.
  split; [reflexivity |]. split; [vm_compute; reflexivity |].
  split; [| vm_compute; reflexivity].
  apply (close_distinct_names 1 checkedObject 0 []).
  - reflexivity.
  - reflexivity.
  - unfold membersResolve. change (topIndex checkedObject) with [9; 12].
    repeat (apply Forall_cons_2;
            [split; [discriminate | eexists; vm_compute; reflexivity] |]).
    apply Forall_nil_2.
  - vm_compute. repeat constructor; cbn; intuition discriminate.
Defined.

(** ** What the array closer keeps and what it writes *)

Lemma readBytes_writeTable_outside n k w m tableBase tab i0 p :
  0 <= w -> 0 <= i0 -> 0 <= tableBase ->
  tableBase + w * (i0 + Z.of_nat k) < 18446744073709551616 ->
  p + Z.of_nat n <= tableBase + w * i0 \/ tableBase + w * (i0 + Z.of_nat k) <= p ->
  readBytes (writeTable k w m tableBase tab i0) p n = readBytes m p n.
Proof.
  intros Hw Hi0 Hb Hlt Hp. apply readBytes_ext. intros i Hi.
  apply writeTable_outside; try assumption. lia.
Qed.

(** Entry [i] of a table that [writeTable] has written. *)
Lemma writeTable_read k : forall w m tableBase tab i0 i,
  0 <= w -> 0 <= i0 -> 0 <= tableBase ->
  tableBase + w * (i0 + Z.of_nat k) < 18446744073709551616 ->
  i0 <= i < i0 + Z.of_nat k ->
  readBytes (writeTable k w m tableBase tab i0) (tableBase + w * i) (Z.to_nat w)
  = leBytes (Z.to_nat w) (tab !!! Z.to_nat i).
Proof.
  induction k as [| k IH]; intros w m tableBase tab i0 i Hw Hi0 Hb Hlt Hi; [lia |].
  cbn [writeTable].
  destruct (Z.eq_dec i i0) as [-> | Hne].
  - rewrite readBytes_writeTable_outside by nia.
    unwrap. apply readBytes_storeLE.
  - apply IH; lia.
Qed.

Lemma insert_top_length {A : Type} (l : list (list A)) (d : nat) (f : A -> A) :
  length (<[d := map f (l !!! d)]> l !!! d) = length (l !!! d).
Proof.
  destruct (decide (d < length l)%nat) as [Hd | Hd].
  - rewrite list_lookup_total_insert_eq by exact Hd. apply length_map.
  - rewrite list_insert_ge by lia. reflexivity.
Qed.

Lemma topIndex_insert_length (b : Builder) (f : Z -> Z) :
  length (<[depth b := map f (topIndex b)]> (_index b) !!! depth b) = length (topIndex b).
Proof. apply insert_top_length. Qed.

(** The array closer when nothing wraps around: the Builder it leaves,
    write by write. *)
Lemma closeArray_normal (b : Builder) (tos : Z) :
  0 <= tos -> tos + 9 <= _pos b < 2^62 -> Z.of_nat (length (topIndex b)) < 2^58 ->
  let n := Z.of_nat (length (topIndex b)) in
  let t := needTable tos (_pos b) (topIndex b) in
  let w := arrayOffsetSize tos (_pos b) n t t in
  let d := if w =? 1 then (if t then 6 else 7) else 0 in
  let total := arrayFinalLength w (_pos b - tos) n t in
  let m0 := store (_start b) tos 6 in
  let m1 := if (w =? 1) && (tos + 9 <? _pos b)
            then memmove m0 (tos + 9 - d) (tos + 9) (_pos b - (tos + 9)) else m0 in
  let idx := if (w =? 1) && t
             then <[depth b := map (fun x => x -% 6) (topIndex b)]> (_index b)
             else _index b in
  let m2 := if t then writeTable (length (idx !!! depth b)) w m1 (_pos b - d) (idx !!! depth b) 0
            else store m1 tos 2 in
  let m3 := if 1 <? w then store m2 tos (wrap8 (m2 tos + Z.log2 w)) else m2 in
  let m4 := if (w =? 8) && t then storeLE 8 m3 (_pos b + 8 * n) n else m3 in
  let m5 := storeLE (Z.to_nat w) m4 (tos + 1) total in
  let m6 := if (w <? 8) && t then storeLE (Z.to_nat w) m5 (tos + (w + 1)) n else m5 in
  closeArray tos b =
  {| _start := m6; _pos := tos + total; _stack := removelast (_stack b); _index := idx;
     _keyWritten := _keyWritten b; options := options b |}.
Proof.
  intros Htos Hpos Hn n t w.
  pose proof (arrayOffsetSize_cases tos (_pos b) n t t) as Hcases. fold w in Hcases.
  unfold closeArray; cbv zeta.
  change (topIndex (withStart (store (_start b) tos 6) b)) with (topIndex b).
  change (_pos (withStart (store (_start b) tos 6) b)) with (_pos b).
  fold n. fold t. fold w.
  subst n. clearbody w t.
  destruct Hcases as [-> | [-> | [-> | ->]]]; destruct t.
  all: unfold arrayFinalLength.
  all: cbn -[Z.mul Z.add Z.sub Z.to_nat Z.of_nat storeLE writeTable readBytes leBytes].
  all: change (9 - 3) with 6; change (9 - 2) with 7; change (Z.of_nat 8) with 8.
  all: unwrap.
  all: cbv [popStack withStart withPos withStack setTopIndex withIndex];
       cbn [_start _pos _stack _index _keyWritten options].
  all: repeat first [reflexivity | lia | f_equal].
  all: destruct (tos + 9 <? _pos b); repeat first [reflexivity | lia | f_equal].
Qed.

(** Brings a goal about [closeArray] into a form in which the writes can be
    peeled off one by one. *)
Ltac array_cases b tos Htos Hpos Hn :=
  rewrite (closeArray_normal b tos Htos Hpos Hn); cbv zeta;
  cbn [_start _pos _stack _index];
  let Hw := fresh "Hw" in
  destruct (arrayOffsetSize_cases tos (_pos b) (Z.of_nat (length (topIndex b)))
              (needTable tos (_pos b) (topIndex b)) (needTable tos (_pos b) (topIndex b)))
    as [Hw | [Hw | [Hw | Hw]]]; rewrite Hw; clear Hw;
  destruct (needTable tos (_pos b) (topIndex b));
  cbn -[Z.mul Z.add Z.sub Z.to_nat Z.of_nat storeLE writeTable readBytes leBytes depth topIndex];
  change (9 - 6) with 3; change (9 - 7) with 2;
  change (1 + 1) with 2; change (2 + 1) with 3; change (4 + 1) with 5;
  change (_index b !!! depth b) with (topIndex b);
  rewrite ?Z.sub_0_r, ?topIndex_insert_length.

(** X4: the array closer keeps the bytes of the members.  The members lie
    from offset 9 of the array to [_pos]; after the close every one of
    these bytes is found [d] bytes further down, where [d] is 6 (index
    table) or 7 (no index table) when the chosen width is 1, the members
    having been moved up to the short header, and 0 for the wider headers,
    under which they stay where they are. *)
Theorem closeArray_members_kept (b : Builder) (tos : Z) :
  0 <= tos -> tos + 9 <= _pos b < 2^62 -> Z.of_nat (length (topIndex b)) < 2^58 ->
  let n := Z.of_nat (length (topIndex b)) in
  let t := needTable tos (_pos b) (topIndex b) in
  let w := arrayOffsetSize tos (_pos b) n t t in
  let d := if w =? 1 then (if t then 6 else 7) else 0 in
  forall a, tos + 9 <= a < _pos b -> _start (closeArray tos b) (a - d) = _start b a.
Proof.
  intros Htos Hpos Hn n t w d a Ha. subst d w t n.
  array_cases b tos Htos Hpos Hn.
  all: peel.
  all: try (destruct (Z.ltb_spec (tos + 9) (_pos b)); [| lia];
            rewrite memmove_inside by lia; rewrite store_ne by lia; f_equal; lia).
  all: f_equal; lia.
Qed.


(** X5: the index table of an array.  When the array closer writes an index
    table (the members are not all of one length), the table starts where
    the members end, and its entry [i], [w] bytes in little-endian order, is
    the offset of member [i] from the head of the closed array: the offset
    recorded when the member was added, less the [d] bytes by which the
    members have moved.  The offset fits the entry. *)
Theorem closeArray_index_table (b : Builder) (tos : Z) (i : nat) :
  0 <= tos -> tos + 9 <= _pos b < 2^62 -> Z.of_nat (length (topIndex b)) < 2^58 ->
  (depth b < length (_index b))%nat ->
  needTable tos (_pos b) (topIndex b) = true ->
  Forall (fun o => 9 <= o < _pos b - tos) (topIndex b) ->
  (i < length (topIndex b))%nat ->
  let n := Z.of_nat (length (topIndex b)) in
  let t := needTable tos (_pos b) (topIndex b) in
  let w := arrayOffsetSize tos (_pos b) n t t in
  let d := if w =? 1 then 6 else 0 in
  let o := topIndex b !!! i in
  readBytes (_start (closeArray tos b)) (_pos b - d + w * Z.of_nat i) (Z.to_nat w)
  = leBytes (Z.to_nat w) (o - d) /\
  0 <= o - d < 2 ^ (8 * w).
Proof.
  intros Htos Hpos Hn Hdepth Ht Hall Hi n t w d o.
  assert (Ho : 9 <= o < _pos b - tos).
  { rewrite Forall_forall in Hall. apply Hall. apply list_elem_of_lookup_total_2. exact Hi. }
  pose proof (arrayOffsetSize_least tos (_pos b) n t Htos Hpos ltac:(lia)) as [Hfit _].
  fold w in Hfit. unfold arrayFinalLength in Hfit.
  split.
  2:{ subst d. unfold t in Hfit. rewrite Ht in Hfit.
      destruct (arrayOffsetSize_cases tos (_pos b) n t t)
        as [Hw | [Hw | [Hw | Hw]]]; fold w in Hw; rewrite Hw in *; cbn in Hfit |- *; lia. }
  clear Hfit. assert (Heqo : topIndex b !!! i = o) by reflexivity.
  subst d w t n. revert Ht. clearbody o.
  array_cases b tos Htos Hpos Hn; intros Ht; try discriminate Ht.
  all: rewrite ?(list_lookup_total_insert_eq (_index b)) by exact Hdepth.
  all: rewrite ?length_map.
  all: peel.
  all: rewrite writeTable_read by lia.
  all: rewrite Nat2Z.id.
  all: try (rewrite Heqo; reflexivity).
  rewrite (list_lookup_total_fmap (fun x => x -% 6)) by exact Hi.
  rewrite Heqo. unwrap. reflexivity.
Qed.


(** X6: the header of an array closed by the array closer.  The head byte
    is 0x06 (index table) or 0x02 (no index table) plus the binary
    logarithm of the chosen width [w]; the byte length of the closed array
    takes [w] bytes at [tos + 1], and for [w < 8] it fits them, no narrower
    width being able to hold it; with an index table, the member count
    takes [w] bytes after the byte length for [w < 8], and eight bytes after
    the index table for [w = 8].  The frame of the array is popped. *)
Theorem closeArray_header (b : Builder) (tos : Z) :
  0 <= tos -> tos + 9 <= _pos b < 2^62 -> Z.of_nat (length (topIndex b)) < 2^58 ->
  let n := Z.of_nat (length (topIndex b)) in
  let t := needTable tos (_pos b) (topIndex b) in
  let w := arrayOffsetSize tos (_pos b) n t t in
  let b' := closeArray tos b in
  let total := _pos b' - tos in
  _start b' tos = (if t then 0x06 else 0x02) + Z.log2 w /\
  readBytes (_start b') (tos + 1) (Z.to_nat w) = leBytes (Z.to_nat w) total /\
  total = arrayFinalLength w (_pos b - tos) n t /\
  (w < 8 -> total < 2 ^ (8 * w)) /\
  (forall w', w' = 1 \/ w' = 2 \/ w' = 4 -> w' < w ->
              2 ^ (8 * w') <= arrayFinalLength w' (_pos b - tos) n t) /\
  (t = true ->
   if w <? 8 then readBytes (_start b') (tos + 1 + w) (Z.to_nat w) = leBytes (Z.to_nat w) n
   else readBytes (_start b') (_pos b + 8 * n) 8 = leBytes 8 n) /\
  _stack b' = removelast (_stack b).
Proof.
  intros Htos Hpos Hn n t w b' total.
  pose proof (arrayOffsetSize_least tos (_pos b) n t Htos Hpos ltac:(lia)) as [Hfit Hleast].
  fold w in Hfit, Hleast.
  assert (Hlen : total = arrayFinalLength w (_pos b - tos) n t).
  { subst total b'. rewrite (closeArray_normal b tos Htos Hpos Hn). cbn [_pos].
    fold n t. fold w. lia. }
  split; [| split; [| split; [exact Hlen | split; [rewrite Hlen; exact Hfit |
           split; [exact Hleast |]]]]].
  all: rewrite ?Hlen; clear Hlen Hfit Hleast; subst total b' w t n.
  - array_cases b tos Htos Hpos Hn.
    all: peel.
    all: rewrite ?store_eq.
    all: rewrite ?wrap8_small by lia.
    all: try reflexivity.
    destruct (tos + 9 <? _pos b); [rewrite memmove_outside by lia |]; apply store_eq.
  - array_cases b tos Htos Hpos Hn.
    all: peel.
    all: apply readBytes_storeLE.
  - split.
    + array_cases b tos Htos Hpos Hn; intros Ht; try discriminate Ht.
        all: peel.
      all: match goal with
           | |- readBytes (storeLE _ _ ?a _) ?p _ = _ => replace p with a by lia
           end.
      all: apply readBytes_storeLE.
    + rewrite (closeArray_normal b tos Htos Hpos Hn). reflexivity.
Qed.


(** What the compact closer leaves alone. *)
Lemma closeCompact_frame tos isArray index b :
  0 <= tos -> tos + 9 <= _pos b < 2^62 -> Z.of_nat (length index) < 2^62 ->
  let r := closeCompactArrayOrObject tos isArray index b in
  (forall a, a < tos -> _start (fst r) a = _start b a) /\
  _index (fst r) = _index b /\
  _stack (fst r) = if snd r then removelast (_stack b) else _stack b.
Proof.
  intros Htos Hpos Hlen r. subst r.
  pose proof (compactSizes_spec tos (_pos b) (Z.of_nat (length index)) Htos Hpos ltac:(lia))
    as Hspec.
  unfold closeCompactArrayOrObject.
  destruct (compactSizes tos (_pos b) (Z.of_nat (length index))) as [byteSize bLen].
  destruct Hspec as (Hsize & Hwidth & HbR & HnR & HsR).
  destruct (Z.ltb_spec bLen 9) as [Hlt | Hge]; cbn [fst snd]; [| auto].
  split; [| split; reflexivity].
  intros a Ha.
  assert (HlenN : Z.of_nat (length (varintLoop 10 (Z.of_nat (length index))))
                  = getVariableValueLength (Z.of_nat (length index))).
  { apply varintBytes_length. lia. }
  cbn [_start popStack withStack withPos withStart].
  unfold storeVariableValueLength. unwrap.
  rewrite storeVarLoop_reverse_outside by lia.
  rewrite storeVarLoop_forward_outside by lia.
  destruct (tos + 9 <? _pos b); [rewrite memmove_outside by lia |]; apply store_ne; lia.
Qed.

Section ArrayFrame.
Context {P : Platform}.

(** X7: closing an array succeeds and stays within the array.  Whatever the
    form (empty, compact, with or without index table), [close] on an open
    array throws nothing, pops exactly the frame of this array, and changes
    no byte before the head of the array and no member list of an enclosing
    compound. *)
Theorem close_array_frame (rounds : nat) (b : Builder) (tos : Z) (rest : list Z) :
  _stack b = rest ++ [tos] ->
  _start b tos = 0x06 \/ _start b tos = 0x13 ->
  0 <= tos -> tos + 9 <= _pos b < 2^62 -> Z.of_nat (length (topIndex b)) < 2^58 ->
  let b' := fst (close rounds b) in
  snd (close rounds b) = Ret tt /\
  _stack b' = rest /\
  (forall a, a < tos -> _start b' a = _start b a) /\
  (forall k, (k < depth b)%nat -> _index b' !!! k = _index b !!! k).
Proof.
  intros Hs Hhead Htos Hpos Hn b'. subst b'.
  assert (Hpop : removelast (_stack b) = rest) by (rewrite Hs; apply removelast_last).
  assert (Harr : (_start b tos =? 6) || (_start b tos =? 19) = true).
  { destruct Hhead as [-> | ->]; reflexivity. }
  destruct (topIndex b) as [| o0 l] eqn:Hidx.
  { unfold close. rewrite Hs, last_snoc, Hidx. cbn [fst snd].
    unfold closeEmptyArrayOrObject.
    cbn [_start _stack _index popStack withStack withPos withStart].
    split; [reflexivity |]. split; [exact Hpop |].
    split; [intros a Ha; apply store_ne; lia | reflexivity]. }
  rewrite (close_unfold rounds b tos rest Hs) by (rewrite Hidx; discriminate).
  cbv zeta. rewrite Harr. rewrite <- Hidx in *. clear Hidx o0 l.
  assert (Hindexed :
            snd (closeIndexed rounds tos true b) = Ret tt /\
            _stack (fst (closeIndexed rounds tos true b)) = rest /\
            (forall a, a < tos -> _start (fst (closeIndexed rounds tos true b)) a = _start b a) /\
            (forall k, (k < depth b)%nat ->
               _index (fst (closeIndexed rounds tos true b)) !!! k = _index b !!! k)).
  { unfold closeIndexed. cbn [fst snd]. split; [reflexivity |].
    split; [| split].
    - rewrite (closeArray_normal b tos Htos Hpos Hn). exact Hpop.
    - intros a Ha. array_cases b tos Htos Hpos Hn.
        all: peel.
      all: try reflexivity.
      all: destruct (tos + 9 <? _pos b); [rewrite memmove_outside by lia |]; apply store_ne; lia.
    - intros k Hk. array_cases b tos Htos Hpos Hn.
      all: try reflexivity.
      apply list_lookup_total_insert_ne. lia. }
  destruct (wantsCompact (_start b tos) (options b) (topIndex b)); [| exact Hindexed].
  pose proof (closeCompact_frame tos true (topIndex b) b Htos Hpos ltac:(lia))
    as (Hbelow & Hindex & Hstack).
  destruct (closeCompactArrayOrObject tos true (topIndex b) b) as [b1 done] eqn:Hc.
  cbn [fst snd] in *.
  destruct done; cbn [fst snd].
  - split; [reflexivity |]. split; [rewrite Hstack; exact Hpop |].
    split; [exact Hbelow | intros k _; rewrite Hindex; reflexivity].
  - assert (b1 = b) as ->; [| exact Hindexed].
    unfold closeCompactArrayOrObject in Hc.
    destruct (compactSizes tos (_pos b) (Z.of_nat (length (topIndex b)))) as [byteSize bLen].
    destruct (bLen <? 9); [discriminate Hc | injection Hc as <-; reflexivity].
Qed.

End ArrayFrame.


(** ** When the array closer leaves out the index table *)

(** Members of non-negative length: the offsets do not decrease, and none
    lies beyond the end. *)
Lemma memberLengths_bounds last : forall l a,
  Forall (fun d => 0 <= d) (memberLengths last (a :: l)) ->
  a <= last /\ Forall (fun o => a <= o <= last) l.
Proof.
  induction l as [| c l IH]; intros a H; cbn [memberLengths] in H.
  - apply Forall_cons in H as [H _]. split; [lia | apply Forall_nil_2].
  - apply Forall_cons in H as [Hd Hrest].
    destruct (IH c Hrest) as [Hc Hl]. split; [lia |].
    apply Forall_cons_2; [lia |].
    eapply Forall_impl; [exact Hl |]. cbn. intros o Ho. lia.
Qed.

(** The loop of lines 163-168 has found one stride, and the last member
    has that length: all members from [a] on have it. *)
Lemma sameStride_lengths L last : forall l a,
  0 <= a -> last < 18446744073709551616 ->
  Forall (fun d => 0 <= d) (memberLengths last (a :: l)) ->
  sameStride L (a :: l) = true ->
  last - (a :: l) !!! length l = L ->
  Forall (eq L) (memberLengths last (a :: l)).
Proof.
  induction l as [| c l IH]; intros a Ha Hlast Hnn Hstride Hend.
  - cbn in Hend |- *. apply Forall_cons_2; [lia | apply Forall_nil_2].
  - destruct (memberLengths_bounds last (c :: l) a Hnn) as [_ Hb].
    apply Forall_cons in Hb as [Hc _].
    cbn [memberLengths] in Hnn |- *. apply Forall_cons in Hnn as [Hd Hrest].
    cbn [sameStride] in Hstride.
    rewrite (wrap64_small (c - a)) in Hstride by lia.
    destruct (Z.eqb_spec (c - a) L) as [Heq | _]; [| discriminate Hstride].
    apply Forall_cons_2; [lia |].
    apply IH; [lia | exact Hlast | exact Hrest | exact Hstride |].
    cbn [length] in Hend. exact Hend.
Qed.

(** X21: the index table is left out exactly when it can be.  For a
    non-empty array whose member offsets do not decrease and do not pass
    the end of the members, the test of lines 150-174 decides against the
    index table (and the member count) if and only if all members have the
    same encoded length. *)
Theorem needTable_iff_equal_lengths (tos pos : Z) (index : list Z) :
  0 <= tos <= pos -> pos < 18446744073709551616 ->
  index <> [] -> 0 <= hd 0 index ->
  Forall (fun d => 0 <= d) (memberLengths (pos - tos) index) ->
  (needTable tos pos index = false <->
   exists L, Forall (eq L) (memberLengths (pos - tos) index)).
Proof.
  intros Htos Hpos Hne Hhd Hnn. split.
  - intros Hno.
    destruct index as [| o0 [| o1 rest]]; [contradiction | |].
    { exists (pos - tos - o0). cbn. apply Forall_cons_2; [reflexivity | apply Forall_nil_2]. }
    cbn [hd] in Hhd.
    destruct (memberLengths_bounds (pos - tos) (o1 :: rest) o0 Hnn) as [_ Hb].
    apply Forall_cons in Hb as [Ho1 _].
    exists (o1 - o0).
    cbn [memberLengths] in Hnn |- *. apply Forall_cons in Hnn as [_ Hrest].
    apply Forall_cons_2; [reflexivity |].
    unfold needTable in Hno.
    destruct (Z.eqb_spec (Z.of_nat (length (o0 :: o1 :: rest))) 1) as [Hone | _];
      [cbn [length] in Hone; lia |].
    change ((o0 :: o1 :: rest) !!! 0%nat) with o0 in Hno.
    change ((o0 :: o1 :: rest) !!! 1%nat) with o1 in Hno.
    destruct ((pos -% tos) -% o0 =? Z.of_nat (length (o0 :: o1 :: rest)) *% (o1 -% o0));
      [| discriminate Hno].
    apply negb_false_iff in Hno.
    destruct (negb ((pos -% tos) -% (o0 :: o1 :: rest) !!! (length (o0 :: o1 :: rest) - 1)%nat
                    =? o1 -% o0)) eqn:Hlast; [discriminate Hno |].
    apply negb_false_iff in Hlast. cbn [tail] in Hno.
    rewrite (wrap64_small (o1 - o0)) in Hno, Hlast by lia.
    apply sameStride_lengths; [lia | lia | exact Hrest | exact Hno |].
    replace (length (o0 :: o1 :: rest) - 1)%nat with (S (length rest)) in Hlast
      by (cbn [length]; lia).
    change ((o0 :: o1 :: rest) !!! S (length rest)) with ((o1 :: rest) !!! length rest) in Hlast.
    assert (Hin : o1 <= (o1 :: rest) !!! length rest <= pos - tos).
    { destruct (memberLengths_bounds (pos - tos) rest o1 Hrest) as [Hle Hall].
      destruct rest as [| c rest']; [cbn; lia |].
      rewrite Forall_forall in Hall. apply Hall.
      change ((o1 :: c :: rest') !!! length (c :: rest')) with ((c :: rest') !!! length rest').
      apply list_elem_of_lookup_total_2. cbn [length]. lia. }
    unwrap_in Hlast. lia.
  - intros [L Hall].
    apply (needTable_equal_lengths tos pos L); try assumption; try lia.
    destruct index as [| o0 rest]; [contradiction |].
    cbn [memberLengths] in Hnn, Hall.
    apply Forall_cons in Hnn as [Hd _]. apply Forall_cons in Hall as [-> _]. exact Hd.
Qed.

Lemma needTable_iff_equal_lengths_witness :
  needTable 0 (_pos mixedArray) (topIndex mixedArray) = false <->
  exists L, Forall (eq L) (memberLengths (_pos mixedArray - 0) (topIndex mixedArray)).
Proof.
  apply (needTable_iff_equal_lengths 0 (_pos mixedArray) (topIndex mixedArray)).
  - vm_compute. split; discriminate.
  - vm_compute. reflexivity.
  - vm_compute. discriminate.
  - vm_compute. discriminate.
  - vm_compute. repeat constructor; discriminate.
Defined.


(** ** What the object closer keeps and what it writes *)

(** Brings a goal about [closeIndexedObject] into a form in which the writes
    can be peeled off one by one. *)
Ltac object_cases b tos nrSlots :=
  unfold closeIndexedObject;
  let Hw := fresh "Hw" in
  destruct (objectOffsetSize_cases tos (_pos b) nrSlots) as [Hw | [Hw | [Hw | Hw]]];
  rewrite Hw; clear Hw;
  cbn -[Z.mul Z.add Z.sub Z.to_nat Z.of_nat storeLE writeTable readBytes leBytes imap];
  change (1 + 1) with 2; change (2 + 1) with 3; change (4 + 1) with 5;
  change (3 + 1) with 4; change (5 + 2) with 7; change (Z.of_nat 8) with 8;
  change (Z.of_nat 4) with 4; change (Z.of_nat 1) with 1;
  unwrap.

Lemma closeIndexedObject_members_kept (b : Builder) (tos : Z) (ht : list Z) (seed nrSlots : Z) :
  0 <= tos -> tos + 9 <= _pos b < 2^62 -> 0 <= nrSlots < 2^58 ->
  let w := objectOffsetSize tos (_pos b) nrSlots in
  let d := if w =? 1 then 4 else 0 in
  forall a, tos + 9 <= a < _pos b ->
    _start (closeIndexedObject tos ht seed nrSlots b) (a - d) = _start b a.
Proof.
  intros Htos Hpos Hslots w d a Ha. subst d w.
  object_cases b tos nrSlots.
  all: peel.
  all: try (destruct (Z.ltb_spec (tos + 9) (_pos b)); [| lia];
            rewrite memmove_inside by lia; f_equal; lia).
  all: f_equal; lia.
Qed.

Lemma closeIndexedObject_table (b : Builder) (tos : Z) (ht : list Z) (seed nrSlots i : Z) :
  0 <= tos -> tos + 9 <= _pos b < 2^62 -> 0 <= nrSlots < 2^58 ->
  length ht = Z.to_nat nrSlots -> 0 <= i < nrSlots ->
  ht !!! Z.to_nat i = 0 \/ 4 <= ht !!! Z.to_nat i < 2^62 ->
  let w := objectOffsetSize tos (_pos b) nrSlots in
  let d := if w =? 1 then 4 else 0 in
  readBytes (_start (closeIndexedObject tos ht seed nrSlots b)) (_pos b - d + w * i) (Z.to_nat w)
  = leBytes (Z.to_nat w) (if ht !!! Z.to_nat i =? 0 then 0 else ht !!! Z.to_nat i - d).
Proof.
  intros Htos Hpos Hslots Hlen Hi Hentry w d. subst d w.
  assert (Hval : (if ht !!! Z.to_nat i =? 0 then 0 else ht !!! Z.to_nat i - 0)
                 = ht !!! Z.to_nat i).
  { destruct (Z.eqb_spec (ht !!! Z.to_nat i) 0) as [-> | _]; lia. }
  object_cases b tos nrSlots.
  all: rewrite ?Hval; rewrite ?Z.sub_0_r.
  all: peel.
  all: rewrite writeTable_read by lia.
  all: try reflexivity.
  f_equal.
  apply list_lookup_total_correct. rewrite list_lookup_imap.
  rewrite (list_lookup_lookup_total_lt ht (Z.to_nat i)) by lia.
  cbn [fmap option_fmap option_map]. f_equal.
  rewrite Z2Nat.id by lia.
  replace (i <? nrSlots) with true by lia. cbn [andb].
  destruct (Z.eqb_spec (ht !!! Z.to_nat i) 0) as [-> | Hnz]; [reflexivity |].
  cbn [negb]. unwrap. reflexivity.
Qed.


(** The last write of the object closer for the widths 1 and 2: the seed
    goes to offset 4 or 7 of the buffer. *)
Lemma closeIndexedObject_seed_byte (b : Builder) (tos : Z) (ht : list Z) (seed nrSlots : Z) :
  let w := objectOffsetSize tos (_pos b) nrSlots in
  w < 4 -> _start (closeIndexedObject tos ht seed nrSlots b) (3 * w + 1) = seed.
Proof.
  intros w Hw. subst w. revert Hw. unfold closeIndexedObject.
  destruct (objectOffsetSize_cases tos (_pos b) nrSlots) as [Hw | [Hw | [Hw | Hw]]];
    rewrite Hw; clear Hw; intros Hlt; try lia.
  all: cbn -[Z.mul Z.add Z.sub Z.to_nat Z.of_nat storeLE writeTable readBytes leBytes imap].
  all: apply store_eq.
Qed.

Section ObjectLookup.
Context {P : Platform}.

(** X8: a member of a closed object is found through the hash table, the
    slot count and the seed that the closed object holds.  When the indexed
    closer has run on an object (head 0x0b) whose member offsets lie
    between 9 and the end of the members, the table of [nrSlots] entries of
    [w] bytes follows the members, and the closed object ends behind it
    (widths 1 and 2) or behind the slot count and the seed that trail the
    table (widths 4 and 8).  The slot count is held in [w] bytes, at
    [tos + 2 * w + 1] for the widths 1 and 2.  The seed is held in the byte
    at [tos + 3 * w + 1] for the widths 1 and 2, provided the object starts
    at offset 0 of the buffer, and in the last byte of the object for the
    widths 4 and 8; when the object starts at offset 8 or beyond and the
    width is 1 or 2, the byte at [tos + 3 * w + 1] is left as it was, and
    does not tell the seed.  For each member, recorded at offset [o], one
    of the three slots [s] that its attribute name hashes to under this
    seed and slot count holds the offset of this member from the head of
    the closed object, which is [o] less the [d] bytes by which the members
    have moved ([d] is 4 for the width 1 and 0 otherwise); the offset fits
    the [w] bytes of the slot, and the bytes of the member, from its key to
    the end of the members, are at that offset. *)
Theorem closeIndexed_object_lookup (rounds : nat) (b : Builder) (tos : Z) (rest : list Z)
    (ht : list Z) (seed nrSlots o : Z) :
  _stack b = rest ++ [tos] -> _start b tos = 0x0b ->
  tos = 0 \/ 8 <= tos -> tos + 9 <= _pos b < 2^62 ->
  Forall (fun x => 9 <= x < _pos b - tos) (topIndex b) ->
  computeCuckooHash rounds b = Ret (ht, seed, nrSlots) -> nrSlots < 2^58 ->
  In o (topIndex b) ->
  let w := objectOffsetSize tos (_pos b) nrSlots in
  let d := if w =? 1 then 4 else 0 in
  exists b' name j,
    closeIndexed rounds tos false b = (b', Ret tt) /\
    findAttrName (_start b) (tos + o) = inr name /\ 0 <= j <= 2 /\
    _pos b' = _pos b - d + w * nrSlots + (if w <? 4 then 0 else if w =? 4 then 5 else 17) /\
    readBytes (_start b') (if w <? 4 then tos + (2 * w + 1) else _pos b' - 1 - w) (Z.to_nat w)
    = leBytes (Z.to_nat w) nrSlots /\
    0 < nrSlots /\ (w < 8 -> nrSlots < 2 ^ (8 * w)) /\ 0 <= seed <= 255 /\
    (tos = 0 \/ 4 <= w ->
     _start b' (if w <? 4 then tos + (3 * w + 1) else _pos b' - 1) = seed) /\
    (8 <= tos -> w < 4 ->
     _start b' (tos + (3 * w + 1)) = _start b (tos + (3 * w + 1)) /\
     _start b' (3 * w + 1) = seed) /\
    let s := hashPos (nrSlots <=? 0x1000000) nrSlots seed name j in
    0 <= s < nrSlots /\
    readBytes (_start b') (_pos b - d + w * s) (Z.to_nat w) = leBytes (Z.to_nat w) (o - d) /\
    0 <= o - d < 2 ^ (8 * w) /\
    forall a, tos + o <= a < _pos b -> _start b' (a - d) = _start b a.
Proof.
  intros Hs Hhead Htos0 Hpos Hall Hcuckoo Hslots Hin w d.
  assert (Htos : 0 <= tos) by lia.
  assert (Hrange : forall x, In x (topIndex b) -> 9 <= x < _pos b - tos).
  { intros x Hx. rewrite Forall_forall in Hall. apply Hall. apply list_elem_of_In. exact Hx. }
  assert (Hnz : Forall (fun x => x <> 0) (topIndex b)).
  { eapply Forall_impl; [exact Hall |]. cbn. intros x Hx. lia. }
  pose proof (computeCuckooHash_places rounds b) as Hplaces. rewrite Hcuckoo in Hplaces.
  destruct Hplaces as (Hn & Hseed & Htab & Hfound).
  destruct (Hfound Hnz o Hin) as (name & j & Hname & Hj & Hsr & Hat).
  rewrite Hs, last_last in Hname.
  pose proof (Hrange o Hin) as Ho.
  rewrite (wrap64_small (tos + o)) in Hname by lia.
  exists (closeIndexedObject tos ht seed nrSlots b), name, j.
  split.
  { unfold closeIndexed. rewrite (store_same (_start b) tos 11 Hhead), withStart_same.
    rewrite Hcuckoo. reflexivity. }
  split; [exact Hname |]. split; [exact Hj |].
  pose proof (closeIndexedObject_fields b tos ht seed nrSlots Htos0 Hpos ltac:(lia) Hhead)
    as (_ & F1 & F2 & F4 & F8).
  pose proof (closeIndexedObject_seed_byte b tos ht seed nrSlots) as Hsb.
  pose proof (objectOffsetSize_least tos (_pos b) nrSlots Htos Hpos ltac:(lia))
    as (H12 & H4 & _).
  cbv zeta in F1, F2, F4, F8, Hsb. fold w in F1, F2, F4, F8, Hsb, H12, H4.
  unfold objectFinalLength in H12, H4.
  assert (Hseed1 : leBytes 1 seed = [seed]).
  { cbn [leBytes]. f_equal. change 255 with (Z.ones 8). rewrite Z.land_ones by lia.
    apply Z.mod_small. lia. }
  assert (Hheader :
    _pos (closeIndexedObject tos ht seed nrSlots b)
    = _pos b - d + w * nrSlots + (if w <? 4 then 0 else if w =? 4 then 5 else 17) /\
    readBytes (_start (closeIndexedObject tos ht seed nrSlots b))
      (if w <? 4 then tos + (2 * w + 1)
       else _pos (closeIndexedObject tos ht seed nrSlots b) - 1 - w) (Z.to_nat w)
    = leBytes (Z.to_nat w) nrSlots /\
    (w < 8 -> nrSlots < 2 ^ (8 * w)) /\
    (tos = 0 \/ 4 <= w ->
     _start (closeIndexedObject tos ht seed nrSlots b)
       (if w <? 4 then tos + (3 * w + 1)
        else _pos (closeIndexedObject tos ht seed nrSlots b) - 1) = seed)).
  { subst d.
    destruct (objectOffsetSize_cases tos (_pos b) nrSlots) as [Hw | [Hw | [Hw | Hw]]];
      fold w in Hw; rewrite Hw in *; cbn [Z.eqb Z.ltb Z.compare Pos.compare Pos.compare_cont
                                           Pos.eqb] in *.
    - destruct (F1 eq_refl) as (_ & _ & Fs & Ft). specialize (H12 ltac:(lia)).
      change (8 * 1) with 8 in *. change (2 ^ 8) with 256 in *.
      split; [lia |]. split; [exact Fs |]. split; [intros _; cbn in H12; lia |].
      intros [-> | Hbad]; [| lia]. apply (Hsb ltac:(lia)).
    - destruct (F2 eq_refl) as (_ & _ & Fs & Ft). specialize (H12 ltac:(lia)).
      split; [lia |]. split; [exact Fs |]. split; [intros _; cbn in H12 |- *; lia |].
      intros [-> | Hbad]; [| lia]. apply (Hsb ltac:(lia)).
    - destruct (F4 eq_refl) as (_ & _ & Fs & Fseed & Ft). specialize (H4 eq_refl).
      split; [lia |].
      replace (_pos (closeIndexedObject tos ht seed nrSlots b) - 1 - 4)
        with (_pos b + 4 * nrSlots) by lia.
      split; [exact Fs |]. split; [intros _; cbn in H4 |- *; lia |].
      intros _.
      replace (_pos (closeIndexedObject tos ht seed nrSlots b) - 1)
        with (_pos b + 4 * nrSlots + 4) by lia.
      rewrite Hseed1 in Fseed. cbn [readBytes] in Fseed. congruence.
    - destruct (F8 eq_refl) as (_ & _ & Fs & Fseed & Ft).
      split; [lia |].
      replace (_pos (closeIndexedObject tos ht seed nrSlots b) - 1 - 8)
        with (_pos b + 8 * nrSlots + 8) by lia.
      split; [exact Fs |]. split; [intros Hbad; lia |].
      intros _.
      replace (_pos (closeIndexedObject tos ht seed nrSlots b) - 1)
        with (_pos b + 8 * nrSlots + 16) by lia.
      rewrite Hseed1 in Fseed. cbn [readBytes] in Fseed. congruence. }
  destruct Hheader as (Hend & Hslotsfield & Hfit & Hseedfield).
  split; [exact Hend |]. split; [exact Hslotsfield |]. split; [exact Hn |].
  split; [exact Hfit |]. split; [exact Hseed |]. split; [exact Hseedfield |].
  split.
  { intros Hdeep Hw.
    destruct (closeIndexedObject_seed_address b tos ht seed nrSlots Hdeep Hpos ltac:(lia))
      as [Hat4 Hkept].
    - fold w. pose proof (objectOffsetSize_cases tos (_pos b) nrSlots) as Hc. fold w in Hc. lia.
    - split; [exact Hkept | exact Hat4]. }
  cbv zeta.
  split; [exact Hsr |].
  pose proof (closeIndexedObject_table b tos ht seed nrSlots
                (hashPos (nrSlots <=? 0x1000000) nrSlots seed name j)
                Htos Hpos ltac:(lia) (proj1 Htab) Hsr) as Htable.
  rewrite Hat in Htable. fold w d in Htable.
  replace (o =? 0) with false in Htable by lia.
  split; [apply Htable; right; lia |].
  split.
  - subst d.
    destruct (objectOffsetSize_cases tos (_pos b) nrSlots) as [Hw | [Hw | [Hw | Hw]]];
      fold w in Hw; rewrite Hw in *; cbn in H12, H4 |- *.
    + specialize (H12 ltac:(lia)). lia.
    + specialize (H12 ltac:(lia)). lia.
    + specialize (H4 eq_refl). lia.
    + lia.
  - intros a Ha.
    apply (closeIndexedObject_members_kept b tos ht seed nrSlots Htos Hpos ltac:(lia)). lia.
Qed.

End ObjectLookup.

Section ObjectFrame.
Context {P : Platform}.

(** X9: what closing an object does before its head.  The indexed closer
    pops the frame of the object and leaves the bytes before the head of
    the object as they were, but for one: with the widths 1 and 2 the seed
    is written through [_start[base + offsetSize]], that is, to offset 4
    or 7 of the buffer, not of the object.  When the object is nested at
    offset 8 or beyond, that byte belongs to an enclosing value. *)
Theorem closeIndexed_object_frame (rounds : nat) (b : Builder) (tos : Z)
    (ht : list Z) (seed nrSlots : Z) :
  0 <= tos -> tos + 9 <= _pos b < 2^62 ->
  computeCuckooHash rounds (withStart (store (_start b) tos 0x0b) b) = Ret (ht, seed, nrSlots) ->
  0 <= nrSlots < 2^58 ->
  let w := objectOffsetSize tos (_pos b) nrSlots in
  exists b', closeIndexed rounds tos false b = (b', Ret tt) /\
    _stack b' = removelast (_stack b) /\
    forall a, a < tos ->
      _start b' a = if (w <? 4) && (a =? 3 * w + 1) then seed else _start b a.
Proof.
  intros Htos Hpos Hcuckoo Hslots w.
  unfold closeIndexed. rewrite Hcuckoo.
  eexists. split; [reflexivity |].
  split.
  - change (_stack b) with (_stack (withStart (store (_start b) tos 0x0b) b)).
    generalize (withStart (store (_start b) tos 0x0b) b). intros b0.
    unfold closeIndexedObject.
    destruct (objectOffsetSize_cases tos (_pos b0) nrSlots) as [Hw | [Hw | [Hw | Hw]]];
      rewrite Hw; reflexivity.
  - intros a Ha. subst w.
    change (_pos b) with (_pos (withStart (store (_start b) tos 0x0b) b)).
    object_cases (withStart (store (_start b) tos 0x0b) b) tos nrSlots.
    all: cbn [_pos _start withStart].
    all: change (3 * 1 + 1) with 4; change (3 * 2 + 1) with 7.
    all: cbn [Z.ltb Z.compare Pos.compare Pos.compare_cont andb].
    all: repeat match goal with
                | |- context [?x =? ?c] =>
                    destruct (Z.eqb_spec x c) as [-> | Hne]; [apply store_eq |]
                end.
    all: peel.
    all: try reflexivity.
    destruct (tos + 9 <? _pos b); [rewrite memmove_outside by lia |]; apply store_ne; lia.
Qed.

End ObjectFrame.


(** ** The properties above on examples *)

Lemma closeArray_members_kept_witness :
  _start (closeArray 0 mixedArray) (11 - 6) = _start mixedArray 11.
Proof.
  apply (closeArray_members_kept mixedArray 0).
  - lia.
  - vm_compute. split; [discriminate | reflexivity].
  - vm_compute. reflexivity.
  - vm_compute. split; [discriminate | reflexivity].
Defined.

Lemma closeArray_index_table_witness :
  readBytes (_start (closeArray 0 mixedArray)) 8 1 = [4] /\ 0 <= 10 - 6 < 2 ^ (8 * 1).
Proof.
  apply (closeArray_index_table mixedArray 0 1).
  - lia.
  - vm_compute. split; [discriminate | reflexivity].
  - vm_compute. reflexivity.
  - vm_compute. lia.
  - vm_compute. reflexivity.
  - vm_compute. repeat constructor; discriminate.
  - vm_compute. lia.
Defined.

Lemma closeArray_header_witness :
  _start (closeArray 0 mixedArray) 0 = 0x06 /\
  readBytes (_start (closeArray 0 mixedArray)) 1 2 = [9; 2].
Proof.
  destruct (closeArray_header mixedArray 0) as (Hh & Hlen & Ht & _ & _ & Hn & _).
  - lia.
  - vm_compute. split; [discriminate | reflexivity].
  - vm_compute. reflexivity.
  - split; [exact Hh |].
    specialize (Hn eq_refl).
    change (readBytes (_start (closeArray 0 mixedArray)) 1 1 = [9]) in Hlen.
    change (readBytes (_start (closeArray 0 mixedArray)) 2 1 = [2]) in Hn.
    change (readBytes (_start (closeArray 0 mixedArray)) 1 2)
      with (readBytes (_start (closeArray 0 mixedArray)) 1 1
            ++ readBytes (_start (closeArray 0 mixedArray)) 2 1).
    rewrite Hlen, Hn. reflexivity.
Defined.

Lemma close_array_frame_witness :
  snd (close 1 nestedArray) = Ret tt /\
  _stack (fst (close 1 nestedArray)) = [0] /\
  (forall a, a < 10 -> _start (fst (close 1 nestedArray)) a = _start nestedArray a) /\
  (forall k, (k < 1)%nat -> _index (fst (close 1 nestedArray)) !!! k = _index nestedArray !!! k).
Proof.
  apply (close_array_frame 1 nestedArray 10 [0]).
  - reflexivity.
  - left. reflexivity.
  - lia.
  - vm_compute. split; [discriminate | reflexivity].
  - vm_compute. reflexivity.
Defined.

Lemma closeIndexed_object_lookup_witness :
  (exists b' name j,
     closeIndexed 1 0 false seededObject = (b', Ret tt) /\
     findAttrName (_start seededObject) (0 + 12) = inr name /\ 0 <= j <= 2 /\
     readBytes (_start b') 3 1 = [3] /\ _start b' 4 = 1 /\
     readBytes (_start b') (11 + hashPos true 3 1 name j) 1 = [8]) /\
  (exists b',
     closeIndexed 1 9 false nestedSeededObject = (b', Ret tt) /\
     _start b' (9 + 4) = 0 /\ _start b' 4 = 1 /\
     Forall (fun j => _start b' (20 + hashPos true 3 (_start b' (9 + 4)) [110] j) <> 5)
       [0; 1; 2]).
Proof.
  split.
  - destruct (closeIndexed_object_lookup 1 seededObject 0 [] [9; 12; 0] 1 3 12)
      as (b' & name & j & Hc & Hname & Hj & _ & Hslots & _ & _ & _ & Hseed & _ & _ & Htable & _).
    + reflexivity.
    + reflexivity.
    + left. reflexivity.
    + vm_compute. split; [discriminate | reflexivity].
    + vm_compute. repeat constructor; discriminate.
    + vm_compute. reflexivity.
    + lia.
    + vm_compute. right. left. reflexivity.
    + exists b', name, j.
      split; [exact Hc |]. split; [exact Hname |]. split; [exact Hj |].
      split; [exact Hslots |]. split; [exact (Hseed (or_introl eq_refl)) |].
      change (readBytes (_start b') (15 - 4 + 1 * hashPos true 3 1 name j) 1 = [8]) in Htable.
      replace (11 + hashPos true 3 1 name j) with (15 - 4 + 1 * hashPos true 3 1 name j) by lia.
      exact Htable.
  - destruct (closeIndexed_object_lookup 1 nestedSeededObject 9 [0] [9; 12; 0] 1 3 9)
      as (b' & name & j & Hc & _ & _ & _ & _ & _ & _ & _ & _ & Hdeep & _).
    + reflexivity.
    + reflexivity.
    + right. lia.
    + vm_compute. split; [discriminate | reflexivity].
    + vm_compute. repeat constructor; discriminate.
    + vm_compute. reflexivity.
    + lia.
    + vm_compute. left. reflexivity.
    + exists b'. split; [exact Hc |].
      destruct Hdeep as [Hkept Hstray]; [lia | vm_compute; reflexivity |].
      change (_start b' (9 + 4) = _start nestedSeededObject (9 + 4)) in Hkept.
      split; [rewrite Hkept; reflexivity |]. split; [exact Hstray |].
      rewrite Hkept. change (_start nestedSeededObject (9 + 4)) with 0.
      assert (Hb : b' = fst (closeIndexed 1 9 false nestedSeededObject))
        by (rewrite Hc; reflexivity).
      rewrite Hb.
      repeat (apply Forall_cons_2; [vm_compute; discriminate |]).
      apply Forall_nil_2.
Defined.

Lemma closeIndexed_object_frame_witness :
  exists b', closeIndexed 1 9 false nestedSeededObject = (b', Ret tt) /\
    _stack b' = [0] /\
    (forall a, a < 9 ->
       _start b' a = if (1 <? 4) && (a =? 3 * 1 + 1) then 1 else _start nestedSeededObject a) /\
    _start nestedSeededObject 4 = 0 /\ _start b' 4 = 1.
Proof.
  destruct (closeIndexed_object_frame 1 nestedSeededObject 9 [9; 12; 0] 1 3)
    as (b' & Hc & Hst & Hbytes).
  - lia.
  - vm_compute. split; [discriminate | reflexivity].
  - vm_compute. reflexivity.
  - lia.
  - exists b'. split; [exact Hc |]. split; [exact Hst |]. split; [exact Hbytes |].
    split; [reflexivity |]. exact (Hbytes 4 ltac:(lia)).
Defined.


(** ** What [set] appends *)

Lemma memcpy_outside l : forall m dst i,
  i < dst \/ dst + Z.of_nat (length l) <= i -> memcpy m dst l i = m i.
Proof.
  induction l as [| x l IH]; intros m dst i Hi; cbn [memcpy].
  - reflexivity.
  - cbn [length] in Hi. rewrite IH by lia. apply store_ne. lia.
Qed.

Lemma readBytes_memcpy l : forall m a, readBytes (memcpy m a l) a (length l) = l.
Proof.
  induction l as [| x l IH]; intros m a; cbn [memcpy length readBytes].
  - reflexivity.
  - f_equal; [| apply IH].
    rewrite memcpy_outside by lia. apply store_eq.
Qed.

Lemma bytesOfString_length s : length (bytesOfString s) = String.length s.
Proof.
  unfold bytesOfString. rewrite length_map.
  induction s as [| c s IH]; cbn; [reflexivity | f_equal; exact IH].
Qed.

Lemma uintWidth_range v : (1 <= uintWidth v <= 8)%nat.
Proof. unfold uintWidth. repeat case_match; lia. Qed.

Lemma intWidth_range v : (1 <= intWidth v <= 8)%nat.
Proof. unfold intWidth. repeat case_match; lia. Qed.

(** The eight bytes that [appendLength] writes are read back by the loop of
    [findAttrName]. *)
Lemma readLength_storeLE m base x :
  0 <= x < 18446744073709551616 ->
  readLength (storeLE 8 m (base + 1) x) base = x.
Proof.
  intros Hx. unfold readLength. cbn [fold_left storeLE].
  replace (base + 1 + 1) with (base + 2) by lia.
  replace (base + 2 + 1) with (base + 3) by lia.
  replace (base + 3 + 1) with (base + 4) by lia.
  replace (base + 4 + 1) with (base + 5) by lia.
  replace (base + 5 + 1) with (base + 6) by lia.
  replace (base + 6 + 1) with (base + 7) by lia.
  replace (base + 7 + 1) with (base + 8) by lia.
  rewrite store_eq.
  repeat (rewrite store_ne by lia; rewrite ?store_eq).
  change 255 with (Z.ones 8). rewrite !Z.land_ones by lia.
  rewrite !Z.shiftr_div_pow2, !Z.shiftl_mul_pow2 by lia.
  change (2 ^ 8) with 256.
  unfold wrap64. Z.to_euclidean_division_equations. lia.
Qed.

Section SetAppends.
Context {P : Platform}.

Lemma set_String_stringName (b : Builder) (pl : Payload) (un : bool) (s : string) :
  stringPayload pl = Some s ->
  0 <= _pos b -> _pos b + 9 + Z.of_nat (String.length s) < 18446744073709551616 ->
  let item := {| valueType := ValueType.String; payload := pl; _unindexed := un |} in
  let size := Z.of_nat (String.length s) in
  let b' := fst (set item b) in
  snd (set item b) = Ret (_pos b) /\
  stringName (_start b') (_pos b) = Some (bytesOfString s) /\
  stringEnd (_start b') (_pos b) (bytesOfString s) = _pos b' /\
  _pos b' = _pos b + (if size <=? 126 then 1 else 9) + size /\
  (forall a, a < _pos b -> _start b' a = _start b a).
Proof.
  intros Hpl Hpos Hfit item size b'. subst b' item.
  unfold set, mbind, M_bind, get. cbn [valueType payload].
  destruct (checkKeyIsString true b) as [b1 r] eqn:Hk.
  pose proof (checkKeyIsString_sameBuffer _ _ _ _ Hk) as [(Hp & Hm & _) _].
  assert (r = Ret tt) as ->.
  { unfold checkKeyIsString in Hk. rewrite andb_false_r in Hk.
    repeat case_match; congruence. }
  rewrite Hpl. fold size.
  pose proof (bytesOfString_length s) as Hlen.
  unfold stringEnd.
  destruct (Z.leb_spec size 126) as [Hshort | Hlong].
  - cbn -[Z.add Z.sub Z.of_nat]. rewrite Hp, Hm, Hlen. fold size. unwrap.
    rewrite memcpy_outside by lia. rewrite store_eq. rewrite wrap8_small by lia.
    split; [reflexivity |]. split; [| split; [| split; [lia |]]].
    + unfold stringName.
      rewrite memcpy_outside by lia. rewrite store_eq.
      replace ((64 <=? 64 + size) && (64 + size <=? 190)) with true by lia.
      replace (Z.to_nat (64 + size - 64)) with (length (bytesOfString s)) by lia.
      rewrite readBytes_memcpy. reflexivity.
    + replace (64 + size =? 191) with false by lia. lia.
    + intros a Ha. rewrite memcpy_outside by lia. apply store_ne. lia.
  - cbn -[Z.add Z.sub Z.of_nat storeLE]. rewrite Hp, Hm, Hlen. fold size.
    change (Z.of_nat 8) with 8. unwrap.
    rewrite memcpy_outside by lia. rewrite storeLE_outside by lia. rewrite store_eq.
    split; [reflexivity |]. split; [| split; [cbn [Z.eqb Pos.eqb]; lia | split; [lia |]]].
    + unfold stringName.
      rewrite memcpy_outside by lia. rewrite storeLE_outside by lia. rewrite store_eq.
      cbn [Z.leb Z.compare Pos.compare Pos.compare_cont andb Z.eqb Pos.eqb].
      assert (Hrl : readLength (memcpy (storeLE 8 (store (_start b) (_pos b) 191)
                                          (_pos b + 1) size) (_pos b + 1 + 8) (bytesOfString s))
                      (_pos b) = size).
      { rewrite <- (readLength_storeLE (store (_start b) (_pos b) 191) (_pos b) size) at 2
          by lia.
        unfold readLength. cbn [fold_left].
        rewrite !(memcpy_outside (bytesOfString s)) by lia. reflexivity. }
      rewrite Hrl.
      replace (Z.to_nat size) with (length (bytesOfString s)) by lia.
      rewrite readBytes_memcpy. reflexivity.
    + intros a Ha. rewrite memcpy_outside by lia. rewrite storeLE_outside by lia.
      apply store_ne. lia.
Qed.

(** X10: a string that [set] writes is read back by [findAttrName].  [set]
    with ValueType::String and a string payload throws nothing, whatever
    the state of the Builder; it returns the position it was called at, and
    [findAttrName] at that position finds the very bytes of the string, in
    the short form (up to 126 bytes, one head byte) and in the long form
    (head 0xbf and eight bytes of length) alike.  The bytes before the old
    position are not touched. *)
Theorem set_String_findAttrName (b : Builder) (pl : Payload) (un : bool) (s : string) :
  stringPayload pl = Some s ->
  0 <= _pos b -> _pos b + 9 + Z.of_nat (String.length s) < 18446744073709551616 ->
  let item := {| valueType := ValueType.String; payload := pl; _unindexed := un |} in
  let size := Z.of_nat (String.length s) in
  let b' := fst (set item b) in
  snd (set item b) = Ret (_pos b) /\
  findAttrName (_start b') (_pos b) = inr (bytesOfString s) /\
  _pos b' = _pos b + (if size <=? 126 then 1 else 9) + size /\
  (forall a, a < _pos b -> _start b' a = _start b a).
Proof.
  intros Hpl Hpos Hfit item size b'.
  destruct (set_String_stringName b pl un s Hpl Hpos Hfit) as (Hret & Hname & _ & Hp & Hframe).
  split; [exact Hret |]. split; [| split; [exact Hp | exact Hframe]].
  unfold findAttrName. subst b' item. rewrite Hname. reflexivity.
Qed.

End SetAppends.


Section SetFrame.
Context {P : Platform}.

Ltac payload_cases H :=
  repeat match type of H with
         | context [match ?x with _ => _ end] =>
             match type of x with
             | bool => destruct x eqn:?
             | Payload => destruct x eqn:?
             | option _ => destruct x eqn:?
             end; cbn -[Z.add Z.of_nat storeLE memcpy] in H
         end.

(** What a [set] that returned has done to the Builder. *)
Lemma set_appends_frame (item : Value) (b b' : Builder) (p : Z) :
  0 <= _pos b ->
  _pos b + 9 + match stringPayload (payload item) with
               | Some s => Z.of_nat (String.length s)
               | None => 0
               end < 18446744073709551616 ->
  set item b = (b', Ret p) ->
  p = _pos b /\ _pos b < _pos b' /\
  (forall a, a < _pos b -> _start b' a = _start b a) /\
  match valueType item with
  | ValueType.Array | ValueType.Object => _stack b' = _stack b ++ [_pos b]
  | _ => _stack b' = _stack b /\ _index b' = _index b
  end.
Proof.
  intros Hpos Hfit H.
  unfold set, mbind, M_bind, get in H.
  destruct (checkKeyIsString _ b) as [b1 r] eqn:Hk.
  apply checkKeyIsString_sameBuffer in Hk as [(Hp & Hm & Hs & Hi & _) [-> | ->]];
    [| discriminate H].
  destruct item as [vt pl un]. cbn [valueType payload] in *.
  assert (Hfit9 : _pos b + 9 < 18446744073709551616).
  { destruct (stringPayload pl); lia. }
  destruct vt; cbn -[Z.add Z.of_nat storeLE memcpy] in H; payload_cases H;
    try discriminate H; injection H as <- <-.
  all: cbn -[Z.add Z.of_nat storeLE memcpy].
  all: rewrite ?Hp, ?Hm, ?Hs, ?Hi.
  all: repeat match goal with
              | Heq : stringPayload _ = _ |- _ => rewrite Heq in Hfit; clear Heq
              | |- context [uintWidth ?v] =>
                  pose proof (uintWidth_range v); generalize dependent (uintWidth v); intros
              | |- context [intWidth ?v] =>
                  pose proof (intWidth_range v); generalize dependent (intWidth v); intros
              end.
  all: rewrite ?bytesOfString_length.
  all: unwrap.
  all: split; [reflexivity | split; [lia | split; [| auto]]].
  all: intros a Ha.
  all: repeat first [ rewrite store_ne by lia | rewrite storeLE_outside by lia
                    | rewrite memcpy_outside by lia ].
  all: reflexivity.
Qed.

(** The key flag after a [set] that returned: [checkKeyIsString] has
    flipped it if the innermost open compound is an object, and nothing
    else touches it. *)
Lemma set_keyWritten (item : Value) (b b' : Builder) (p : Z) :
  set item b = (b', Ret p) ->
  _keyWritten b' =
    match last (_stack b) with
    | Some tos =>
        if (_start b tos =? 0x0b) || (_start b tos =? 0x14)
        then negb (_keyWritten b) else _keyWritten b
    | None => _keyWritten b
    end.
Proof.
  intros H. unfold set, mbind, M_bind, get in H.
  destruct (checkKeyIsString _ b) as [b1 r] eqn:Hk.
  assert (Hflag : r = Ret tt ->
            _keyWritten b1 =
              match last (_stack b) with
              | Some tos =>
                  if (_start b tos =? 0x0b) || (_start b tos =? 0x14)
                  then negb (_keyWritten b) else _keyWritten b
              | None => _keyWritten b
              end).
  { intros ->. unfold checkKeyIsString in Hk.
    destruct (last (_stack b)) as [tos |]; [| injection Hk as <-; reflexivity].
    destruct ((_start b tos =? 0x0b) || (_start b tos =? 0x14));
      [| injection Hk as <-; reflexivity].
    destruct (negb (_keyWritten b) && negb _); [discriminate Hk |].
    injection Hk as <-. reflexivity. }
  destruct r as [[] | ex |]; [| discriminate H | discriminate H].
  rewrite <- (Hflag eq_refl). clear Hflag Hk.
  destruct item as [vt pl un]. cbn [valueType payload] in H.
  destruct vt; cbn -[Z.add Z.of_nat storeLE memcpy] in H;
    repeat match type of H with
           | context [match ?x with _ => _ end] =>
               match type of x with
               | bool => destruct x eqn:?
               | Payload => destruct x eqn:?
               | option _ => destruct x eqn:?
               end; cbn -[Z.add Z.of_nat storeLE memcpy] in H
           end;
    try discriminate H; injection H as <- <-; reflexivity.
Qed.

(** X11: [set] only appends.  When [set] returns, for whatever type of
    value, it returns the position it was called at, the position has
    moved forward, and no byte before the old position has changed; an
    Array or an Object pushes the old position on the nesting stack, every
    other value leaves the stack and the member offsets as they were.  The
    one other thing that changes is the key flag, which is flipped if the
    innermost open compound is an object. *)
Theorem set_appends (item : Value) (b b' : Builder) (p : Z) :
  0 <= _pos b ->
  _pos b + 9 + match stringPayload (payload item) with
               | Some s => Z.of_nat (String.length s)
               | None => 0
               end < 18446744073709551616 ->
  set item b = (b', Ret p) ->
  (p = _pos b /\ _pos b < _pos b' /\
   (forall a, a < _pos b -> _start b' a = _start b a) /\
   match valueType item with
   | ValueType.Array | ValueType.Object => _stack b' = _stack b ++ [_pos b]
   | _ => _stack b' = _stack b /\ _index b' = _index b
   end) /\
  _keyWritten b' =
    match last (_stack b) with
    | Some tos =>
        if (_start b tos =? 0x0b) || (_start b tos =? 0x14)
        then negb (_keyWritten b) else _keyWritten b
    | None => _keyWritten b
    end.
Proof.
  intros Hpos Hfit H. split.
  - exact (set_appends_frame item b b' p Hpos Hfit H).
  - exact (set_keyWritten item b b' p H).
Qed.

End SetFrame.


Section AddRemove.
Context {P : Platform}.

(** X12: [removeLast] undoes [add], but for the key flag.  In an open
    compound in which a member may start ([_keyWritten] is off), [add] of a
    value that is not itself a compound, followed by [removeLast], restores
    the append position, the nesting stack and the member offsets, and no
    byte before the position has changed.  The flag [_keyWritten] is not
    restored: if the compound is an object, the member that was added and
    removed was a key, and the Builder goes on as if that key were still
    there, taking the next value for its value. *)
Theorem add_removeLast (item : Value) (b b1 : Builder) (p tos : Z) (rest : list Z) :
  _stack b = rest ++ [tos] -> (depth b < length (_index b))%nat ->
  _keyWritten b = false ->
  0 <= tos <= _pos b ->
  _pos b + 9 + match stringPayload (payload item) with
               | Some s => Z.of_nat (String.length s)
               | None => 0
               end < 18446744073709551616 ->
  valueType item <> ValueType.Array -> valueType item <> ValueType.Object ->
  add item b = (b1, Ret p) ->
  exists b2, removeLast b1 = (b2, Ret tt) /\
    _pos b2 = _pos b /\ _stack b2 = _stack b /\ _index b2 = _index b /\
    (forall a, a < _pos b -> _start b2 a = _start b a) /\
    _keyWritten b2 = (_start b tos =? 0x0b) || (_start b tos =? 0x14).
Proof.
  intros Hs Hdepth Hkey Htos Hfit Harr Hobj Hadd.
  assert (Hfit9 : _pos b + 9 < 18446744073709551616).
  { destruct (stringPayload (payload item)); lia. }
  unfold add in Hadd. rewrite Hs, last_snoc, Hkey in Hadd.
  set (b0 := setTopIndex (topIndex b ++ [_pos b -% tos]) b) in Hadd.
  pose proof (set_appends_frame item b0 b1 p) as Happ.
  pose proof (set_keyWritten item b0 b1 p Hadd) as Hflag.
  specialize (Happ ltac:(cbn; lia) Hfit Hadd).
  destruct Happ as (Hp & Hlt & Hbytes & Hrest).
  assert (Hsi : _stack b1 = _stack b0 /\ _index b1 = _index b0).
  { destruct (valueType item); try exact Hrest; contradiction. }
  destruct Hsi as [Hs1 Hi1].
  change (_stack b0) with (_stack b) in Hs1, Hflag.
  change (_start b0) with (_start b) in Hflag, Hbytes.
  change (_pos b0) with (_pos b) in Hbytes, Hlt, Hp.
  change (_keyWritten b0) with (_keyWritten b) in Hflag.
  change (_index b0) with (<[depth b := topIndex b ++ [_pos b -% tos]]> (_index b)) in Hi1.
  rewrite Hs, last_snoc, Hkey in Hflag.
  assert (Htop : topIndex b1 = topIndex b ++ [_pos b -% tos]).
  { unfold topIndex at 1, depth. rewrite Hs1, Hi1.
    apply list_lookup_total_insert_eq. exact Hdepth. }
  unfold removeLast. rewrite Hs1, Hs, last_snoc, Htop, last_snoc.
  eexists. split; [reflexivity |].
  cbn [_pos _stack _index _start _keyWritten setTopIndex withIndex withPos].
  split; [unwrap; lia |]. split; [rewrite Hs1, Hs; reflexivity |].
  split.
  { unfold depth. cbn [_stack withPos]. rewrite Hs1, Hi1, removelast_last.
    rewrite list_insert_insert_eq. apply list_insert_id.
    apply list_lookup_lookup_total_lt. exact Hdepth. }
  split; [exact Hbytes |].
  rewrite Hflag. destruct ((_start b tos =? 11) || (_start b tos =? 20)); reflexivity.
Qed.

End AddRemove.


Section OpenClose.
Context {P : Platform}.

(** The member offsets of a compound that has just been opened. *)
Lemma fresh_top_empty (idx : list (list Z)) (d : nat) :
  (if (length idx <=? d)%nat then idx ++ [[]] else <[d := []]> idx) !!! d = [].
Proof.
  destruct (Nat.leb_spec (length idx) d) as [Hle | Hlt].
  - rewrite list_lookup_total_alt.
    destruct (decide (length idx = d)) as [<- | Hne].
    + rewrite lookup_app_r by lia. rewrite Nat.sub_diag. reflexivity.
    + rewrite lookup_ge_None_2; [reflexivity |]. rewrite length_app. cbn. lia.
  - apply list_lookup_total_insert_eq. exact Hlt.
Qed.

(** X13: an empty compound takes one byte.  [set] of an Array or an Object
    followed at once by [close] leaves the single byte 0x01 (array) or 0x0a
    (object) at the position the compound was opened at, whatever hint it
    was opened with; the position has moved by one, the nesting stack is
    what it was before the [set], and nothing before the position has
    changed. *)
Theorem set_close_empty (rounds : nat) (item : Value) (b b1 : Builder) (p : Z) :
  valueType item = ValueType.Array \/ valueType item = ValueType.Object ->
  0 <= _pos b -> _pos b + 9 < 18446744073709551616 ->
  set item b = (b1, Ret p) ->
  exists b2, close rounds b1 = (b2, Ret tt) /\
    _start b2 (_pos b) = (match valueType item with ValueType.Array => 0x01 | _ => 0x0a end) /\
    _pos b2 = _pos b + 1 /\ _stack b2 = _stack b /\
    (forall a, a < _pos b -> _start b2 a = _start b a).
Proof.
  intros Htype Hpos Hfit H.
  unfold set, mbind, M_bind, get in H.
  destruct (checkKeyIsString _ b) as [b0 r] eqn:Hk.
  apply checkKeyIsString_sameBuffer in Hk as [(Hp & Hm & Hs & Hi & _) [-> | ->]];
    [| discriminate H].
  destruct item as [vt pl un]. cbn [valueType] in *.
  assert (Hopen : b1 = fst (addCompoundValue (if vt is ValueType.Array
                                              then (if un then 0x13 else 0x06)
                                              else (if un then 0x14 else 0x0b)) b0)).
  { destruct Htype as [-> | ->]; cbn in H; injection H as <- _; reflexivity. }
  clear H. cbn [addCompoundValue modify fst] in Hopen.
  set (type := if vt is ValueType.Array then (if un then 0x13 else 0x06)
               else (if un then 0x14 else 0x0b)) in Hopen.
  assert (Harr : (type =? 0x06) || (type =? 0x13)
                 = if vt is ValueType.Array then true else false).
  { subst type. destruct Htype as [-> | ->]; destruct un; reflexivity. }
  rewrite Hp, Hm, Hs, Hi in Hopen. subst b1.
  unfold close. cbn [_stack _start _pos _index options]. rewrite last_snoc.
  rewrite store_eq, Harr.
  assert (Htop : topIndex
            {| _start := store (_start b) (_pos b) type; _pos := _pos b +% 9;
               _stack := _stack b ++ [_pos b];
               _index := if (length (_index b) <=? length (_stack b ++ [_pos b]) - 1)%nat
                         then _index b ++ [[]]
                         else <[(length (_stack b ++ [_pos b]) - 1)%nat := []]> (_index b);
               _keyWritten := _keyWritten b0; options := options b0 |} = []).
  { unfold topIndex, depth. cbn [_stack _index]. apply fresh_top_empty. }
  rewrite Htop.
  eexists. split; [reflexivity |].
  unfold closeEmptyArrayOrObject.
  cbn [_start _pos _stack popStack withStack withPos withStart].
  split; [rewrite store_eq; destruct Htype as [-> | ->]; reflexivity |].
  split; [unwrap; lia |]. split; [apply removelast_last |].
  intros a Ha. rewrite !store_ne by lia. reflexivity.
Qed.

End OpenClose.


(** ** Looking up a key in an open object *)

Section KeyLookup.
Context {P : Platform}.

Lemma hasKeyLoop_getKeyLoop m tos key : forall index,
  match hasKeyLoop m tos key index, getKeyLoop m tos key index with
  | Ret true, Ret (Some _) => True
  | Ret false, Ret None => True
  | Throw e, Throw e' => e = e'
  | _, _ => False
  end.
Proof.
  induction index as [| o index IH]; cbn [hasKeyLoop getKeyLoop]; [exact I |].
  destruct (keyIsEqualString m (tos +% o) key) as [ex | []]; [reflexivity | exact I | exact IH].
Qed.

(** X14: [hasKey] and [getKey] agree.  On every Builder and for every key
    the two either throw the same exception, or [hasKey] returns true and
    [getKey] a slice in the buffer, or [hasKey] returns false and [getKey]
    the slice of type None; neither of them is left running.  Both throw
    BuilderNeedOpenObject when no compound is open and when the innermost
    open compound is not an object. *)
Theorem hasKey_getKey_agree (key : string) (b : Builder) :
  match hasKey key b, getKey key b with
  | Ret true, Ret (Some _) => True
  | Ret false, Ret None => True
  | Throw e, Throw e' => e = e'
  | _, _ => False
  end /\
  (_stack b = [] -> hasKey key b = Throw BuilderNeedOpenObject) /\
  (forall tos rest, _stack b = rest ++ [tos] ->
     _start b tos <> 0x0b -> _start b tos <> 0x14 ->
     hasKey key b = Throw BuilderNeedOpenObject).
Proof.
  split; [| split].
  - unfold hasKey, getKey.
    destruct (last (_stack b)) as [tos |]; [| reflexivity].
    destruct (negb (_start b tos =? 11) && negb (_start b tos =? 20)); [reflexivity |].
    pose proof (hasKeyLoop_getKeyLoop (_start b) tos (bytesOfString key) (topIndex b)) as H.
    destruct (topIndex b); [exact I | exact H].
  - intros Hs. unfold hasKey. rewrite Hs. reflexivity.
  - intros tos rest Hs H1 H2. unfold hasKey. rewrite Hs, last_snoc.
    replace (_start b tos =? 11) with false by lia.
    replace (_start b tos =? 20) with false by lia. reflexivity.
Qed.

Lemma hasKeyLoop_members m tos key : forall index,
  membersResolve m tos index ->
  (hasKeyLoop m tos key index = Ret true /\ In (inr key) (memberNames m tos index)) \/
  (hasKeyLoop m tos key index = Ret false /\ ~ In (inr key) (memberNames m tos index)).
Proof.
  induction index as [| o index IH]; intros Hmem; cbn [hasKeyLoop memberNames map].
  - right. split; [reflexivity | intros []].
  - unfold membersResolve in Hmem. apply Forall_cons in Hmem as [[_ [name Hname]] Hrest].
    unfold keyIsEqualString. rewrite Hname.
    destruct (bool_decide_reflect (name = key)) as [-> | Hne].
    + left. split; [reflexivity | left; reflexivity].
    + destruct (IH Hrest) as [[Ht Hin] | [Hf Hnin]].
      * left. split; [exact Ht | right; exact Hin].
      * right. split; [exact Hf |]. intros [Heq | Hin]; [| exact (Hnin Hin)].
        injection Heq as Heq. contradiction.
Qed.

(** X15: what [hasKey] answers.  In an open object whose keys all lead to
    an attribute name, [hasKey] returns, and it returns true exactly when
    one of the attribute names of the members is, byte for byte, the key
    asked for. *)
Theorem hasKey_members (key : string) (b : Builder) (tos : Z) (rest : list Z) :
  _stack b = rest ++ [tos] ->
  _start b tos = 0x0b \/ _start b tos = 0x14 ->
  membersResolve (_start b) tos (topIndex b) ->
  (hasKey key b = Ret true \/ hasKey key b = Ret false) /\
  (hasKey key b = Ret true <->
   In (inr (bytesOfString key)) (memberNames (_start b) tos (topIndex b))).
Proof.
  intros Hs Hhead Hmem.
  assert (Hk : hasKey key b = hasKeyLoop (_start b) tos (bytesOfString key) (topIndex b)).
  { unfold hasKey. rewrite Hs, last_snoc.
    replace (negb (_start b tos =? 11) && negb (_start b tos =? 20)) with false
      by (destruct Hhead as [-> | ->]; reflexivity).
    destruct (topIndex b); reflexivity. }
  rewrite Hk.
  destruct (hasKeyLoop_members (_start b) tos (bytesOfString key) (topIndex b) Hmem)
    as [[-> Hin] | [-> Hnin]].
  - split; [left; reflexivity | split; [intros _; exact Hin | reflexivity]].
  - split; [right; reflexivity | split; [discriminate | intros Hin; contradiction]].
Qed.

End KeyLookup.


Section PairLookup.
Context {P : Platform}.

Lemma readLength_range m base : 0 <= readLength m base < 18446744073709551616.
Proof. unfold readLength. cbn [fold_left]. apply wrap64_range. Qed.

(** A string that lies before [pos] is not changed by writes from [pos] on. *)
Lemma stringName_frame (m m' : Mem) (base pos : Z) (name : list Z) :
  (forall a, a < pos -> m' a = m a) ->
  stringName m base = Some name -> stringEnd m base name <= pos ->
  stringName m' base = Some name /\ m' base = m base.
Proof.
  intros Hframe Hname Hend. unfold stringEnd in Hend.
  assert (Hhead : m' base = m base).
  { apply Hframe. destruct (m base =? 191); lia. }
  split; [| exact Hhead].
  unfold stringName in *. rewrite Hhead.
  destruct ((64 <=? m base) && (m base <=? 190)) eqn:Hshort.
  - injection Hname as <-. f_equal. apply readBytes_ext. intros a Ha.
    rewrite readBytes_length in *. apply Hframe.
    replace (m base =? 191) with false in Hend by lia. lia.
  - destruct (Z.eqb_spec (m base) 191) as [H191 | _]; [| discriminate Hname].
    assert (Hn : name = readBytes m (base + 1 + 8) (Z.to_nat (readLength m base)))
      by congruence.
    clear Hname. subst name. rewrite readBytes_length in Hend.
    assert (Hrl : readLength m' base = readLength m base).
    { unfold readLength. cbn [fold_left]. rewrite !Hframe by lia. reflexivity. }
    rewrite Hrl. f_equal. apply readBytes_ext. intros a Ha. apply Hframe. lia.
Qed.

Lemma keyByteSize_string (m : Mem) (base : Z) (name : list Z) :
  0 <= base ->
  stringName m base = Some name -> stringEnd m base name < 18446744073709551616 ->
  base + keyByteSize m base = stringEnd m base name.
Proof.
  intros Hbase Hname Hend. unfold stringName, keyByteSize, stringEnd in *.
  destruct ((64 <=? m base) && (m base <=? 190)) eqn:Hshort.
  - injection Hname as <-. rewrite readBytes_length.
    replace (m base =? 191) with false by lia. lia.
  - destruct (Z.eqb_spec (m base) 191) as [H191 | _]; [| discriminate Hname].
    assert (Hn : name = readBytes m (base + 1 + 8) (Z.to_nat (readLength m base)))
      by congruence.
    clear Hname. subst name. rewrite readBytes_length in *.
    pose proof (readLength_range m base). unwrap. lia.
Qed.

Lemma findAttrName_string (m : Mem) (base : Z) (name : list Z) :
  stringName m base = Some name -> findAttrName m base = inr name.
Proof. intros H. unfold findAttrName. rewrite H. reflexivity. Qed.

Lemma hasKeyLoop_app m tos key l2 : forall l1,
  hasKeyLoop m tos key l1 = Ret false ->
  hasKeyLoop m tos key (l1 ++ l2) = hasKeyLoop m tos key l2 /\
  getKeyLoop m tos key (l1 ++ l2) = getKeyLoop m tos key l2.
Proof.
  induction l1 as [| o l1 IH]; intros H; cbn [hasKeyLoop getKeyLoop app] in *.
  - split; reflexivity.
  - destruct (keyIsEqualString m (tos +% o) key) as [ex | []]; try discriminate H.
    apply IH. exact H.
Qed.

(** The scan of members whose keys are strings lying before [pos] is the
    same in every buffer that agrees with [m] before [pos]. *)
Lemma hasKeyLoop_frame (m m' : Mem) (tos pos : Z) (key : list Z) : forall index,
  (forall a, a < pos -> m' a = m a) -> 0 <= tos -> pos < 18446744073709551616 ->
  Forall (fun o => 0 <= o /\
                   exists name, stringName m (tos + o) = Some name /\
                                stringEnd m (tos + o) name <= pos) index ->
  hasKeyLoop m' tos key index = hasKeyLoop m tos key index /\
  (hasKeyLoop m tos key index = Ret true \/ hasKeyLoop m tos key index = Ret false).
Proof.
  intros index Hframe Htos Hpos. induction index as [| o index IH]; intros Hall.
  - split; [reflexivity | right; reflexivity].
  - apply Forall_cons in Hall as [(Ho & name & Hname & Hend) Hrest].
    cbn [hasKeyLoop]. unfold keyIsEqualString.
    assert (Hbase : tos +% o = tos + o).
    { apply wrap64_small. unfold stringEnd in Hend. destruct (m (tos + o) =? 191); lia. }
    rewrite Hbase.
    destruct (stringName_frame m m' (tos + o) pos name Hframe Hname Hend) as [Hname' _].
    rewrite (findAttrName_string _ _ _ Hname), (findAttrName_string _ _ _ Hname').
    destruct (bool_decide (name = key)); [split; [reflexivity | left; reflexivity] |].
    apply IH. exact Hrest.
Qed.

(** X16: a pair that was added is found.  In an open object whose keys are
    strings, [add] of a string key followed by [add] of a value that is not
    a compound makes [hasKey] return true for that key; and if the object
    had no member of that name before, [getKey] returns the slice that
    starts where the value was written, which is what the second [add]
    returned. *)
Theorem add_pair_getKey (k : string) (v : Value) (b b1 b2 : Builder) (p1 p2 tos : Z)
    (rest : list Z) :
  _stack b = rest ++ [tos] ->
  _start b tos = 0x0b \/ _start b tos = 0x14 ->
  _keyWritten b = false ->
  (depth b < length (_index b))%nat ->
  0 <= tos < _pos b ->
  _pos b + 18 + Z.of_nat (String.length k)
    + match stringPayload (payload v) with
      | Some s => Z.of_nat (String.length s)
      | None => 0
      end < 18446744073709551616 ->
  stringKeysInside b tos ->
  valueType v <> ValueType.Array -> valueType v <> ValueType.Object ->
  add (str k) b = (b1, Ret p1) -> add v b1 = (b2, Ret p2) ->
  hasKey k b2 = Ret true /\
  (hasKey k b = Ret false -> getKey k b2 = Ret (Some p2)).
Proof.
  intros Hs Hhead Hkey Hdepth Htos Hfit Hkeys Harr Hobj Hadd1 Hadd2.
  assert (Hsz : 0 <= match stringPayload (payload v) with
                     | Some s => Z.of_nat (String.length s)
                     | None => 0
                     end) by (destruct (stringPayload (payload v)); lia).
  (* the key *)
  unfold add in Hadd1. rewrite Hs, last_snoc, Hkey in Hadd1.
  set (b0 := setTopIndex (topIndex b ++ [_pos b -% tos]) b) in Hadd1.
  destruct (set_String_stringName b0 (CString k) false k eq_refl
              ltac:(cbn; lia) ltac:(cbn; lia)) as (_ & Hname1 & Hend1 & Hpos1 & Hframe1).
  pose proof (set_appends_frame (str k) b0 b1 p1 ltac:(cbn; lia) ltac:(cbn; lia) Hadd1)
    as (_ & _ & _ & Hs1 & Hi1).
  pose proof (set_keyWritten (str k) b0 b1 p1 Hadd1) as Hflag1.
  change (set {| valueType := ValueType.String; payload := CString k; _unindexed := false |} b0)
    with (set (str k) b0) in Hname1, Hend1, Hpos1, Hframe1.
  rewrite Hadd1 in Hname1, Hend1, Hpos1, Hframe1. cbn [fst] in Hname1, Hend1, Hpos1, Hframe1.
  change (_pos b0) with (_pos b) in *. change (_start b0) with (_start b) in *.
  change (_stack b0) with (_stack b) in *.
  change (_keyWritten b0) with (_keyWritten b) in Hflag1.
  change (_index b0) with (<[depth b := topIndex b ++ [_pos b -% tos]]> (_index b)) in Hi1.
  rewrite Hs, last_snoc, Hkey in Hflag1.
  replace ((_start b tos =? 11) || (_start b tos =? 20)) with true in Hflag1
    by (destruct Hhead as [-> | ->]; reflexivity).
  cbn [negb] in Hflag1.
  assert (Hp1 : _pos b + 1 <= _pos b1 <= _pos b + 9 + Z.of_nat (String.length k)).
  { rewrite Hpos1. destruct (Z.of_nat (String.length k) <=? 126); lia. }
  (* the value *)
  unfold add in Hadd2. rewrite Hs1, Hs, last_snoc, Hflag1 in Hadd2.
  pose proof (set_appends_frame v b1 b2 p2 ltac:(lia) ltac:(lia) Hadd2) as (Hp2 & _ & Hframe2 & Hrest2).
  assert (Hsi2 : _stack b2 = _stack b1 /\ _index b2 = _index b1).
  { destruct (valueType v); try exact Hrest2; contradiction. }
  destruct Hsi2 as [Hs2 Hi2].
  (* the Builder after the pair *)
  assert (Hframe : forall a, a < _pos b -> _start b2 a = _start b a).
  { intros a Ha. rewrite Hframe2 by lia. apply Hframe1. exact Ha. }
  assert (Htop : topIndex b2 = topIndex b ++ [_pos b -% tos]).
  { unfold topIndex at 1, depth. rewrite Hs2, Hs1, Hi2, Hi1.
    apply list_lookup_total_insert_eq. exact Hdepth. }
  assert (Hhead2 : negb (_start b2 tos =? 11) && negb (_start b2 tos =? 20) = false).
  { rewrite Hframe by lia. destruct Hhead as [-> | ->]; reflexivity. }
  destruct (stringName_frame (_start b1) (_start b2) (_pos b) (_pos b1) (bytesOfString k)
              Hframe2 Hname1 ltac:(lia)) as [Hname2 Hbyte2].
  assert (Hnew : tos +% (_pos b -% tos) = _pos b) by (unwrap; lia).
  assert (Hold : hasKeyLoop (_start b2) tos (bytesOfString k) (topIndex b)
                 = hasKeyLoop (_start b) tos (bytesOfString k) (topIndex b) /\
                 (hasKeyLoop (_start b) tos (bytesOfString k) (topIndex b) = Ret true \/
                  hasKeyLoop (_start b) tos (bytesOfString k) (topIndex b) = Ret false)).
  { apply (hasKeyLoop_frame (_start b) (_start b2) tos (_pos b)); try assumption; lia. }
  destruct Hold as [Hsame Hcases].
  assert (Hlast : keyIsEqualString (_start b2) (_pos b) (bytesOfString k) = inr true).
  { unfold keyIsEqualString. rewrite (findAttrName_string _ _ _ Hname2).
    rewrite bool_decide_eq_true_2; reflexivity. }
  assert (Hk2 : hasKey k b2 = hasKeyLoop (_start b2) tos (bytesOfString k)
                                (topIndex b ++ [_pos b -% tos])).
  { unfold hasKey. rewrite Hs2, Hs1, Hs, last_snoc, Hhead2, Htop.
    destruct (topIndex b); reflexivity. }
  assert (Hg2 : getKey k b2 = getKeyLoop (_start b2) tos (bytesOfString k)
                                (topIndex b ++ [_pos b -% tos])).
  { unfold getKey. rewrite Hs2, Hs1, Hs, last_snoc, Hhead2, Htop.
    destruct (topIndex b); reflexivity. }
  split.
  - rewrite Hk2. destruct Hcases as [Htrue | Hfalse].
    + rewrite <- Hsame in Htrue. clear - Htrue.
      induction (topIndex b) as [| o l IH]; cbn [hasKeyLoop app] in *; [discriminate |].
      destruct (keyIsEqualString (_start b2) (tos +% o) (bytesOfString k)) as [ex | []];
        [discriminate | reflexivity | apply IH; exact Htrue].
    + rewrite <- Hsame in Hfalse.
      rewrite (proj1 (hasKeyLoop_app _ _ _ [_pos b -% tos] _ Hfalse)).
      cbn [hasKeyLoop]. rewrite Hnew, Hlast. reflexivity.
  - intros Hno.
    assert (Hfalse : hasKeyLoop (_start b) tos (bytesOfString k) (topIndex b) = Ret false).
    { unfold hasKey in Hno. rewrite Hs, last_snoc in Hno.
      replace (negb (_start b tos =? 11) && negb (_start b tos =? 20)) with false in Hno
        by (destruct Hhead as [-> | ->]; reflexivity).
      destruct (topIndex b); [reflexivity | exact Hno]. }
    rewrite <- Hsame in Hfalse.
    rewrite Hg2, (proj2 (hasKeyLoop_app _ _ _ [_pos b -% tos] _ Hfalse)).
    cbn [getKeyLoop]. rewrite Hnew, Hlast.
    pose proof (keyByteSize_string (_start b2) (_pos b) (bytesOfString k) ltac:(lia) Hname2)
      as Hsize.
    assert (Hend2 : stringEnd (_start b2) (_pos b) (bytesOfString k) = _pos b1).
    { unfold stringEnd in *. rewrite Hbyte2. exact Hend1. }
    rewrite Hend2 in Hsize. specialize (Hsize ltac:(lia)).
    f_equal. f_equal. rewrite Hp2.
    assert (0 <= keyByteSize (_start b2) (_pos b)) by lia.
    unwrap. exact Hsize.
Qed.

End PairLookup.


Lemma set_String_findAttrName_witness :
  snd (set (str "ab") openedArray) = Ret 9 /\
  findAttrName (_start (fst (set (str "ab") openedArray))) 9 = inr [97; 98] /\
  _pos (fst (set (str "ab") openedArray)) = 12 /\
  (forall a, a < 9 -> _start (fst (set (str "ab") openedArray)) a = _start openedArray a).
Proof.
  apply (set_String_findAttrName openedArray (CString "ab") false "ab").
  - reflexivity.
  - vm_compute. discriminate.
  - vm_compute. reflexivity.
Defined.

Lemma set_appends_witness :
  (10 = _pos oneMember /\
   _pos oneMember < _pos (fst (set (smallInt 7) oneMember)) /\
   (forall a, a < _pos oneMember ->
      _start (fst (set (smallInt 7) oneMember)) a = _start oneMember a) /\
   _stack (fst (set (smallInt 7) oneMember)) = _stack oneMember /\
   _index (fst (set (smallInt 7) oneMember)) = _index oneMember) /\
  _keyWritten (fst (set (smallInt 7) oneMember)) = false.
Proof.
  apply (set_appends (smallInt 7) oneMember (fst (set (smallInt 7) oneMember)) 10).
  - vm_compute. discriminate.
  - vm_compute. reflexivity.
  - reflexivity.
Defined.

Lemma add_removeLast_witness :
  exists b2, removeLast (fst (add (smallInt 7) oneMember)) = (b2, Ret tt) /\
    _pos b2 = _pos oneMember /\ _stack b2 = _stack oneMember /\
    _index b2 = _index oneMember /\
    (forall a, a < _pos oneMember -> _start b2 a = _start oneMember a) /\
    _keyWritten b2 = false.
Proof.
  apply (add_removeLast (smallInt 7) oneMember (fst (add (smallInt 7) oneMember)) 10 0 []).
  - reflexivity.
  - vm_compute. lia.
  - reflexivity.
  - vm_compute. split; discriminate.
  - vm_compute. reflexivity.
  - discriminate.
  - discriminate.
  - reflexivity.
Defined.

Lemma set_close_empty_witness :
  exists b2, close 1 (fst (set (array true) (emptyBuilder defaultOptions))) = (b2, Ret tt) /\
    _start b2 0 = 0x01 /\ _pos b2 = 1 /\ _stack b2 = [] /\
    (forall a, a < 0 -> _start b2 a = 0).
Proof.
  apply (set_close_empty 1 (array true) (emptyBuilder defaultOptions)
           (fst (set (array true) (emptyBuilder defaultOptions))) 0).
  - left. reflexivity.
  - vm_compute. discriminate.
  - vm_compute. reflexivity.
  - reflexivity.
Defined.

Lemma hasKey_getKey_agree_witness :
  match hasKey "b" twoMemberObject, getKey "b" twoMemberObject with
  | Ret true, Ret (Some _) => True
  | Ret false, Ret None => True
  | Throw e, Throw e' => e = e'
  | _, _ => False
  end /\
  (hasKey "b" twoMemberObject = Ret true /\ getKey "b" twoMemberObject = Ret (Some 14)) /\
  (hasKey "c" twoMemberObject = Ret false /\ getKey "c" twoMemberObject = Ret None) /\
  hasKey "a" (emptyBuilder defaultOptions) = Throw BuilderNeedOpenObject /\
  getKey "a" (emptyBuilder defaultOptions) = Throw BuilderNeedOpenObject /\
  hasKey "a" oneMember = Throw BuilderNeedOpenObject.
Proof.
  split; [exact (proj1 (hasKey_getKey_agree "b" twoMemberObject)) |].
  split; [split; vm_compute; reflexivity |].
  split; [split; vm_compute; reflexivity |].
  split; [| split].
  - apply (hasKey_getKey_agree "a" (emptyBuilder defaultOptions)). reflexivity.
  - reflexivity.
  - apply (hasKey_getKey_agree "a" oneMember) with (tos := 0) (rest := []).
    + reflexivity.
    + vm_compute. discriminate.
    + vm_compute. discriminate.
Defined.

Lemma hasKey_members_witness :
  (hasKey "b" twoMemberObject = Ret true \/ hasKey "b" twoMemberObject = Ret false) /\
  (hasKey "b" twoMemberObject = Ret true <->
   In (inr (bytesOfString "b")) (memberNames (_start twoMemberObject) 0
                                  (topIndex twoMemberObject))).
Proof.
  apply (hasKey_members "b" twoMemberObject 0 []).
  - reflexivity.
  - left. reflexivity.
  - repeat constructor; try discriminate; eexists; vm_compute; reflexivity.
Defined.

Lemma add_pair_getKey_witness :
  hasKey "c" (exec (add (str "c") ;; add (smallInt 3)) twoMemberObject) = Ret true /\
  (hasKey "c" twoMemberObject = Ret false ->
   getKey "c" (exec (add (str "c") ;; add (smallInt 3)) twoMemberObject) = Ret (Some 17)).
Proof.
  apply (add_pair_getKey "c" (smallInt 3) twoMemberObject
           (fst (add (str "c") twoMemberObject))
           (exec (add (str "c") ;; add (smallInt 3)) twoMemberObject) 15 17 0 []).
  - reflexivity.
  - left. reflexivity.
  - reflexivity.
  - vm_compute. lia.
  - vm_compute. split; [discriminate | reflexivity].
  - vm_compute. reflexivity.
  - unfold stringKeysInside. change (topIndex twoMemberObject) with [9; 12].
    repeat (apply Forall_cons_2;
            [split; [lia | eexists; split; [vm_compute; reflexivity
                                           | vm_compute; discriminate]] |]).
    apply Forall_nil_2.
  - discriminate.
  - discriminate.
  - reflexivity.
  - reflexivity.
Defined.


(** ** [set] with a ValuePair *)

Section SetPair.
Context {P : Platform}.


(** X18: what else a ValuePair can be.  With the type Custom and a null
    pointer, [set] reserves: where the key check lets the value through,
    the position moves forward by the size, no byte of the buffer changes,
    and the old position is returned.  With a type other than Binary,
    String and Custom the call throws (BuilderUnexpectedType, unless the
    key check has thrown BuilderKeyMustBeString before), and the position
    and the bytes of the buffer are what they were. *)
Theorem setPair_Custom_reserves (b b1 : Builder) (size : Z) (pair : ValuePair) :
  (pairType pair = ValueType.Custom -> getStart pair = None -> getSize pair = size ->
   checkKeyIsString false b = (b1, Ret tt) ->
   0 <= _pos b -> 0 <= size -> _pos b + size < 18446744073709551616 ->
   setPair pair b = (withPos (_pos b + size) b1, Ret (_pos b)) /\
   _start b1 = _start b) /\
  (pairType pair <> ValueType.Binary -> pairType pair <> ValueType.String ->
   pairType pair <> ValueType.Custom ->
   (snd (setPair pair b) = Throw BuilderUnexpectedType \/
    snd (setPair pair b) = Throw BuilderKeyMustBeString) /\
   sameBuffer b (fst (setPair pair b))).
Proof.
  split.
  - intros Ht Hnull Hsize Hk Hpos Hsz Hfit.
    pose proof (checkKeyIsString_sameBuffer _ _ _ _ Hk) as [(Hp & Hm & _) _].
    split; [| exact Hm].
    unfold setPair, mbind, M_bind, get. rewrite Ht, Hnull, Hsize, Hk.
    cbn -[Z.add Z.sub]. rewrite Hp. unwrap.
    replace (_pos b + size - size) with (_pos b) by lia. reflexivity.
  - intros HB HS HC.
    unfold setPair, mbind, M_bind, get.
    destruct (checkKeyIsString _ b) as [b0 r] eqn:Hk.
    apply checkKeyIsString_sameBuffer in Hk as [Hsame [-> | ->]].
    + destruct (pairType pair); try contradiction; cbn; auto.
    + cbn. auto.
Qed.

End SetPair.


(** ** Feeding a compound from an iterator *)

Section Iterators.
Context {P : Platform}.

Lemma readBytes_memcpy_outside n l m dst p :
  p + Z.of_nat n <= dst \/ dst + Z.of_nat (length l) <= p ->
  readBytes (memcpy m dst l) p n = readBytes m p n.
Proof. intros H. apply readBytes_ext. intros i Hi. apply memcpy_outside. lia. Qed.

(** [add] of a slice in an open array. *)
Lemma addSlice_in_array (item : Slice) (b : Builder) (tos : Z) (rest : list Z) :
  _stack b = rest ++ [tos] -> _start b tos = 0x06 \/ _start b tos = 0x13 ->
  _keyWritten b = false ->
  0 <= tos <= _pos b -> _pos b + Z.of_nat (length item) < 18446744073709551616 ->
  addSlice item b =
  ({| _start := memcpy (_start b) (_pos b) item;
      _pos := _pos b + Z.of_nat (length item);
      _stack := _stack b;
      _index := <[depth b := topIndex b ++ [_pos b - tos]]> (_index b);
      _keyWritten := false; options := options b |}, Ret (_pos b)).
Proof.
  intros Hs Hhead Hkey Htos Hfit.
  destruct b as [m p st ix kw op].
  cbn [_start _pos _stack _index _keyWritten options] in *. subst kw st.
  unfold addSlice. cbn [_stack _keyWritten]. rewrite last_snoc.
  unfold setSlice, mbind, M_bind, get, checkKeyIsString.
  cbn [_stack setTopIndex withIndex _start]. rewrite last_snoc.
  replace ((m tos =? 11) || (m tos =? 20)) with false
    by (destruct Hhead as [-> | ->]; reflexivity).
  cbn -[Z.add Z.sub Z.of_nat]. unwrap.
  replace (p + Z.of_nat (length item) - Z.of_nat (length item)) with p by lia.
  reflexivity.
Qed.

Lemma addValues_in_array : forall (sub : ArrayIterator) (b : Builder) (tos : Z) (rest : list Z),
  _stack b = rest ++ [tos] -> _start b tos = 0x06 \/ _start b tos = 0x13 ->
  _keyWritten b = false -> (depth b < length (_index b))%nat ->
  0 <= tos < _pos b ->
  _pos b + Z.of_nat (length (concat sub)) < 18446744073709551616 ->
  exists b', addValues sub b = (b', Ret tt) /\
    _pos b' = _pos b + Z.of_nat (length (concat sub)) /\
    readBytes (_start b') (_pos b) (length (concat sub)) = concat sub /\
    (forall a, a < _pos b -> _start b' a = _start b a) /\
    topIndex b' = topIndex b ++ sliceOffsets (_pos b - tos) sub /\
    _stack b' = _stack b /\ _keyWritten b' = false /\
    length (_index b') = length (_index b).
Proof.
  induction sub as [| item sub IH]; intros b tos rest Hs Hhead Hkey Hdepth Htos Hfit.
  - exists b. cbn [addValues concat length sliceOffsets readBytes].
    rewrite app_nil_r, Z.add_0_r. repeat split; auto.
  - cbn [concat] in Hfit |- *. rewrite length_app, Nat2Z.inj_add in Hfit |- *.
    cbn [addValues]. unfold mbind, M_bind.
    rewrite (addSlice_in_array item b tos rest Hs Hhead Hkey ltac:(lia) ltac:(lia)).
    set (b1 := {| _start := memcpy (_start b) (_pos b) item;
                  _pos := _pos b + Z.of_nat (length item);
                  _stack := _stack b;
                  _index := <[depth b := topIndex b ++ [_pos b - tos]]> (_index b);
                  _keyWritten := false; options := options b |}).
    destruct (IH b1 tos rest) as (b' & Hrun & Hpos & Hread & Hframe & Htop & Hst & Hk & Hlen).
    + exact Hs.
    + cbn [_start b1]. rewrite memcpy_outside by lia. exact Hhead.
    + reflexivity.
    + unfold depth. cbn [_stack _index b1]. rewrite length_insert. exact Hdepth.
    + cbn [_pos b1]. lia.
    + cbn [_pos b1]. lia.
    + exists b'. split; [exact Hrun |].
      cbn [_pos _start _stack _index b1] in *.
      split; [lia |]. split; [| split; [| split; [| split; [exact Hst | split; [exact Hk |]]]]].
      * replace (length item + length (concat sub))%nat
          with (length item + length (concat sub))%nat by reflexivity.
        rewrite readBytes_app. f_equal; [| exact Hread].
        erewrite readBytes_ext; [apply readBytes_memcpy |].
        intros i Hi. apply Hframe. lia.
      * intros a Ha. rewrite Hframe by lia. apply memcpy_outside. lia.
      * rewrite Htop. unfold topIndex at 1, depth. cbn [_stack _index b1].
        rewrite list_lookup_total_insert_eq by exact Hdepth.
        cbn [sliceOffsets]. rewrite <- app_assoc. cbn [app].
        replace (_pos b + Z.of_nat (length item) - tos)
          with (_pos b - tos + Z.of_nat (length item)) by lia.
        reflexivity.
      * rewrite Hlen. apply length_insert.
Qed.

(** X19: feeding an array from an iterator.  [add] with an ArrayIterator
    throws BuilderNeedOpenArray, leaving the Builder as it is, when no
    compound is open and when the innermost open compound is not an array.
    On an open array it writes the slices of the iterator back to back from
    the append position on, records for each of them the offset at which it
    starts, returns the old position, and leaves the array open; nothing
    before the old position changes. *)
Theorem addArrayIterator_appends (sub : ArrayIterator) (b : Builder) :
  (_stack b = [] -> addArrayIterator sub b = (b, Throw BuilderNeedOpenArray)) /\
  (forall tos rest, _stack b = rest ++ [tos] ->
     (_start b tos <> 0x06 -> _start b tos <> 0x13 ->
      addArrayIterator sub b = (b, Throw BuilderNeedOpenArray)) /\
     (_start b tos = 0x06 \/ _start b tos = 0x13 ->
      _keyWritten b = false -> (depth b < length (_index b))%nat ->
      0 <= tos < _pos b ->
      _pos b + Z.of_nat (length (concat sub)) < 18446744073709551616 ->
      exists b', addArrayIterator sub b = (b', Ret (_pos b)) /\
        _pos b' = _pos b + Z.of_nat (length (concat sub)) /\
        readBytes (_start b') (_pos b) (length (concat sub)) = concat sub /\
        (forall a, a < _pos b -> _start b' a = _start b a) /\
        topIndex b' = topIndex b ++ sliceOffsets (_pos b - tos) sub /\
        _stack b' = _stack b)).
Proof.
  split.
  - intros Hs. unfold addArrayIterator. rewrite Hs. reflexivity.
  - intros tos rest Hs. split.
    + intros H1 H2. unfold addArrayIterator. rewrite Hs, last_snoc.
      replace (_start b tos =? 6) with false by lia.
      replace (_start b tos =? 19) with false by lia. reflexivity.
    + intros Hhead Hkey Hdepth Htos Hfit.
      destruct (addValues_in_array sub b tos rest Hs Hhead Hkey Hdepth Htos Hfit)
        as (b' & Hrun & Hpos & Hread & Hframe & Htop & Hst & _).
      exists b'. unfold addArrayIterator. rewrite Hs, last_snoc.
      replace (negb (_start b tos =? 6) && negb (_start b tos =? 19)) with false
        by (destruct Hhead as [-> | ->]; reflexivity).
      unfold mbind, M_bind. rewrite Hrun.
      split; [reflexivity | split; [exact Hpos | split; [exact Hread | split;
        [exact Hframe | split; [exact Htop | rewrite Hst; exact Hs]]]]].
Qed.

(** [add] of a key slice and of a value slice in an open object. *)
Lemma addSlice_pair_in_object (key value : Slice) (b : Builder) (tos : Z) (rest : list Z) :
  _stack b = rest ++ [tos] -> _start b tos = 0x0b \/ _start b tos = 0x14 ->
  _keyWritten b = false -> isString key = true ->
  0 <= tos < _pos b ->
  _pos b + Z.of_nat (length (key ++ value)) < 18446744073709551616 ->
  (addSlice key ;; addSlice value) b =
  ({| _start := memcpy (_start b) (_pos b) (key ++ value);
      _pos := _pos b + Z.of_nat (length (key ++ value));
      _stack := _stack b;
      _index := <[depth b := topIndex b ++ [_pos b - tos]]> (_index b);
      _keyWritten := false; options := options b |},
   Ret (_pos b + Z.of_nat (length key))).
Proof.
  intros Hs Hhead Hkey Hstr Htos Hfit.
  rewrite length_app, Nat2Z.inj_add in *.
  destruct b as [m p st ix kw op].
  cbn [_start _pos _stack _index _keyWritten options] in *. subst kw st.
  assert (Hcopy : memcpy m p (key ++ value)
                  = memcpy (memcpy m p key) (p + Z.of_nat (length key)) value).
  { clear. revert m p. induction key as [| x key IH]; intros m p; cbn [memcpy app length].
    - rewrite Z.add_0_r. reflexivity.
    - rewrite IH. f_equal. lia. }
  rewrite Hcopy.
  unfold mbind, M_bind, addSlice at 1. cbn [_stack _keyWritten]. rewrite last_snoc.
  unfold setSlice, mbind, M_bind, get, checkKeyIsString.
  cbn [_stack setTopIndex withIndex _start _keyWritten]. rewrite last_snoc.
  replace ((m tos =? 11) || (m tos =? 20)) with true
    by (destruct Hhead as [-> | ->]; reflexivity).
  rewrite Hstr.
  cbn -[Z.add Z.sub Z.of_nat addSlice]. unwrap.
  unfold addSlice.
  cbn [_stack _keyWritten withPos withStart withKeyWritten setTopIndex withIndex].
  rewrite last_snoc.
  unfold setSlice, mbind, M_bind, get, checkKeyIsString.
  cbn [_stack _start _keyWritten withPos withStart withKeyWritten setTopIndex withIndex].
  rewrite last_snoc.
  rewrite memcpy_outside by lia.
  replace ((m tos =? 11) || (m tos =? 20)) with true
    by (destruct Hhead as [-> | ->]; reflexivity).
  cbn -[Z.add Z.sub Z.of_nat]. unwrap.
  replace (p + Z.of_nat (length key) + Z.of_nat (length value) - Z.of_nat (length value))
    with (p + Z.of_nat (length key)) by lia.
  replace (p + Z.of_nat (length key) + Z.of_nat (length value))
    with (p + (Z.of_nat (length key) + Z.of_nat (length value))) by lia.
  reflexivity.
Qed.

Lemma addPairs_in_object : forall (sub : ObjectIterator) (b : Builder) (tos : Z)
    (rest : list Z),
  _stack b = rest ++ [tos] -> _start b tos = 0x0b \/ _start b tos = 0x14 ->
  _keyWritten b = false -> (depth b < length (_index b))%nat ->
  Forall (fun kv => isString (fst kv) = true) sub ->
  0 <= tos < _pos b ->
  let members := map (fun kv => fst kv ++ snd kv) sub in
  _pos b + Z.of_nat (length (concat members)) < 18446744073709551616 ->
  exists b', addPairs sub b = (b', Ret tt) /\
    _pos b' = _pos b + Z.of_nat (length (concat members)) /\
    readBytes (_start b') (_pos b) (length (concat members)) = concat members /\
    (forall a, a < _pos b -> _start b' a = _start b a) /\
    topIndex b' = topIndex b ++ sliceOffsets (_pos b - tos) members /\
    _stack b' = _stack b /\ _keyWritten b' = false /\
    length (_index b') = length (_index b).
Proof.
  induction sub as [| [key value] sub IH];
    intros b tos rest Hs Hhead Hkey Hdepth Hstr Htos members Hfit; subst members.
  - exists b. cbn [addPairs map concat length sliceOffsets readBytes].
    rewrite app_nil_r, Z.add_0_r. repeat split; auto.
  - apply Forall_cons in Hstr as [Hk Hrest]. cbn [fst snd] in Hk.
    cbn [map concat fst snd] in Hfit |- *. rewrite length_app, Nat2Z.inj_add in Hfit |- *.
    cbn [addPairs].
    pose proof (addSlice_pair_in_object key value b tos rest Hs Hhead Hkey Hk Htos
                  ltac:(lia)) as Hpair.
    unfold mbind, M_bind in Hpair |- *.
    destruct (addSlice key b) as [bk [pk | ex |]]; try discriminate Hpair.
    rewrite Hpair. clear Hpair bk pk.
    set (b1 := {| _start := memcpy (_start b) (_pos b) (key ++ value);
                  _pos := _pos b + Z.of_nat (length (key ++ value));
                  _stack := _stack b;
                  _index := <[depth b := topIndex b ++ [_pos b - tos]]> (_index b);
                  _keyWritten := false; options := options b |}).
    destruct (IH b1 tos rest) as (b' & Hrun & Hpos & Hread & Hframe & Htop & Hst & Hkw & Hlen).
    + exact Hs.
    + cbn [_start b1]. rewrite memcpy_outside by lia. exact Hhead.
    + reflexivity.
    + unfold depth. cbn [_stack _index b1]. rewrite length_insert. exact Hdepth.
    + exact Hrest.
    + cbn [_pos b1]. lia.
    + cbn [_pos b1]. lia.
    + exists b'. split; [exact Hrun |].
      cbn [_pos _start _stack _index b1] in *.
      split; [lia |]. split; [| split; [| split; [| split; [exact Hst | split; [exact Hkw |]]]]].
      * rewrite readBytes_app. f_equal; [| exact Hread].
        erewrite readBytes_ext; [apply readBytes_memcpy |].
        intros i Hi. apply Hframe. lia.
      * intros a Ha. rewrite Hframe by lia. apply memcpy_outside. lia.
      * rewrite Htop. unfold topIndex at 1, depth. cbn [_stack _index b1].
        rewrite list_lookup_total_insert_eq by exact Hdepth.
        cbn [sliceOffsets]. rewrite <- app_assoc. cbn [app].
        replace (_pos b + Z.of_nat (length (key ++ value)) - tos)
          with (_pos b - tos + Z.of_nat (length (key ++ value))) by lia.
        reflexivity.
      * rewrite Hlen. apply length_insert.
Qed.

(** X20: feeding an object from an iterator.  [add] with an ObjectIterator
    throws BuilderNeedOpenObject when no compound is open and when the
    innermost open compound is not an object, and BuilderKeyAlreadyWritten
    when a key waits for its value; the Builder is left as it is.
    Otherwise, if every key of the iterator is a string, it writes the
    pairs back to back, key before value, from the append position on,
    records for each pair the offset of its key, returns the old position,
    and leaves the object open and ready for the next key. *)
Theorem addObjectIterator_appends (sub : ObjectIterator) (b : Builder) :
  (_stack b = [] -> addObjectIterator sub b = (b, Throw BuilderNeedOpenObject)) /\
  (forall tos rest, _stack b = rest ++ [tos] ->
     (_start b tos <> 0x0b -> _start b tos <> 0x14 ->
      addObjectIterator sub b = (b, Throw BuilderNeedOpenObject)) /\
     (_start b tos = 0x0b \/ _start b tos = 0x14 ->
      (_keyWritten b = true ->
       addObjectIterator sub b = (b, Throw BuilderKeyAlreadyWritten)) /\
      (_keyWritten b = false -> (depth b < length (_index b))%nat ->
       Forall (fun kv => isString (fst kv) = true) sub ->
       0 <= tos < _pos b ->
       let members := map (fun kv => fst kv ++ snd kv) sub in
       _pos b + Z.of_nat (length (concat members)) < 18446744073709551616 ->
       exists b', addObjectIterator sub b = (b', Ret (_pos b)) /\
         _pos b' = _pos b + Z.of_nat (length (concat members)) /\
         readBytes (_start b') (_pos b) (length (concat members)) = concat members /\
         (forall a, a < _pos b -> _start b' a = _start b a) /\
         topIndex b' = topIndex b ++ sliceOffsets (_pos b - tos) members /\
         _stack b' = _stack b /\ _keyWritten b' = false))).
Proof.
  split.
  - intros Hs. unfold addObjectIterator. rewrite Hs. reflexivity.
  - intros tos rest Hs. split.
    + intros H1 H2. unfold addObjectIterator. rewrite Hs, last_snoc.
      replace (_start b tos =? 11) with false by lia.
      replace (_start b tos =? 20) with false by lia. reflexivity.
    + intros Hhead.
      assert (Hobj : negb (_start b tos =? 11) && negb (_start b tos =? 20) = false)
        by (destruct Hhead as [-> | ->]; reflexivity).
      split.
      * intros Hkw. unfold addObjectIterator. rewrite Hs, last_snoc, Hobj, Hkw. reflexivity.
      * intros Hkw Hdepth Hstr Htos members Hfit.
        destruct (addPairs_in_object sub b tos rest Hs Hhead Hkw Hdepth Hstr Htos Hfit)
          as (b' & Hrun & Hpos & Hread & Hframe & Htop & Hst & Hk & _).
        exists b'. unfold addObjectIterator.
        rewrite Hs, last_snoc, Hobj, Hkw.
        unfold mbind, M_bind. rewrite Hrun.
        split; [reflexivity | split; [exact Hpos | split; [exact Hread | split;
          [exact Hframe | split; [exact Htop | split; [rewrite Hst; exact Hs | exact Hk]]]]]].
Qed.

End Iterators.



Lemma setPair_Custom_reserves_witness :
  setPair {| getStart := None; getSize := 4; pairType := ValueType.Custom |} oneMember
  = (withPos 14 oneMember, Ret 10) /\
  _start oneMember = _start oneMember.
Proof.
  apply (setPair_Custom_reserves oneMember oneMember 4
           {| getStart := None; getSize := 4; pairType := ValueType.Custom |}).
  - reflexivity.
  - reflexivity.
  - reflexivity.
  - reflexivity.
  - vm_compute. discriminate.
  - lia.
  - vm_compute. reflexivity.
Defined.

Lemma addArrayIterator_appends_witness :
  exists b', addArrayIterator [[0x32]; [0x41; 0x61]] oneMember = (b', Ret 10) /\
    _pos b' = 13 /\
    readBytes (_start b') 10 3 = [0x32; 0x41; 0x61] /\
    (forall a, a < 10 -> _start b' a = _start oneMember a) /\
    topIndex b' = [9; 10; 11] /\
    _stack b' = [0].
Proof.
  apply (addArrayIterator_appends [[0x32]; [0x41; 0x61]] oneMember) with (tos := 0) (rest := []).
  - reflexivity.
  - left. reflexivity.
  - reflexivity.
  - vm_compute. lia.
  - vm_compute. split; [discriminate | reflexivity].
  - vm_compute. reflexivity.
Defined.

Lemma addObjectIterator_appends_witness :
  exists b', addObjectIterator [([0x41; 0x62], [0x32])] singleMemberObject = (b', Ret 12) /\
    _pos b' = 15 /\
    readBytes (_start b') 12 3 = [0x41; 0x62; 0x32] /\
    (forall a, a < 12 -> _start b' a = _start singleMemberObject a) /\
    topIndex b' = [9; 12] /\
    _stack b' = [0] /\ _keyWritten b' = false.
Proof.
  apply (addObjectIterator_appends [([0x41; 0x62], [0x32])] singleMemberObject)
    with (tos := 0) (rest := []).
  - reflexivity.
  - left. reflexivity.
  - reflexivity.
  - vm_compute. lia.
  - repeat constructor.
  - vm_compute. split; [discriminate | reflexivity].
  - vm_compute. reflexivity.
Defined.
